(** * qr_console: a shallow embedding of [qr_console/qr_console.py]

    The first part holds the definitions, in the order of the Python
    module:

    - [PyStr]      Python [str] values as lists of Unicode code points, with
                   the [str] operations the module calls;
    - [Tokenizer]  [QRConsole.extract_args] with the [re.findall] of its
                   pattern, and the lines its properties are stated on;
    - [Objects]    values, dictionaries, handlers and keyword arguments;
    - [Command]    [class QRCommand] over a heap of command objects;
    - [ArgParse]   the part of the standard library's [argparse] the
                   console reaches: registration and [parse_args];
    - [Console]    [class QRConsole]: [add_command], [__read_line], [run];
    - [Main]       the console the module builds when run as a script.

    The second part holds the facts, the properties of the specification
    last. *)

From Stdlib Require Import String Ascii.
From Stdlib Require Import List Bool Arith NArith ZArith Lia DecimalString.
From Stdlib Require DecimalPos.
Import ListNotations.

(* ================================================================== *)
(** ** Python strings *)
(* ================================================================== *)

Module PyStr.

(** A Python [str] is a sequence of Unicode code points. *)
Definition char := N.
Definition pystr := list char.

(** An ASCII literal as a [pystr]. *)
Definition py (s : string) : pystr :=
  map N_of_ascii (list_ascii_of_string s).

Fixpoint pystr_eqb (a b : pystr) : bool :=
  match a, b with
  | [], [] => true
  | x :: a', y :: b' => N.eqb x y && pystr_eqb a' b'
  | _, _ => false
  end.

(** [s.startswith(p)] *)
Fixpoint starts_with (p s : pystr) : bool :=
  match p, s with
  | [], _ => true
  | x :: p', y :: s' => N.eqb x y && starts_with p' s'
  | _ :: _, [] => false
  end.

(** [x in xs] for a list of strings. *)
Definition mem (x : pystr) (xs : list pystr) : bool :=
  existsb (pystr_eqb x) xs.

(** [s[1:-1]] *)
Definition slice_1_m1 (s : pystr) : pystr := removelast (tl s).

(** The characters [str.split()] treats as blank: those for which
    [str.isspace] holds. *)
Definition is_space (c : char) : bool :=
  ((9 <=? c) && (c <=? 13) || (28 <=? c) && (c <=? 32)
   || (c =? 133) || (c =? 160) || (c =? 5760)
   || (8192 <=? c) && (c <=? 8202)
   || (c =? 8232) || (c =? 8233) || (c =? 8239) || (c =? 8287)
   || (c =? 12288))%N.

(** [s.split()]: the maximal runs of non-blank characters, in order.
    [cur] is the run being read. *)
Fixpoint split_from (cur s : pystr) : list pystr :=
  match s with
  | [] => match cur with [] => [] | _ => [cur] end
  | c :: s' =>
      if is_space c
      then match cur with
           | [] => split_from [] s'
           | _ => cur :: split_from [] s'
           end
      else split_from (cur ++ [c]) s'
  end.

Definition split (s : pystr) : list pystr := split_from [] s.

(** [s.replace(old, new)] scans left to right and replaces every
    non-overlapping occurrence of [old].  [skip] counts the characters of
    an occurrence that has just been replaced and are still to be passed
    over. *)
Fixpoint replace_from (old new : pystr) (skip : nat) (s : pystr) : pystr :=
  match s with
  | [] => []
  | c :: s' =>
      match skip with
      | S k => replace_from old new k s'
      | O =>
          if starts_with old s
          then new ++ replace_from old new (length old - 1) s'
          else c :: replace_from old new 0 s'
      end
  end.

Definition replace (old new s : pystr) : pystr :=
  match old with
  | [] => new ++ flat_map (fun c => c :: new) s
  | _ => replace_from old new 0 s
  end.

(** [', '.join(xs)] and friends. *)
Fixpoint join (sep : pystr) (xs : list pystr) : pystr :=
  match xs with
  | [] => []
  | [x] => x
  | x :: rest => x ++ sep ++ join sep rest
  end.

(* ------------------------------------------------------------------ *)
(** *** Decimal digits: [str.isdecimal], [\d], the digits of [int] *)

(** The digit zero of every decimal system of Unicode 14.0.0, the
    [unicodedata] of CPython 3.11; the ten digits of a system follow each
    other. *)
Definition zero_digits : list char :=
  [48; 1632; 1776; 1984; 2406; 2534; 2662; 2790; 2918; 3046; 3174; 3302;
   3430; 3558; 3664; 3792; 3872; 4160; 4240; 6112; 6160; 6470; 6608; 6784;
   6800; 6992; 7088; 7232; 7248; 42528; 43216; 43264; 43472; 43504; 43600;
   44016; 65296; 66720; 68912; 69734; 69872; 69942; 70096; 70384; 70736;
   70864; 71248; 71360; 71472; 71904; 72016; 72784; 73040; 73120; 92768;
   92864; 93008; 120782; 120792; 120802; 120812; 120822; 123200; 123632;
   125264; 130032]%N.

(** [Py_UNICODE_TODECIMAL]: the value of a decimal digit. *)
Definition digit_value (c : char) : option N :=
  match find (fun z => (z <=? c) && (c <? z + 10))%N zero_digits with
  | Some z => Some (c - z)%N
  | None => None
  end.

Definition is_digit (c : char) : bool :=
  match digit_value c with Some _ => true | None => false end.

(* ------------------------------------------------------------------ *)
(** *** [repr] of a string *)

(** The ranges of the code points for which [str.isprintable] does not
    hold (Unicode 14.0.0). *)
Definition nonprintable : list (N * N) :=
  [(0, 31); (127, 160); (173, 173); (888, 889); (896, 899); (907, 907);
   (909, 909); (930, 930); (1328, 1328); (1367, 1368); (1419, 1420);
   (1424, 1424); (1480, 1487); (1515, 1518); (1525, 1541); (1564, 1564);
   (1757, 1757); (1806, 1807); (1867, 1868); (1970, 1983); (2043, 2044);
   (2094, 2095); (2111, 2111); (2140, 2141); (2143, 2143); (2155, 2159);
   (2191, 2199); (2274, 2274); (2436, 2436); (2445, 2446); (2449, 2450);
   (2473, 2473); (2481, 2481); (2483, 2485); (2490, 2491); (2501, 2502);
   (2505, 2506); (2511, 2518); (2520, 2523); (2526, 2526); (2532, 2533);
   (2559, 2560); (2564, 2564); (2571, 2574); (2577, 2578); (2601, 2601);
   (2609, 2609); (2612, 2612); (2615, 2615); (2618, 2619); (2621, 2621);
   (2627, 2630); (2633, 2634); (2638, 2640); (2642, 2648); (2653, 2653);
   (2655, 2661); (2679, 2688); (2692, 2692); (2702, 2702); (2706, 2706);
   (2729, 2729); (2737, 2737); (2740, 2740); (2746, 2747); (2758, 2758);
   (2762, 2762); (2766, 2767); (2769, 2783); (2788, 2789); (2802, 2808);
   (2816, 2816); (2820, 2820); (2829, 2830); (2833, 2834); (2857, 2857);
   (2865, 2865); (2868, 2868); (2874, 2875); (2885, 2886); (2889, 2890);
   (2894, 2900); (2904, 2907); (2910, 2910); (2916, 2917); (2936, 2945);
   (2948, 2948); (2955, 2957); (2961, 2961); (2966, 2968); (2971, 2971);
   (2973, 2973); (2976, 2978); (2981, 2983); (2987, 2989); (3002, 3005);
   (3011, 3013); (3017, 3017); (3022, 3023); (3025, 3030); (3032, 3045);
   (3067, 3071); (3085, 3085); (3089, 3089); (3113, 3113); (3130, 3131);
   (3141, 3141); (3145, 3145); (3150, 3156); (3159, 3159); (3163, 3164);
   (3166, 3167); (3172, 3173); (3184, 3190); (3213, 3213); (3217, 3217);
   (3241, 3241); (3252, 3252); (3258, 3259); (3269, 3269); (3273, 3273);
   (3278, 3284); (3287, 3292); (3295, 3295); (3300, 3301); (3312, 3312);
   (3315, 3327); (3341, 3341); (3345, 3345); (3397, 3397); (3401, 3401);
   (3408, 3411); (3428, 3429); (3456, 3456); (3460, 3460); (3479, 3481);
   (3506, 3506); (3516, 3516); (3518, 3519); (3527, 3529); (3531, 3534);
   (3541, 3541); (3543, 3543); (3552, 3557); (3568, 3569); (3573, 3584);
   (3643, 3646); (3676, 3712); (3715, 3715); (3717, 3717); (3723, 3723);
   (3748, 3748); (3750, 3750); (3774, 3775); (3781, 3781); (3783, 3783);
   (3790, 3791); (3802, 3803); (3808, 3839); (3912, 3912); (3949, 3952);
   (3992, 3992); (4029, 4029); (4045, 4045); (4059, 4095); (4294, 4294);
   (4296, 4300); (4302, 4303); (4681, 4681); (4686, 4687); (4695, 4695);
   (4697, 4697); (4702, 4703); (4745, 4745); (4750, 4751); (4785, 4785);
   (4790, 4791); (4799, 4799); (4801, 4801); (4806, 4807); (4823, 4823);
   (4881, 4881); (4886, 4887); (4955, 4956); (4989, 4991); (5018, 5023);
   (5110, 5111); (5118, 5119); (5760, 5760); (5789, 5791); (5881, 5887);
   (5910, 5918); (5943, 5951); (5972, 5983); (5997, 5997); (6001, 6001);
   (6004, 6015); (6110, 6111); (6122, 6127); (6138, 6143); (6158, 6158);
   (6170, 6175); (6265, 6271); (6315, 6319); (6390, 6399); (6431, 6431);
   (6444, 6447); (6460, 6463); (6465, 6467); (6510, 6511); (6517, 6527);
   (6572, 6575); (6602, 6607); (6619, 6621); (6684, 6685); (6751, 6751);
   (6781, 6782); (6794, 6799); (6810, 6815); (6830, 6831); (6863, 6911);
   (6989, 6991); (7039, 7039); (7156, 7163); (7224, 7226); (7242, 7244);
   (7305, 7311); (7355, 7356); (7368, 7375); (7419, 7423); (7958, 7959);
   (7966, 7967); (8006, 8007); (8014, 8015); (8024, 8024); (8026, 8026);
   (8028, 8028); (8030, 8030); (8062, 8063); (8117, 8117); (8133, 8133);
   (8148, 8149); (8156, 8156); (8176, 8177); (8181, 8181); (8191, 8207);
   (8232, 8239); (8287, 8303); (8306, 8307); (8335, 8335); (8349, 8351);
   (8385, 8399); (8433, 8447); (8588, 8591); (9255, 9279); (9291, 9311);
   (11124, 11125); (11158, 11158); (11508, 11512); (11558, 11558);
   (11560, 11564); (11566, 11567); (11624, 11630); (11633, 11646);
   (11671, 11679); (11687, 11687); (11695, 11695); (11703, 11703);
   (11711, 11711); (11719, 11719); (11727, 11727); (11735, 11735);
   (11743, 11743); (11870, 11903); (11930, 11930); (12020, 12031);
   (12246, 12271); (12284, 12288); (12352, 12352); (12439, 12440);
   (12544, 12548); (12592, 12592); (12687, 12687); (12772, 12783);
   (12831, 12831); (42125, 42127); (42183, 42191); (42540, 42559);
   (42744, 42751); (42955, 42959); (42962, 42962); (42964, 42964);
   (42970, 42993); (43053, 43055); (43066, 43071); (43128, 43135);
   (43206, 43213); (43226, 43231); (43348, 43358); (43389, 43391);
   (43470, 43470); (43482, 43485); (43519, 43519); (43575, 43583);
   (43598, 43599); (43610, 43611); (43715, 43738); (43767, 43776);
   (43783, 43784); (43791, 43792); (43799, 43807); (43815, 43815);
   (43823, 43823); (43884, 43887); (44014, 44015); (44026, 44031);
   (55204, 55215); (55239, 55242); (55292, 63743); (64110, 64111);
   (64218, 64255); (64263, 64274); (64280, 64284); (64311, 64311);
   (64317, 64317); (64319, 64319); (64322, 64322); (64325, 64325);
   (64451, 64466); (64912, 64913); (64968, 64974); (64976, 65007);
   (65050, 65055); (65107, 65107); (65127, 65127); (65132, 65135);
   (65141, 65141); (65277, 65280); (65471, 65473); (65480, 65481);
   (65488, 65489); (65496, 65497); (65501, 65503); (65511, 65511);
   (65519, 65531); (65534, 65535); (65548, 65548); (65575, 65575);
   (65595, 65595); (65598, 65598); (65614, 65615); (65630, 65663);
   (65787, 65791); (65795, 65798); (65844, 65846); (65935, 65935);
   (65949, 65951); (65953, 65999); (66046, 66175); (66205, 66207);
   (66257, 66271); (66300, 66303); (66340, 66348); (66379, 66383);
   (66427, 66431); (66462, 66462); (66500, 66503); (66518, 66559);
   (66718, 66719); (66730, 66735); (66772, 66775); (66812, 66815);
   (66856, 66863); (66916, 66926); (66939, 66939); (66955, 66955);
   (66963, 66963); (66966, 66966); (66978, 66978); (66994, 66994);
   (67002, 67002); (67005, 67071); (67383, 67391); (67414, 67423);
   (67432, 67455); (67462, 67462); (67505, 67505); (67515, 67583);
   (67590, 67591); (67593, 67593); (67638, 67638); (67641, 67643);
   (67645, 67646); (67670, 67670); (67743, 67750); (67760, 67807);
   (67827, 67827); (67830, 67834); (67868, 67870); (67898, 67902);
   (67904, 67967); (68024, 68027); (68048, 68049); (68100, 68100);
   (68103, 68107); (68116, 68116); (68120, 68120); (68150, 68151);
   (68155, 68158); (68169, 68175); (68185, 68191); (68256, 68287);
   (68327, 68330); (68343, 68351); (68406, 68408); (68438, 68439);
   (68467, 68471); (68498, 68504); (68509, 68520); (68528, 68607);
   (68681, 68735); (68787, 68799); (68851, 68857); (68904, 68911);
   (68922, 69215); (69247, 69247); (69290, 69290); (69294, 69295);
   (69298, 69375); (69416, 69423); (69466, 69487); (69514, 69551);
   (69580, 69599); (69623, 69631); (69710, 69713); (69750, 69758);
   (69821, 69821); (69827, 69839); (69865, 69871); (69882, 69887);
   (69941, 69941); (69960, 69967); (70007, 70015); (70112, 70112);
   (70133, 70143); (70162, 70162); (70207, 70271); (70279, 70279);
   (70281, 70281); (70286, 70286); (70302, 70302); (70314, 70319);
   (70379, 70383); (70394, 70399); (70404, 70404); (70413, 70414);
   (70417, 70418); (70441, 70441); (70449, 70449); (70452, 70452);
   (70458, 70458); (70469, 70470); (70473, 70474); (70478, 70479);
   (70481, 70486); (70488, 70492); (70500, 70501); (70509, 70511);
   (70517, 70655); (70748, 70748); (70754, 70783); (70856, 70863);
   (70874, 71039); (71094, 71095); (71134, 71167); (71237, 71247);
   (71258, 71263); (71277, 71295); (71354, 71359); (71370, 71423);
   (71451, 71452); (71468, 71471); (71495, 71679); (71740, 71839);
   (71923, 71934); (71943, 71944); (71946, 71947); (71956, 71956);
   (71959, 71959); (71990, 71990); (71993, 71994); (72007, 72015);
   (72026, 72095); (72104, 72105); (72152, 72153); (72165, 72191);
   (72264, 72271); (72355, 72367); (72441, 72703); (72713, 72713);
   (72759, 72759); (72774, 72783); (72813, 72815); (72848, 72849);
   (72872, 72872); (72887, 72959); (72967, 72967); (72970, 72970);
   (73015, 73017); (73019, 73019); (73022, 73022); (73032, 73039);
   (73050, 73055); (73062, 73062); (73065, 73065); (73103, 73103);
   (73106, 73106); (73113, 73119); (73130, 73439); (73465, 73647);
   (73649, 73663); (73714, 73726); (74650, 74751); (74863, 74863);
   (74869, 74879); (75076, 77711); (77811, 77823); (78895, 82943);
   (83527, 92159); (92729, 92735); (92767, 92767); (92778, 92781);
   (92863, 92863); (92874, 92879); (92910, 92911); (92918, 92927);
   (92998, 93007); (93018, 93018); (93026, 93026); (93048, 93052);
   (93072, 93759); (93851, 93951); (94027, 94030); (94088, 94094);
   (94112, 94175); (94181, 94191); (94194, 94207); (100344, 100351);
   (101590, 101631); (101641, 110575); (110580, 110580); (110588, 110588);
   (110591, 110591); (110883, 110927); (110931, 110947); (110952, 110959);
   (111356, 113663); (113771, 113775); (113789, 113791); (113801, 113807);
   (113818, 113819); (113824, 118527); (118574, 118575); (118599, 118607);
   (118724, 118783); (119030, 119039); (119079, 119080); (119155, 119162);
   (119275, 119295); (119366, 119519); (119540, 119551); (119639, 119647);
   (119673, 119807); (119893, 119893); (119965, 119965); (119968, 119969);
   (119971, 119972); (119975, 119976); (119981, 119981); (119994, 119994);
   (119996, 119996); (120004, 120004); (120070, 120070); (120075, 120076);
   (120085, 120085); (120093, 120093); (120122, 120122); (120127, 120127);
   (120133, 120133); (120135, 120137); (120145, 120145); (120486, 120487);
   (120780, 120781); (121484, 121498); (121504, 121504); (121520, 122623);
   (122655, 122879); (122887, 122887); (122905, 122906); (122914, 122914);
   (122917, 122917); (122923, 123135); (123181, 123183); (123198, 123199);
   (123210, 123213); (123216, 123535); (123567, 123583); (123642, 123646);
   (123648, 124895); (124903, 124903); (124908, 124908); (124911, 124911);
   (124927, 124927); (125125, 125126); (125143, 125183); (125260, 125263);
   (125274, 125277); (125280, 126064); (126133, 126208); (126270, 126463);
   (126468, 126468); (126496, 126496); (126499, 126499); (126501, 126502);
   (126504, 126504); (126515, 126515); (126520, 126520); (126522, 126522);
   (126524, 126529); (126531, 126534); (126536, 126536); (126538, 126538);
   (126540, 126540); (126544, 126544); (126547, 126547); (126549, 126550);
   (126552, 126552); (126554, 126554); (126556, 126556); (126558, 126558);
   (126560, 126560); (126563, 126563); (126565, 126566); (126571, 126571);
   (126579, 126579); (126584, 126584); (126589, 126589); (126591, 126591);
   (126602, 126602); (126620, 126624); (126628, 126628); (126634, 126634);
   (126652, 126703); (126706, 126975); (127020, 127023); (127124, 127135);
   (127151, 127152); (127168, 127168); (127184, 127184); (127222, 127231);
   (127406, 127461); (127491, 127503); (127548, 127551); (127561, 127567);
   (127570, 127583); (127590, 127743); (128728, 128732); (128749, 128751);
   (128765, 128767); (128884, 128895); (128985, 128991); (129004, 129007);
   (129009, 129023); (129036, 129039); (129096, 129103); (129114, 129119);
   (129160, 129167); (129198, 129199); (129202, 129279); (129620, 129631);
   (129646, 129647); (129653, 129655); (129661, 129663); (129671, 129679);
   (129709, 129711); (129723, 129727); (129734, 129743); (129754, 129759);
   (129768, 129775); (129783, 129791); (129939, 129939); (129995, 130031);
   (130042, 131071); (173792, 173823); (177977, 177983); (178206, 178207);
   (183970, 183983); (191457, 194559); (195102, 196607); (201547, 917759);
   (918000, 1114111)]%N.

Definition is_printable (c : char) : bool :=
  negb (existsb (fun r => (fst r <=? c) && (c <=? snd r))%N nonprintable).

Definition hex_digit (n : N) : char := (if n <? 10 then 48 + n else 87 + n)%N.

(** [n] in [width] lower-case hexadecimal digits. *)
Fixpoint hex_fixed (width : nat) (n : N) : pystr :=
  match width with
  | O => []
  | S w => hex_fixed w (n / 16) ++ [hex_digit (n mod 16)]
  end.

(** The quote [repr] puts around a string: a double quote when the string
    holds an apostrophe and no double quote, an apostrophe otherwise. *)
Definition repr_quote (s : pystr) : char :=
  (if existsb (N.eqb 39) s && negb (existsb (N.eqb 34) s) then 34 else 39)%N.

(** One character as [repr] writes it between the quotes [q]. *)
Definition repr_char (q c : char) : pystr :=
  (if (c =? q) || (c =? 92) then [92; c]
   else if c =? 9 then [92; 116]
   else if c =? 10 then [92; 110]
   else if c =? 13 then [92; 114]
   else if is_printable c then [c]
   else if c <? 256 then [92; 120] ++ hex_fixed 2 c
   else if c <? 65536 then [92; 117] ++ hex_fixed 4 c
   else [92; 85] ++ hex_fixed 8 c)%N.

(** [repr(s)] *)
Definition repr_str (s : pystr) : pystr :=
  let q := repr_quote s in
  q :: flat_map (repr_char q) s ++ [q].


End PyStr.
Import PyStr.

(* ================================================================== *)
(** ** Exceptions and results *)
(* ================================================================== *)

(** The classes of the exceptions the module, [argparse], [input] and the
    handlers raise.  [OtherException] stands for any other class that
    derives from [Exception].  The last three do not derive from it:
    [SystemExit] (a handler that calls [sys.exit]), [KeyboardInterrupt]
    (Ctrl-C at the prompt or while a handler runs), and
    [OtherBaseException] for any other class of that kind. *)
Inductive exn_class :=
| Exception_
| IndexError
| KeyError
| ValueError
| TypeError
| EOFError
| ArgumentError
| ArgumentParserError
| OtherException
| SystemExit
| KeyboardInterrupt
| OtherBaseException.

(** An exception with the text [str(ex)] gives. *)
Record exn := mkExn { exn_cls : exn_class; exn_str : pystr }.

(** [isinstance(ex, Exception)]: what [except Exception] catches. *)
Definition is_exception (ex : exn) : bool :=
  match exn_cls ex with
  | SystemExit | KeyboardInterrupt | OtherBaseException => false
  | _ => true
  end.

Inductive result (A : Type) :=
| Ok (a : A)
| Raise (e : exn).
Arguments Ok {A} a.
Arguments Raise {A} e.

Definition bind {A B} (r : result A) (f : A -> result B) : result B :=
  match r with
  | Ok a => f a
  | Raise e => Raise e
  end.

Notation "x <- r ;; k" := (bind r (fun x => k))
  (at level 61, r at next level, right associativity).

(* ================================================================== *)
(** ** The tokenizer: [QRConsole.extract_args] *)
(* ================================================================== *)

Module Tokenizer.

Definition dq : char := 34%N.

(** The character class [[A-Za-z0-9а-яА-Я_ -]] of the pattern
    [p = r'\"([A-Za-z0-9а-яА-Я_ -]+)\"']. *)
Definition in_class (c : char) : bool :=
  ((65 <=? c) && (c <=? 90) || (97 <=? c) && (c <=? 122)
   || (48 <=? c) && (c <=? 57)
   || (1072 <=? c) && (c <=? 1103) || (1040 <=? c) && (c <=? 1071)
   || (c =? 95) || (c =? 32) || (c =? 45))%N.

(** The longest prefix of class characters, and what follows it. *)
Fixpoint span_class (s : pystr) : pystr * pystr :=
  match s with
  | c :: s' =>
      if in_class c
      then let (body, rest) := span_class s' in (c :: body, rest)
      else ([], s)
  | [] => ([], [])
  end.

(** The pattern matched at the head of [s]: the group, when [s] is a
    double quote, one or more class characters and a double quote.  The
    closing quote is no class character, so only the longest run of class
    characters can be followed by it. *)
Definition match_here (s : pystr) : option pystr :=
  match s with
  | c :: s' =>
      if N.eqb c dq then
        match span_class s' with
        | ((_ :: _) as body, c' :: _) => if N.eqb c' dq then Some body else None
        | _ => None
        end
      else None
  | [] => None
  end.

(** [re.findall(p, s)]: the groups of the non-overlapping matches, found
    left to right.  [skip] counts the characters of the last match still to
    be passed over. *)
Fixpoint findall_from (skip : nat) (s : pystr) : list pystr :=
  match s with
  | [] => []
  | _ :: s' =>
      match skip with
      | S k => findall_from k s'
      | O =>
          match match_here s with
          | Some body => body :: findall_from (S (length body)) s'
          | None => findall_from 0 s'
          end
      end
  end.

Definition findall (s : pystr) : list pystr := findall_from 0 s.

(** [fill = f'$^$$^$'] *)
Definition fill : pystr := [36; 94; 36; 36; 94; 36]%N.

(** The second loop of [extract_args]: the [j]-th token equal to [fill]
    becomes [b_args[i][1:-1]], and [b_args[i]] raises [IndexError] when
    [i] is out of range. *)
Fixpoint resubstitute (b_args : list pystr) (i : nat) (args : list pystr)
  : result (list pystr) :=
  match args with
  | [] => Ok []
  | a :: rest =>
      if pystr_eqb a fill then
        match nth_error b_args i with
        | Some b =>
            rest' <- resubstitute b_args (S i) rest ;;
            Ok (slice_1_m1 b :: rest')
        | None => Raise (mkExn IndexError (py "list index out of range"))
        end
      else
        rest' <- resubstitute b_args i rest ;;
        Ok (a :: rest')
  end.

(** A double quote, [x], a double quote: an element of [b_args]. *)
Definition quote (x : pystr) : pystr := dq :: x ++ [dq].

(** [extract_args(self, s)]: [b_args] holds the matches of the pattern
    with their quotes, the first loop replaces each of them in [s] by
    [fill], [args = s.split()], and the second loop puts the matches back
    without their quotes. *)
Definition extract_args (s : pystr) : result (list pystr) :=
  let b_args := map quote (findall s) in
  let s := fold_left (fun s b => replace b fill s) b_args s in
  let args := split s in
  resubstitute b_args 0 args.

(* ------------------------------------------------------------------ *)
(** *** Lines made of blank-separated words and quoted spans *)

(** A line read as the user means it: blank-separated items, each a bare
    word or a quoted span.  [render] writes the line: every item is
    preceded by a run of blanks, and [trail] closes the line. *)
Inductive item :=
| Word (w : pystr)
| Quoted (c : pystr).

Definition item_text (it : item) : pystr :=
  match it with
  | Word w => w
  | Quoted c => quote c
  end.

Definition item_token (it : item) : pystr :=
  match it with
  | Word w => w
  | Quoted c => c
  end.

Fixpoint render (l : list (pystr * item)) (trail : pystr) : pystr :=
  match l with
  | [] => trail
  | (sp, it) :: l' => sp ++ item_text it ++ render l' trail
  end.

Definition blank (s : pystr) : bool := forallb is_space s.

Definition nonempty (s : pystr) : bool :=
  match s with [] => false | _ => true end.

(** A bare word: not empty, no blank and no double quote in it. *)
Definition plain_word (w : pystr) : bool :=
  nonempty w && forallb (fun c => negb (is_space c) && negb (N.eqb c dq)) w.

(** A quoted span the pattern matches and the replacement keeps apart
    from its neighbours: not empty, class characters only, and not both
    starting and ending with a space. *)
Definition span_ok (c : pystr) : bool :=
  nonempty c && forallb in_class c
  && negb (N.eqb (hd 0%N c) 32 && N.eqb (last c 0%N) 32).

Definition item_ok (it : item) : bool :=
  match it with
  | Word w => plain_word w
  | Quoted c => span_ok c
  end.

(** [strict]: the blanks before the item are not empty. *)
Definition entry_ok (strict : bool) (p : pystr * item) : bool :=
  blank (fst p) && (negb strict || nonempty (fst p)) && item_ok (snd p).

Definition tail_ok (l : list (pystr * item)) : bool :=
  forallb (entry_ok true) l.

(** Only the first item may start the line without blanks before it. *)
Definition head_ok (l : list (pystr * item)) : bool :=
  match l with
  | [] => true
  | p :: l' => entry_ok false p && tail_ok l'
  end.

Definition line_ok (l : list (pystr * item)) (trail : pystr) : bool :=
  head_ok l && blank trail.

(** No bare word is the text [fill]. *)
Definition fill_free (l : list (pystr * item)) : bool :=
  forallb (fun p => match snd p with
                    | Word w => negb (pystr_eqb w fill)
                    | Quoted _ => true
                    end) l.

Definition count_words (l : list (pystr * item)) : nat :=
  length (filter (fun p => match snd p with Word _ => true | _ => false end) l).

Definition count_spans (l : list (pystr * item)) : nat :=
  length (filter (fun p => match snd p with Quoted _ => true | _ => false end) l).

(** The spans of a line, in order: what [re.findall] is to find. *)
Definition spans (l : list (pystr * item)) : list pystr :=
  flat_map (fun p => match snd p with Quoted c => [c] | Word _ => [] end) l.

(** The text that stands for an item once every span is replaced. *)
Definition shown (p : pystr * item) : pystr :=
  match snd p with
  | Word w => w
  | Quoted _ => fill
  end.

(** The line after [s.replace(quote qc, fill)]: the spans equal to [qc]
    have become the word [fill]. *)
Definition seal (qc : pystr) (p : pystr * item) : pystr * item :=
  match snd p with
  | Quoted c => if pystr_eqb c qc then (fst p, Word fill) else p
  | Word _ => p
  end.

(** The same for every span whose content is in [cs]. *)
Definition seal_in (cs : list pystr) (p : pystr * item) : pystr * item :=
  match snd p with
  | Quoted c => if mem c cs then (fst p, Word fill) else p
  | Word _ => p
  end.

(** The line once every span has become the word [fill]. *)
Definition seal_all (p : pystr * item) : pystr * item := (fst p, Word (shown p)).

(** The words of a list, one space between two of them, as a line. *)
Fixpoint spaced (sp : pystr) (ws : list pystr) : list (pystr * item) :=
  match ws with
  | [] => []
  | w :: ws' => (sp, Word w) :: spaced (py " ") ws'
  end.

(** No double quote in [s]. *)
Definition dq_free (s : pystr) : Prop := Forall (fun c => c <> dq) s.

(* ------------------------------------------------------------------ *)
(** *** What the two loops of [extract_args] count *)

(** The number of tokens that are the text [fill]. *)
Definition count_fill (args : list pystr) : nat :=
  length (filter (fun a => pystr_eqb a fill) args).

(** What the group of the pattern matches: one class character or more. *)
Definition group_ok (c : pystr) : bool := nonempty c && forallb in_class c.

(** No blank in [w]. *)
Definition no_space (w : pystr) : bool := forallb (fun c => negb (is_space c)) w.

(** [sealed s s']: [s'] is [s] with occurrences of quoted groups replaced
    by [fill], one after the other. *)
Inductive sealed : pystr -> pystr -> Prop :=
| sealed_refl s : sealed s s
| sealed_step u c v s' :
    group_ok c = true -> sealed (u ++ fill ++ v) s' ->
    sealed (u ++ quote c ++ v) s'.

End Tokenizer.
Import Tokenizer.

(* ================================================================== *)
(** ** Values, dictionaries and the heap of command objects *)
(* ================================================================== *)

Module Objects.

(** A reference to a [QRCommand] object. *)
Definition ref := nat.

(** The Python values the console handles: what an argument converts to,
    what a default is, and the function [add_command] binds to a command
    object ([VFunc r] is [lambda data: cmd.func( *extract_args(data))] for
    the command object [r]).  [VNil] is the empty list. *)
Inductive value :=
| VNone
| VBool (b : bool)
| VInt (z : Z)
| VStr (s : pystr)
| VNil
| VFunc (r : ref).

(** A Python [dict] with [str] keys: the entries in insertion order.
    Assigning to a key that is present replaces the value where it
    stands. *)
Definition dict (V : Type) := list (pystr * V).

Fixpoint dict_get {V} (k : pystr) (d : dict V) : option V :=
  match d with
  | [] => None
  | (k', v) :: d' => if pystr_eqb k' k then Some v else dict_get k d'
  end.

Fixpoint dict_set {V} (k : pystr) (v : V) (d : dict V) : dict V :=
  match d with
  | [] => [(k, v)]
  | (k', v') :: d' =>
      if pystr_eqb k' k then (k', v) :: d' else (k', v') :: dict_set k v d'
  end.

Definition dict_has {V} (k : pystr) (d : dict V) : bool :=
  match dict_get k d with Some _ => true | None => false end.

Definition keys {V} (d : dict V) : list pystr := map fst d.
Definition values {V} (d : dict V) : list V := map snd d.

(** What a handler does when it is called with the argument values: the
    lines it prints, and the exception it raises, if any. *)
Definition handler := list value -> list pystr * option exn.

(** [type=] of an argument. *)
Inductive pytype := Tint | Tstr.

(** [action=] of an argument. *)
Inductive action_name := store | store_true.

(** The keyword arguments of [add_argument] the README and the docstrings
    use: [type], [default], [action] and [help]. *)
Record kwargs := mkKwargs {
  kw_type : option pytype;
  kw_default : option value;
  kw_action : option action_name;
  kw_help : option pystr }.

End Objects.
Import Objects.

(* ================================================================== *)
(** ** [class QRCommand] *)
(* ================================================================== *)

Module Command.

(** [self.arguments[bare_name] = [[name] + list(args), kwargs]] *)
Definition arg_spec := (list pystr * kwargs)%type.

Record QRCommand := mkCommand {
  name : pystr;
  help : option pystr;
  arguments : dict arg_spec;
  func : option handler }.

(** Command objects live in a heap and are passed by reference: the
    methods mutate the object and return [self]. *)
Definition heap := list QRCommand.

Definition deref (h : heap) (r : ref) : option QRCommand := nth_error h r.

Fixpoint update (h : heap) (r : ref) (c : QRCommand) : heap :=
  match h, r with
  | [], _ => []
  | _ :: h', O => c :: h'
  | x :: h', S r' => x :: update h' r' c
  end.

(** A reference Python cannot hold: no object stands behind it. *)
Definition no_object : exn := mkExn OtherException (py "no such object").

(** [QRCommand(name, func, help)] *)
Definition new (h : heap) (name : pystr) (func : option handler)
    (help : option pystr) : heap * ref :=
  (h ++ [mkCommand name help [] func], length h).

Definition dash : char := 45%N.

(** The first statement of [add_argument]: [name[0]] raises [IndexError]
    on the empty string; a name that starts with a dash loses one dash,
    or two when it starts with two. *)
Definition bare_name (name : pystr) : result pystr :=
  match name with
  | [] => Raise (mkExn IndexError (py "string index out of range"))
  | c :: rest =>
      if N.eqb c dash then
        match rest with
        | c2 :: rest2 => if N.eqb c2 dash then Ok rest2 else Ok rest
        | [] => Ok rest
        end
      else Ok name
  end.

Definition is_optional_name (name : pystr) : bool :=
  match name with
  | c :: _ => N.eqb c dash
  | [] => false
  end.

Definition short_name (bare : pystr) : pystr := dash :: bare.
Definition full_name (bare : pystr) : pystr := dash :: dash :: bare.

(** The names [add_argument] stores: [[name] + list(args)], where [args]
    got [short_name] and [full_name] in front for an optional argument. *)
Definition stored_names (name bare : pystr) (args : list pystr) : list pystr :=
  if is_optional_name name
  then name :: short_name bare :: full_name bare :: args
  else name :: args.

(** [add_argument(self, name, *args, **kwargs)]: the spec is filed under
    the bare name, and [self] is returned. *)
Definition add_argument (h : heap) (self : ref) (name : pystr)
    (args : list pystr) (kw : kwargs) : heap * result ref :=
  match deref h self with
  | None => (h, Raise no_object)
  | Some cmd =>
      match bare_name name with
      | Raise e => (h, Raise e)
      | Ok bare =>
          let spec := (stored_names name bare args, kw) in
          let cmd' := mkCommand (Command.name cmd) (help cmd)
                        (dict_set bare spec (arguments cmd)) (func cmd) in
          (update h self cmd', Ok self)
      end
  end.

(** [set_func(self, f)] *)
Definition set_func (h : heap) (self : ref) (f : option handler)
  : heap * result ref :=
  match deref h self with
  | None => (h, Raise no_object)
  | Some cmd =>
      (update h self (mkCommand (name cmd) (help cmd) (arguments cmd) f),
       Ok self)
  end.

End Command.
Import Command.

(* ================================================================== *)
(** ** [argparse]: what the console builds and what parses a line *)
(* ================================================================== *)

(** The module delegates to the standard library's [argparse].  This is
    the part of it the console reaches, written after CPython's
    [Lib/argparse.py]: parsers with the help option (which prints and,
    after the module's [QRHelpAction], goes on), the sub-parsers action,
    and arguments declared with [type] [int] or [str], [default], [help]
    and [action] ['store'] or ['store_true'].  The text of a help message
    is left out: an event names the parser that printed it, and whether
    printing raises is given by a [Formatter].  The wording of the
    messages is that of CPython 3.9 to 3.11, [int] and [str] of an integer
    are those of CPython 3.11 with its limit of 4300 digits. *)
Module ArgParse.

Inductive action_kind := KStore | KStoreTrue | KHelp | KSubParsers.

(** An [argparse.Action].  [dest] and [default] are [None] for
    [SUPPRESS]; [nargs] follows from the kind: [None] for [KStore], [0]
    for [KStoreTrue] and [KHelp], [PARSER] for [KSubParsers].
    [subactions] is [_choices_actions] of a sub-parsers action: the names
    [add_parser] was called with, each with its [help]. *)
Record Action := mkAction {
  option_strings : list pystr;
  dest : option pystr;
  kind : action_kind;
  type_ : option pytype;
  default : option value;
  required : bool;
  choices : option (list pystr);
  action_help : option pystr;
  subactions : list (pystr * option pystr) }.

(** An [ArgumentParser]: [_actions], [_option_string_actions] (each option
    string with the index of its action in [_actions]) and [_defaults]. *)
Record Parser := mkParser {
  prog : pystr;
  actions : list Action;
  option_string_actions : dict nat;
  defaults : dict value }.

Definition help_action : Action :=
  mkAction [py "-h"; py "--help"] None KHelp None None false None
           (Some (py "show this help message and exit")) [].

(** [parser.print_help()] is [argparse]'s doing, not the module's: the
    formatter expands every help text with [%], lays the usage out by the
    width of the terminal and writes to [sys.stdout], and each of these
    can raise (a help text [50% off] makes [%] raise).  What it does for
    a parser is taken as given: [None] when the help is printed, or the
    exception it raises, in which case nothing is printed. *)
Class Formatter := print_help : Parser -> option exn.

(** The formatter of the examples, where no parser is named: every help
    is printed.  That is what [print_help] does for the parsers of the
    console of the [__main__] block and of the other consoles of the
    examples, whose help texts hold no [%] and whose usage lines are
    short. *)
#[export] Instance help_prints : Formatter | 100 := fun _ => None.

(** [ArgumentParser(prog=prog)]: [add_help] registers [-h] and [--help]. *)
Definition new_parser (prog : pystr) : Parser :=
  mkParser prog [help_action] [(py "-h", 0); (py "--help", 0)] [].

(** [_get_action_name] *)
Definition action_name_of (a : Action) : option pystr :=
  match option_strings a with
  | _ :: _ => Some (join (py "/") (option_strings a))
  | [] =>
      match dest a with
      | Some d => Some d
      | None =>
          match choices a with
          | Some ((_ :: _) as cs) => Some (py "{" ++ join (py ",") cs ++ py "}")
          | _ => None
          end
      end
  end.

(** [ArgumentError(action, msg)] with the text [str] gives it. *)
Definition argument_error (a : Action) (msg : pystr) : exn :=
  mkExn ArgumentError
        match action_name_of a with
        | Some n => py "argument " ++ n ++ py ": " ++ msg
        | None => msg
        end.

Definition is_dash (c : char) : bool := N.eqb c 45.

(** [s.lstrip('-')] *)
Fixpoint lstrip_dashes (s : pystr) : pystr :=
  match s with
  | c :: s' => if is_dash c then lstrip_dashes s' else s
  | [] => []
  end.

(** [_get_optional_kwargs]: every name starts with a dash; [dest] comes
    from the first name with two dashes, or else from the first name. *)
Fixpoint check_option_strings (args : list pystr) : result unit :=
  match args with
  | [] => Ok tt
  | [] :: _ => Raise (mkExn IndexError (py "string index out of range"))
  | ((c :: _) as s) :: rest =>
      if is_dash c then check_option_strings rest
      else Raise (mkExn ValueError
                    (py "invalid option string " ++ repr_str s
                     ++ py ": must start with a character '-'"))
  end.

Definition is_long (s : pystr) : bool :=
  match s with
  | _ :: c :: _ => is_dash c
  | _ => false
  end.

Definition optional_dest (args : list pystr) : result pystr :=
  let dest_option_string :=
    match filter is_long args with
    | s :: _ => s
    | [] => hd [] args
    end in
  match lstrip_dashes dest_option_string with
  | [] => Raise (mkExn ValueError
                   (py "dest= is required for options like "
                    ++ repr_str (last args [])))
  | d => Ok (map (fun c => if is_dash c then 95%N else c) d)
  end.

(** [_check_conflict] with the default [conflict_handler='error']. *)
Definition conflicts (p : Parser) (a : Action) : list pystr :=
  filter (fun s => dict_has s (option_string_actions p)) (option_strings a).

(** [_add_action] *)
Definition add_action (p : Parser) (a : Action) : result Parser :=
  match conflicts p a with
  | [] =>
      let i := length (actions p) in
      Ok (mkParser (prog p) (actions p ++ [a])
            (fold_left (fun m s => dict_set s i m) (option_strings a)
                       (option_string_actions p))
            (defaults p))
  | [s] => Raise (argument_error a (py "conflicting option string: " ++ s))
  | ss => Raise (argument_error a
                   (py "conflicting option strings: " ++ join (py ", ") ss))
  end.

(** [parser.add_argument] called with the names [args] and the keyword
    arguments [kw]. *)
Definition add_argument (p : Parser) (args : list pystr) (kw : kwargs)
  : result Parser :=
  match args with
  | [] => Raise (mkExn TypeError
                   (py "_get_positional_kwargs() missing 1 required positional argument: 'dest'"))
  | first :: more =>
      positional <-
        match more, first with
        | [], [] => Raise (mkExn IndexError (py "string index out of range"))
        | [], c :: _ => Ok (negb (is_dash c))
        | _ :: _, _ => Ok false
        end ;;
      names_dest <-
        (if positional : bool then Ok ([], first)
         else _ <- check_option_strings args ;;
              d <- optional_dest args ;;
              Ok (args, d)) ;;
      let '(names, d) := names_dest in
      let dflt :=
        match kw_default kw with
        | Some v => Some v
        | None => dict_get d (defaults p)
        end in
      match kw_action kw with
      | None | Some store =>
          add_action p
            (mkAction names (Some d) KStore (kw_type kw)
               (Some match dflt with Some v => v | None => VNone end)
               positional None (kw_help kw) [])
      | Some store_true =>
          match kw_type kw with
          | Some _ =>
              Raise (mkExn TypeError
                       (py "__init__() got an unexpected keyword argument 'type'"))
          | None =>
              add_action p
                (mkAction names (Some d) KStoreTrue None
                   (Some match dflt with Some v => v | None => VBool false end)
                   positional None (kw_help kw) [])
          end
      end
  end.

(** [parser.set_defaults(k=v)] *)
Definition set_defaults (p : Parser) (k : pystr) (v : value) : Parser :=
  mkParser (prog p)
    (map (fun a =>
            match dest a with
            | Some d =>
                if pystr_eqb d k
                then mkAction (option_strings a) (dest a) (kind a) (type_ a)
                       (Some v) (required a) (choices a) (action_help a)
                       (subactions a)
                else a
            | None => a
            end) (actions p))
    (option_string_actions p)
    (dict_set k v (defaults p)).

(** The sub-parsers action of the top-level parser: [_name_parser_map] and
    [_choices_actions] (a name and its help per [add_parser] call). *)
Record SubParsers := mkSubParsers {
  name_parser_map : dict Parser;
  choices_actions : list (pystr * option pystr) }.

(** The sub-parsers action as an [Action]: a positional with
    [nargs=PARSER] whose choices are the registered names. *)
Definition subparsers_action (sp : SubParsers) : Action :=
  mkAction [] None KSubParsers None (Some VNone) false
           (Some (keys (name_parser_map sp))) None (choices_actions sp).

(** [subparsers.add_parser(name=name, prog=name, help=help)].  CPython
    3.11 and later refuse a name that is registered
    ([conflict_check = true]); earlier versions bind the name anew. *)
Definition add_parser (conflict_check : bool) (sp : SubParsers)
    (name : pystr) (help : option pystr) : SubParsers * result Parser :=
  if conflict_check && dict_has name (name_parser_map sp)
  then (sp, Raise (argument_error (subparsers_action sp)
                     (py "conflicting subparser: " ++ name)))
  else
    let parser := new_parser name in
    (mkSubParsers (dict_set name parser (name_parser_map sp))
                  (choices_actions sp ++ [(name, help)]),
     Ok parser).

(* ------------------------------------------------------------------ *)
(** *** Parsing: [parse_args] *)

Definition namespace := dict value.

(** [int(s)]: blanks around, a sign, decimal digits of any system with
    single underscores between them, and no more than 4300 digits.  [None]
    stands for [ValueError]. *)
Fixpoint digits_value (acc : Z) (after_digit : bool) (s : pystr) : option Z :=
  match s with
  | [] => if after_digit then Some acc else None
  | c :: s' =>
      match digit_value c with
      | Some d => digits_value (acc * 10 + Z.of_N d) true s'
      | None =>
          if N.eqb c 95 && after_digit
          then match s' with
               | d :: _ => if is_digit d then digits_value acc false s' else None
               | [] => None
               end
          else None
      end
  end.

(** The blanks [int] passes over: those of [str.isspace] but for the
    separators U+001C to U+001F. *)
Definition is_int_space (c : char) : bool :=
  is_space c && negb ((28 <=? c) && (c <=? 31))%N.

Fixpoint lstrip (s : pystr) : pystr :=
  match s with
  | c :: s' => if is_int_space c then lstrip s' else s
  | [] => []
  end.

Definition strip (s : pystr) : pystr := rev (lstrip (rev (lstrip s))).

(** [sys.get_int_max_str_digits()] *)
Definition int_max_str_digits : nat := 4300.

(** The digits of a numeral, counted as [int] counts them against the
    limit: underscores aside. *)
Definition count_digits (s : pystr) : nat := length (filter is_digit s).

Definition py_int (s : pystr) : option Z :=
  match strip s with
  | c :: s' =>
      let body := if N.eqb c 45 || N.eqb c 43 then s' else c :: s' in
      if Nat.ltb int_max_str_digits (count_digits body) then None
      else if N.eqb c 45 then option_map Z.opp (digits_value 0 false body)
           else digits_value 0 false body
  | [] => None
  end.

(** [_get_value] *)
Definition get_value (a : Action) (s : pystr) : result value :=
  match type_ a with
  | None | Some Tstr => Ok (VStr s)
  | Some Tint =>
      match py_int s with
      | Some z => Ok (VInt z)
      | None => Raise (argument_error a (py "invalid int value: " ++ repr_str s))
      end
  end.

(** [_check_value] *)
Definition check_value (a : Action) (s : pystr) : result unit :=
  match choices a with
  | Some cs =>
      if mem s cs then Ok tt
      else Raise (argument_error a
                    (py "invalid choice: " ++ repr_str s ++ py " (choose from "
                     ++ join (py ", ") (map repr_str cs) ++ py ")"))
  | None => Ok tt
  end.

(** [arg_strings.remove('--')], when there is one. *)
Fixpoint remove_first_ddash (l : list pystr) : list pystr :=
  match l with
  | [] => []
  | x :: l' => if pystr_eqb x (py "--") then l' else x :: remove_first_ddash l'
  end.

(** The letters of [arg_strings_pattern]: ['A'], ['O'] and ['-']. *)
Inductive sym := SA | SO | SD.

Fixpoint count_dashes (pat : list sym) : nat :=
  match pat with
  | SD :: pat' => S (count_dashes pat')
  | _ => 0
  end.

Fixpoint count_args_options (pat : list sym) : nat :=
  match pat with
  | SA :: pat' | SO :: pat' => S (count_args_options pat')
  | _ => 0
  end.

(** The length of what the pattern of [_get_nargs_pattern] matches at the
    head of [pat].  For [nargs=None]: dashes, one ['A'], dashes; for
    [nargs=0]: dashes; for [PARSER]: dashes, one ['A'], then whatever
    follows.  For an optional action the dashes are struck from the
    pattern.  Every starred part takes all it can, and giving some back
    never makes a later part match. *)
Definition nargs_match (a : Action) (pat : list sym) : option nat :=
  let optional := match option_strings a with [] => false | _ => true end in
  match kind a with
  | KStore =>
      if optional then match pat with SA :: _ => Some 1 | _ => None end
      else
        let n := count_dashes pat in
        match skipn n pat with
        | SA :: pat' => Some (n + 1 + count_dashes pat')
        | _ => None
        end
  | KStoreTrue | KHelp =>
      if optional then Some 0 else Some (count_dashes pat)
  | KSubParsers =>
      if optional
      then match pat with
           | SA :: pat' => Some (S (count_args_options pat'))
           | _ => None
           end
      else
        let n := count_dashes pat in
        match skipn n pat with
        | SA :: _ => Some (length pat)
        | _ => None
        end
  end.

(** What [_parse_optional] returns for an option: the index of the
    action ([None] when no option of the parser fits), the option string
    and the explicit argument. *)
Definition option_tuple := (option nat * pystr * option pystr)%type.

(** [s.split('=', 1)], when [s] has an ['=']. *)
Fixpoint split_eq (s : pystr) : option (pystr * pystr) :=
  match s with
  | [] => None
  | c :: s' =>
      if N.eqb c 61 then Some ([], s')
      else match split_eq s' with
           | Some (a, b) => Some (c :: a, b)
           | None => None
           end
  end.

(** [_negative_number_matcher], the pattern ['^-\d+$|^-\d*\.\d+$']: a dash
    and digits, or a dash, digits, a dot and one digit or more; [$] also
    matches before a line feed that ends the string. *)
Definition all_digits (s : pystr) : bool := forallb is_digit s.

Fixpoint chomp (s : pystr) : pystr :=
  match s with
  | [] => []
  | [c] => if N.eqb c 10 then [] else [c]
  | c :: s' => c :: chomp s'
  end.

Fixpoint drop_digits (s : pystr) : pystr :=
  match s with
  | c :: s' => if is_digit c then drop_digits s' else s
  | [] => []
  end.

Definition looks_negative (s : pystr) : bool :=
  match chomp s with
  | c :: s' =>
      is_dash c
      && (nonempty s' && all_digits s'
          || match drop_digits s' with
             | d :: frac => N.eqb d 46 && nonempty frac && all_digits frac
             | [] => false
             end)
  | [] => false
  end.

Section Parsing.

(** The parser at work, and what the sub-parsers action does with the
    values it is given once the name is checked: the help printed, and
    the namespace and the extras of [parser.parse_known_args]. *)
Context {formatter : Formatter}.
Variable p : Parser.
Variable call_sub :
  list pystr -> list pystr * result (namespace * list pystr).

Definition action_at (i : nat) : Action := nth i (actions p) help_action.

(** [_get_option_tuples] *)
Definition get_option_tuples (s : pystr) : list option_tuple :=
  match s with
  | c0 :: c1 :: rest =>
      if is_dash c1 then
        let '(prefix, explicit) :=
          match split_eq s with
          | Some (a, b) => (a, Some b)
          | None => (s, None)
          end in
        flat_map (fun kv : pystr * nat =>
                    if starts_with prefix (fst kv)
                    then [(Some (snd kv), fst kv, explicit)] else [])
                 (option_string_actions p)
      else
        flat_map (fun kv : pystr * nat =>
                    if pystr_eqb (fst kv) [c0; c1]
                    then [(Some (snd kv), fst kv, Some rest)]
                    else if starts_with s (fst kv)
                         then [(Some (snd kv), fst kv, None)] else [])
                 (option_string_actions p)
  | _ => []
  end.

(** [_parse_optional]: [None] for a positional argument. *)
Definition parse_optional (s : pystr) : result (option option_tuple) :=
  match s with
  | [] => Ok None
  | c :: rest =>
      if negb (is_dash c) then Ok None else
      match dict_get s (option_string_actions p) with
      | Some i => Ok (Some (Some i, s, None))
      | None =>
          match rest with
          | [] => Ok None
          | _ :: _ =>
              let by_eq :=
                match split_eq s with
                | Some (o, e) =>
                    match dict_get o (option_string_actions p) with
                    | Some i => Some (Some i, o, Some e)
                    | None => None
                    end
                | None => None
                end in
              match by_eq with
              | Some t => Ok (Some t)
              | None =>
                  match get_option_tuples s with
                  | (_ :: _ :: _) as ts =>
                      Raise (mkExn ArgumentParserError
                               (py "ambiguous option: " ++ s ++ py " could match "
                                ++ join (py ", ") (map (fun t : option_tuple => snd (fst t)) ts)))
                  | [t] => Ok (Some t)
                  | [] =>
                      if looks_negative s
                         && negb (existsb looks_negative (keys (option_string_actions p)))
                      then Ok None
                      else if existsb (N.eqb 32) s then Ok None
                      else Ok (Some (None, s, None))
                  end
              end
          end
      end
  end.

(** The first loop of [_parse_known_args]: the pattern, and the option
    tuple of every argument that is an option. *)
Fixpoint classify (args : list pystr)
  : result (list sym * list (option option_tuple)) :=
  match args with
  | [] => Ok ([], [])
  | a :: rest =>
      if pystr_eqb a (py "--")
      then Ok (SD :: map (fun _ => SA) rest, None :: map (fun _ => None) rest)
      else
        t <- parse_optional a ;;
        r <- classify rest ;;
        Ok (match t with None => SA | Some _ => SO end :: fst r, t :: snd r)
  end.

(** The state of [_parse_known_args]: the namespace, [seen_actions], the
    positionals still to parse, [extras], the extras a sub-parser left
    ([_UNRECOGNIZED_ARGS_ATTR]) and the parsers that printed their help. *)
Record pstate := mkPstate {
  ns : namespace;
  seen : list nat;
  positionals : list nat;
  extras : list pystr;
  sub_extras : list pystr;
  helps : list pystr }.

Definition set_ns (st : pstate) (n : namespace) : pstate :=
  mkPstate n (seen st) (positionals st) (extras st) (sub_extras st) (helps st).

Definition store_value (st : pstate) (a : Action) (v : value) : pstate :=
  match dest a with
  | Some d => set_ns st (dict_set d v (ns st))
  | None => st
  end.

(** [take_action]: [_get_values], then the action is called. *)
Definition take_action (st : pstate) (i : nat) (arg_strings : list pystr)
  : pstate * result unit :=
  let a := action_at i in
  let st := mkPstate (ns st) (i :: seen st) (positionals st) (extras st)
                     (sub_extras st) (helps st) in
  match kind a with
  | KStore =>
      match remove_first_ddash arg_strings with
      | [s] =>
          match get_value a s with
          | Ok v =>
              match check_value a s with
              | Ok _ => (store_value st a v, Ok tt)
              | Raise e => (st, Raise e)
              end
          | Raise e => (st, Raise e)
          end
      | _ => (store_value st a VNil, Ok tt)
      end
  | KStoreTrue => (store_value st a (VBool true), Ok tt)
  | KHelp =>
      match print_help p with
      | None =>
          (mkPstate (ns st) (seen st) (positionals st) (extras st)
                    (sub_extras st) (helps st ++ [prog p]), Ok tt)
      | Some e => (st, Raise e)
      end
  | KSubParsers =>
      match arg_strings with
      | [] => (st, Raise (mkExn IndexError (py "list index out of range")))
      | parser_name :: _ =>
          match check_value a parser_name with
          | Raise e => (st, Raise e)
          | Ok _ =>
              let '(hs, r) := call_sub arg_strings in
              let st := mkPstate (ns st) (seen st) (positionals st) (extras st)
                                 (sub_extras st) (helps st ++ hs) in
              match r with
              | Raise e => (st, Raise e)
              | Ok (subns, rest) =>
                  (mkPstate (fold_left (fun n kv => dict_set (fst kv) (snd kv) n)
                                       subns (ns st))
                            (seen st) (positionals st) (extras st)
                            (sub_extras st ++ rest) (helps st),
                   Ok tt)
              end
          end
      end
  end.

Fixpoint take_actions (st : pstate) (l : list (nat * list pystr))
  : pstate * result unit :=
  match l with
  | [] => (st, Ok tt)
  | (i, args) :: l' =>
      match take_action st i args with
      | (st', Ok _) => take_actions st' l'
      | (st', Raise e) => (st', Raise e)
      end
  end.

Variable arg_strings : list pystr.
Variable pattern : list sym.
Variable tuples : list (option option_tuple).

(** [_match_arguments_partial]: the longest run of leading positionals
    the pattern matches, each with the number of strings it takes. *)
Fixpoint match_partial (ps : list nat) (pat : list sym) : list nat :=
  match ps with
  | [] => []
  | i :: ps' =>
      match nargs_match (action_at i) pat with
      | Some n => n :: match_partial ps' (skipn n pat)
      | None => []
      end
  end.

Fixpoint slices (start : nat) (counts : list nat) (ps : list nat)
  : list (nat * list pystr) :=
  match counts, ps with
  | n :: counts', i :: ps' =>
      (i, firstn n (skipn start arg_strings)) :: slices (start + n) counts' ps'
  | _, _ => []
  end.

(** [consume_positionals] *)
Definition consume_positionals (st : pstate) (start : nat)
  : pstate * result nat :=
  let counts := match_partial (positionals st) (skipn start pattern) in
  let '(st', r) := take_actions st (slices start counts (positionals st)) in
  match r with
  | Raise e => (st', Raise e)
  | Ok _ =>
      (mkPstate (ns st') (seen st') (skipn (length counts) (positionals st'))
                (extras st') (sub_extras st') (helps st'),
       Ok (start + fold_left Nat.add counts 0))
  end.

(** The loop of [consume_optional] while there is an explicit argument
    [e]: the actions to take, in order, and the index where the option's
    strings stop. *)
Definition match_argument (a : Action) (pat : list sym) : result nat :=
  match nargs_match a pat with
  | Some n => Ok n
  | None =>
      Raise (argument_error a
               match kind a with
               | KStore => py "expected one argument"
               | KStoreTrue | KHelp => py "expected 0 arguments"
               | KSubParsers => py "expected A... argument"
               end)
  end.

Definition without_explicit (start i : nat) (acc : list (nat * list pystr))
  : result (list (nat * list pystr) * nat) :=
  n <- match_argument (action_at i) (skipn (S start) pattern) ;;
  Ok (acc ++ [(i, firstn n (skipn (S start) arg_strings))], S start + n).

Fixpoint with_explicit (start i : nat) (option_string e : pystr)
    (acc : list (nat * list pystr)) {struct e}
  : result (list (nat * list pystr) * nat) :=
  let a := action_at i in
  n <- match_argument a [SA] ;;
  match n with
  | 0 =>
      match option_string with
      | c0 :: c1 :: _ =>
          match e with
          | e0 :: e' =>
              if negb (is_dash c1) then
                match dict_get [c0; e0] (option_string_actions p) with
                | Some i' =>
                    match e' with
                    | [] => without_explicit start i' (acc ++ [(i, [])])
                    | _ :: _ => with_explicit start i' [c0; e0] e' (acc ++ [(i, [])])
                    end
                | None =>
                    Raise (argument_error a
                             (py "ignored explicit argument " ++ repr_str e))
                end
              else Raise (argument_error a
                            (py "ignored explicit argument " ++ repr_str e))
          | [] => Raise (argument_error a
                           (py "ignored explicit argument " ++ repr_str e))
          end
      | _ => Raise (mkExn IndexError (py "string index out of range"))
      end
  | 1 => Ok (acc ++ [(i, [e])], S start)
  | _ => Raise (argument_error a (py "ignored explicit argument " ++ repr_str e))
  end.

(** [consume_optional] *)
Definition consume_optional (st : pstate) (start : nat) : pstate * result nat :=
  match nth start tuples None with
  | None | Some (None, _, _) =>
      (mkPstate (ns st) (seen st) (positionals st)
                (extras st ++ firstn 1 (skipn start arg_strings))
                (sub_extras st) (helps st),
       Ok (S start))
  | Some (Some i, option_string, explicit) =>
      match match explicit with
            | Some e => with_explicit start i option_string e []
            | None => without_explicit start i []
            end with
      | Raise e => (st, Raise e)
      | Ok (todo, stop) =>
          match take_actions st todo with
          | (st', Ok _) => (st', Ok stop)
          | (st', Raise e) => (st', Raise e)
          end
      end
  end.

Definition is_option_at (i : nat) : bool :=
  match nth i tuples None with Some _ => true | None => false end.

(** The index of the first option at or after [start], counting up to
    [n] arguments. *)
Fixpoint next_option (n start : nat) : option nat :=
  match n with
  | O => None
  | S n' => if is_option_at start then Some start else next_option n' (S start)
  end.

(** The [while] loop of [_parse_known_args]; every turn moves
    [start_index] forward, so [length arg_strings + 1] turns are enough. *)
Fixpoint consume (fuel : nat) (st : pstate) (start : nat)
  : pstate * result nat :=
  match fuel with
  | O => (st, Ok start)
  | S fuel' =>
      match next_option (length arg_strings - start) start with
      | None => (st, Ok start)
      | Some next =>
          let go_optional st start :=
            let '(st, start) :=
              if is_option_at start then (st, start)
              else (mkPstate (ns st) (seen st) (positionals st)
                      (extras st ++ firstn (next - start) (skipn start arg_strings))
                      (sub_extras st) (helps st), next) in
            match consume_optional st start with
            | (st', Ok start') => consume fuel' st' start'
            | (st', Raise e) => (st', Raise e)
            end in
          if Nat.eqb start next then go_optional st start
          else
            match consume_positionals st start with
            | (st', Raise e) => (st', Raise e)
            | (st', Ok stop) =>
                if Nat.ltb start stop then consume fuel' st' stop
                else go_optional st' stop
            end
      end
  end.

End Parsing.

(** The end of [_parse_known_args]: the actions not seen, in the order of
    [_actions].  A required one is reported by name; a string default
    that still stands in the namespace is converted. *)
Fixpoint finish (seen : list nat) (i : nat) (l : list Action)
    (n : namespace) (missing : list pystr) : result namespace :=
  match l with
  | [] =>
      match missing with
      | [] => Ok n
      | _ => Raise (mkExn ArgumentParserError
                      (py "the following arguments are required: "
                       ++ join (py ", ") missing))
      end
  | a :: l' =>
      if existsb (Nat.eqb i) seen then finish seen (S i) l' n missing
      else if required a
      then finish seen (S i) l' n
             (missing ++ [match action_name_of a with Some s => s | None => [] end])
      else
        match default a, dest a with
        | Some (VStr s), Some d =>
            match dict_get d n with
            | Some (VStr s') =>
                if pystr_eqb s s'
                then match get_value a s with
                     | Ok v => finish seen (S i) l' (dict_set d v n) missing
                     | Raise e => Raise e
                     end
                else finish seen (S i) l' n missing
            | _ => finish seen (S i) l' n missing
            end
        | _, _ => finish seen (S i) l' n missing
        end
  end.

(** [self.error(str(err))] for an [ArgumentError]. *)
Definition as_parser_error (e : exn) : exn :=
  match exn_cls e with
  | ArgumentError => mkExn ArgumentParserError (exn_str e)
  | _ => e
  end.

(** The namespace [parse_known_args] starts from: the defaults of the
    actions, then the defaults of the parser, each only where the name is
    not yet set. *)
Definition initial_namespace (p : Parser) : namespace :=
  let n :=
    fold_left (fun n a =>
                 match dest a, default a with
                 | Some d, Some v => if dict_has d n then n else dict_set d v n
                 | _, _ => n
                 end) (actions p) [] in
  fold_left (fun n kv => if dict_has (fst kv) n then n else dict_set (fst kv) (snd kv) n)
            (defaults p) n.

Definition positional_indices (p : Parser) : list nat :=
  filter (fun i => match option_strings (nth i (actions p) help_action) with
                   | [] => true
                   | _ => false
                   end)
         (seq 0 (length (actions p))).

Section Evaluating.

Context {formatter : Formatter}.

(** What [_parse_known_args] does after its loop, and what
    [parse_known_args] makes of it: the positionals after the last
    option, the extras, the actions not seen. *)
Definition conclude (p : Parser)
    (call_sub : list pystr -> list pystr * result (namespace * list pystr))
    (args : list pystr) (pattern : list sym) (r : pstate * result nat)
  : list pystr * result (namespace * list pystr) :=
  match r with
  | (st, Raise e) => (helps st, Raise (as_parser_error e))
  | (st, Ok start) =>
      match consume_positionals p call_sub args pattern st start with
      | (st, Raise e) => (helps st, Raise (as_parser_error e))
      | (st, Ok stop) =>
          match finish (seen st) 0 (actions p) (ns st) [] with
          | Raise e => (helps st, Raise (as_parser_error e))
          | Ok n =>
              (helps st, Ok (n, extras st ++ skipn stop args ++ sub_extras st))
          end
      end
  end.

(** [parser.parse_known_args(args)]: the parsers that printed their help,
    and the namespace with the extras or the exception. *)
Definition parse_known_args (p : Parser)
    (call_sub : list pystr -> list pystr * result (namespace * list pystr))
    (args : list pystr) : list pystr * result (namespace * list pystr) :=
  match classify p args with
  | Raise e => ([], Raise (as_parser_error e))
  | Ok (pattern, tuples) =>
      let st0 := mkPstate (initial_namespace p) [] (positional_indices p) [] [] [] in
      conclude p call_sub args pattern
        (consume p call_sub args pattern tuples (S (length args)) st0 0)
  end.

(** A parser [add_parser] made has no sub-parsers action. *)
Definition no_sub (_ : list pystr) : list pystr * result (namespace * list pystr) :=
  ([], Raise (mkExn OtherException (py "no sub-parsers"))).

(** The top-level parser of the console:
    [ThrowingArgumentParser(prog='PROG')] after [add_subparsers()]. *)
Definition top_parser (sp : SubParsers) : Parser :=
  mkParser (py "PROG")
    [help_action; subparsers_action sp]
    [(py "-h", 0); (py "--help", 0)] [].

(** [_SubParsersAction.__call__] *)
Definition call_subparser (sp : SubParsers) (values : list pystr)
  : list pystr * result (namespace * list pystr) :=
  match values with
  | parser_name :: arg_strings =>
      match dict_get parser_name (name_parser_map sp) with
      | Some parser => parse_known_args parser no_sub arg_strings
      | None =>
          ([], Raise (mkExn ArgumentError
                        (py "unknown parser " ++ repr_str parser_name)))
      end
  | [] => ([], Raise (mkExn IndexError (py "list index out of range")))
  end.

(** What [parse_args] raises for a first token that is no registered
    name. *)
Definition invalid_choice (sp : SubParsers) (t : pystr) : exn :=
  mkExn ArgumentParserError
    (exn_str (argument_error (subparsers_action sp)
       (py "invalid choice: " ++ repr_str t ++ py " (choose from "
        ++ join (py ", ") (map repr_str (keys (name_parser_map sp))) ++ py ")"))).

(** [self.parser.parse_args(s)] *)
Definition parse_args (sp : SubParsers) (args : list pystr)
  : list pystr * result namespace :=
  match parse_known_args (top_parser sp) (call_subparser sp) args with
  | (hs, Raise e) => (hs, Raise e)
  | (hs, Ok (n, [])) => (hs, Ok n)
  | (hs, Ok (_, (_ :: _) as argv)) =>
      (hs, Raise (mkExn ArgumentParserError
                    (py "unrecognized arguments: " ++ join (py " ") argv)))
  end.

End Evaluating.

(** [b] is [a] with more at its end. *)
Definition extends (a b : list pystr) : Prop := exists t, b = a ++ t.

(** The help option of a parser: [m] is bound to one of its actions, and
    that action prints the help. *)
Definition help_bound (p : Parser) (m : pystr) : Prop :=
  exists i, dict_get m (option_string_actions p) = Some i
            /\ i < length (actions p)
            /\ kind (nth i (actions p) help_action) = KHelp.

(** A token that is no option: it does not begin with a dash. *)
Definition plain (s : pystr) : bool :=
  match s with
  | c :: _ => negb (is_dash c)
  | [] => true
  end.

(* ------------------------------------------------------------------ *)
(** *** Operands, conversions and what a command's parser returns *)

(** [dest.replace('-', '_')] *)
Definition underscored (s : pystr) : pystr :=
  map (fun c => if is_dash c then 95%N else c) s.

(** What [type=] makes of an argument string, when it takes it. *)
Definition convert (t : option pytype) (s : pystr) : option value :=
  match t with
  | None | Some Tstr => Some (VStr s)
  | Some Tint => option_map VInt (py_int s)
  end.

(** The strings of a line converted one by one, each by the [type] that
    stands at its place: [None] when there are more or fewer strings than
    types, or one of them is not taken. *)
Fixpoint convert_all (ts : list (option pytype)) (ws : list pystr)
  : option (list value) :=
  match ts, ws with
  | [], [] => Some []
  | t :: ts', w :: ws' =>
      match convert t w, convert_all ts' ws' with
      | Some v, Some vs => Some (v :: vs)
      | _, _ => None
      end
  | _, _ => None
  end.

(** An argument string that is no option: it does not begin with a dash,
    or it reads as a negative number. *)
Definition operand (s : pystr) : bool := plain s || looks_negative s.

(** [_option_string_actions] of a parser that has the help option and no
    other. *)
Definition help_options : dict nat := [(py "-h", 0); (py "--help", 0)].

(** An option string that no number, and nothing a number begins with,
    is taken for: its second character is no digit and no dot. *)
Definition no_number (k : pystr) : bool :=
  match k with
  | _ :: c :: _ => negb (is_digit c) && negb (N.eqb c 46)
  | _ => true
  end.

(** No option of the parser can be taken for a negative number. *)
Definition no_number_option (p : Parser) : bool :=
  forallb no_number (keys (option_string_actions p)).

(** [setattr(namespace, dest, v)], when the action has a [dest]. *)
Definition bind_dest (n : namespace) (a : Action) (v : value) : namespace :=
  match dest a with
  | Some d => dict_set d v n
  | None => n
  end.

(** A positional action with [nargs=None] and no [choices]. *)
Definition positional_store (a : Action) : Prop :=
  option_strings a = [] /\ kind a = KStore /\ choices a = None.

(** What [parse_args] of the console makes of what the parser of a
    command returns: the items of its namespace are set in the namespace
    of the console, and strings it left over are refused. *)
Definition command_result
    (r : list pystr * result (namespace * list pystr))
  : list pystr * result namespace :=
  match r with
  | (hs, Raise e) => (hs, Raise (as_parser_error e))
  | (hs, Ok (n, [])) =>
      (hs, Ok (fold_left (fun m kv => dict_set (fst kv) (snd kv) m) n []))
  | (hs, Ok (_, (_ :: _) as argv)) =>
      (hs, Raise (mkExn ArgumentParserError
                    (py "unrecognized arguments: " ++ join (py " ") argv)))
  end.

End ArgParse.

(* ================================================================== *)
(** ** [class QRConsole] *)
(* ================================================================== *)

Module Console.

Import ArgParse.

(** What the console does that can be seen. *)
Inductive event :=
| Prompt (s : pystr)            (* [input(s)] writes the prompt *)
| Printed (s : pystr)           (* [print(s)] *)
| Written (s : pystr)           (* [print(s, end='')] *)
| HelpPrinted (prog : pystr)    (* [print_help()] of the parser [prog] *)
| Called (r : ref) (args : list value).   (* the handler of [r] is called *)

(** What [input] does once the prompt is written: it gives a line, raises
    [EOFError] at the end of input, or raises [KeyboardInterrupt] when
    Ctrl-C is pressed. *)
Inductive input_result :=
| Line (s : pystr)
| EOF
| Interrupt.

(** [self.parser] and [self.subparsers] are one object graph: the
    top-level parser is fixed, the sub-parsers action holds what
    [add_command] registers. *)
Record QRConsole := mkConsole {
  subparsers : SubParsers;
  commands : list ref;
  hello : option pystr;
  throw_errors : bool }.

(** The evaluator of argument specs: what [self.parser.parse_args(s)]
    prints (the parsers whose help it shows) and returns or raises. *)
Definition evaluator := SubParsers -> list pystr -> list pystr * result namespace.

(** [__print_hello]: the greeting, when there is one and it is not
    empty, and the two lines that follow it. *)
Definition print_hello (hello : option pystr) : list event :=
  match hello with
  | Some ((_ :: _) as s) => [Printed s]
  | _ => []
  end
  ++ [Printed (py "Type '-h' or '--help' to get more info");
      Printed (py "Enter commands:")].

(** [QRConsole(hello, throw_errors)]: the console, and what its making
    prints. *)
Definition init (hello : option pystr) (throw_errors : bool)
  : QRConsole * list event :=
  (mkConsole (mkSubParsers [] []) [] hello throw_errors, print_hello hello).

Definition with_subparsers (c : QRConsole) (sp : SubParsers) : QRConsole :=
  mkConsole sp (commands c) (hello c) (throw_errors c).

(** The loop of [add_command] over [cmd.arguments.values()]. *)
Fixpoint add_arguments (p : Parser) (specs : list arg_spec) : Parser * result unit :=
  match specs with
  | [] => (p, Ok tt)
  | (args, kw) :: rest =>
      match ArgParse.add_argument p args kw with
      | Ok p' => add_arguments p' rest
      | Raise e => (p, Raise e)
      end
  end.

Definition bind_parser (c : QRConsole) (name : pystr) (p : Parser) : QRConsole :=
  with_subparsers c
    (mkSubParsers (dict_set name p (name_parser_map (subparsers c)))
                  (choices_actions (subparsers c))).

(** [add_command(cmd)].  The parser [add_parser] returns is the object
    the sub-parsers action holds under the name, so what is done to it
    shows there, also when a later step raises. *)
Definition add_command (conflict_check : bool) (h : heap) (c : QRConsole)
    (r : ref) : QRConsole * result unit :=
  match deref h r with
  | None => (c, Raise no_object)
  | Some cmd =>
      match func cmd with
      | None =>
          (c, Raise (mkExn Exception_
                       (py "command '" ++ name cmd ++ py "' has no function set!")))
      | Some _ =>
          match add_parser conflict_check (subparsers c) (name cmd) (help cmd) with
          | (sp, Raise e) => (with_subparsers c sp, Raise e)
          | (sp, Ok parser) =>
              let c := with_subparsers c sp in
              match add_arguments parser (values (arguments cmd)) with
              | (parser, Raise e) => (bind_parser c (name cmd) parser, Raise e)
              | (parser, Ok _) =>
                  let parser := set_defaults parser (py "func") (VFunc r) in
                  let c := bind_parser c (name cmd) parser in
                  (mkConsole (subparsers c) (commands c ++ [r]) (hello c)
                             (throw_errors c),
                   Ok tt)
              end
          end
      end
  end.

(** The [extract_args] of [add_command]:
    [[data.__dict__[arg] for arg in cmd.arguments.keys()]]. *)
Fixpoint bound_values (data : namespace) (names : list pystr) : result (list value) :=
  match names with
  | [] => Ok []
  | k :: rest =>
      match dict_get k data with
      | Some v => vs <- bound_values data rest ;; Ok (v :: vs)
      | None => Raise (mkExn KeyError (repr_str k))
      end
  end.

Definition not_callable (what : pystr) : exn :=
  mkExn TypeError (py "'" ++ what ++ py "' object is not callable").

(** [args.func(args)] *)
Definition call_func (h : heap) (args : namespace) : list event * result unit :=
  match dict_get (py "func") args with
  | Some (VFunc r) =>
      match deref h r with
      | None => ([], Raise no_object)
      | Some cmd =>
          match bound_values args (keys (arguments cmd)) with
          | Raise e => ([], Raise e)
          | Ok vs =>
              match func cmd with
              | None => ([], Raise (not_callable (py "NoneType")))
              | Some f =>
                  let '(lines, ex) := f vs in
                  (Called r vs :: map Printed lines,
                   match ex with Some e => Raise e | None => Ok tt end)
              end
          end
      end
  | Some VNone => ([], Raise (not_callable (py "NoneType")))
  | Some (VBool _) => ([], Raise (not_callable (py "bool")))
  | Some (VInt _) => ([], Raise (not_callable (py "int")))
  | Some (VStr _) => ([], Raise (not_callable (py "str")))
  | Some VNil => ([], Raise (not_callable (py "list")))
  | None => ([], Raise (mkExn OtherException (py "'Namespace' object has no attribute 'func'")))
  end.

(** [is_help] after the [try] block: [None] when the assignment was not
    reached. *)
Definition has_help (s : list pystr) : bool :=
  mem (py "-h") s || mem (py "--help") s.

(** The [try] block of [__read_line]. *)
Definition try_block (parse : evaluator) (h : heap) (c : QRConsole)
    (i : input_result) : list event * option bool * result unit :=
  let prompt := Prompt (py "?>") in
  match i with
  | EOF => ([prompt], None, Raise (mkExn EOFError (py "EOF when reading a line")))
  | Interrupt => ([prompt], None, Raise (mkExn KeyboardInterrupt []))
  | Line line =>
      match extract_args line with
      | Raise e => ([prompt], None, Raise e)
      | Ok s =>
          let is_help := has_help s in
          let '(helps, r) := parse (subparsers c) s in
          let evs := prompt :: map HelpPrinted helps in
          match r with
          | Raise e => (evs, Some is_help, Raise e)
          | Ok args =>
              if dict_has (py "func") args && negb is_help
              then let '(evs', r') := call_func h args in
                   (evs ++ evs', Some is_help, r')
              else (evs, Some is_help, Ok tt)
          end
      end
  end.

(** [Fore.RED] and [Style.RESET_ALL] of colorama. *)
Definition RED : pystr := [27; 91; 51; 49; 109]%N.
Definition RESET_ALL : pystr := [27; 91; 48; 109]%N.

(** How [__read_line] ends: it returns, it leaves through the
    [sys.exit(status)] of its [except] clause, or an exception that
    [except Exception] does not catch goes through it. *)
Inductive outcome :=
| Continue
| Exit (status : Z)
| Escape (ex : exn).

(** [not is_help] *)
Definition not_help (is_help : option bool) : bool :=
  match is_help with
  | Some true => false
  | _ => true
  end.

(** [print(Fore.RED + str(ex))] and [print(Style.RESET_ALL, end='')] *)
Definition error_report (ex : exn) : list event :=
  [Printed (RED ++ exn_str ex); Written RESET_ALL].

(** [__read_line]: the [try] block and its [except Exception] clause. *)
Definition read_line (parse : evaluator) (h : heap) (c : QRConsole)
    (i : input_result) : list event * outcome :=
  let '(evs, is_help, r) := try_block parse h c i in
  match r with
  | Ok _ => (evs, Continue)
  | Raise ex =>
      if is_exception ex then
        if not_help is_help
        then (evs ++ error_report ex,
              if throw_errors c then Exit 1 else Continue)
        else (evs, Continue)
      else (evs, Escape ex)
  end.

(** Where the loop of [run] stands once [input] has given [inputs]: about
    to read again, left through the [sys.exit] of [__read_line], or left
    by an exception that went through [__read_line]. *)
Inductive status :=
| Running
| Exited (status : Z)
| Escaped (ex : exn).

(** [run]: [while True: self.__read_line()] *)
Fixpoint run (parse : evaluator) (h : heap) (c : QRConsole)
    (inputs : list input_result) : list event * status :=
  match inputs with
  | [] => ([], Running)
  | i :: rest =>
      match read_line parse h c i with
      | (evs, Continue) =>
          let '(evs', st) := run parse h c rest in (evs ++ evs', st)
      | (evs, Exit code) => (evs, Exited code)
      | (evs, Escape ex) => (evs, Escaped ex)
      end
  end.

(** What the [try] block of a line raises, if anything, is an
    [Exception]: [except Exception] catches it. *)
Definition caught (parse : evaluator) (h : heap) (c : QRConsole)
    (i : input_result) : Prop :=
  forall evs ih e,
    try_block parse h c i = (evs, ih, Raise e) -> is_exception e = true.

(** How a line with a help marker ends: the loop goes on, unless the
    evaluator raised what is no [Exception]. *)
Definition help_outcome (r : result namespace) : outcome :=
  match r with
  | Ok _ => Continue
  | Raise e => if is_exception e then Continue else Escape e
  end.

(** A parser as [add_command] leaves it: it goes by the name it is
    registered under, and [-h] and [--help] are bound to its help. *)
Definition helpful (name : pystr) (p : Parser) : Prop :=
  prog p = name /\ help_bound p (py "-h") /\ help_bound p (py "--help").

Definition all_helpful (sp : SubParsers) : Prop :=
  forall name p, dict_get name (name_parser_map sp) = Some p -> helpful name p.

(** The consoles the constructor and [add_command] make, whatever the
    commands are and whether the calls return or raise. *)
Inductive built : QRConsole -> Prop :=
| built_init hello throw_errors : built (fst (init hello throw_errors))
| built_add_command conflict_check h c r :
    built c -> built (fst (add_command conflict_check h c r)).

(* ------------------------------------------------------------------ *)
(** *** What [run] reads, and commands with positional arguments *)

Definition is_prompt (e : event) : bool :=
  match e with Prompt _ => true | _ => false end.

(** The number of times the prompt was written. *)
Definition prompts (evs : list event) : nat := length (filter is_prompt evs).

(** The lines [run] reads before the loop is left: all of them, or those
    up to the first that ends the loop. *)
Fixpoint lines_read (parse : evaluator) (h : heap) (c : QRConsole)
    (inputs : list input_result) : nat :=
  match inputs with
  | [] => 0
  | i :: rest =>
      match snd (read_line parse h c i) with
      | Continue => S (lines_read parse h c rest)
      | Exit _ | Escape _ => 1
      end
  end.

(** An entry of [cmd.arguments] as [QRCommand.add_argument] makes it for
    a positional argument with no further names: filed under the name,
    with the name alone.  The name is not the [func] that [add_command]
    sets, and the action is the default one. *)
Definition positional_spec (kv : pystr * arg_spec) : bool :=
  match fst (snd kv) with
  | [n] => pystr_eqb n (fst kv)
  | _ => false
  end
  && nonempty (fst kv) && plain (fst kv) && negb (pystr_eqb (fst kv) (py "func"))
  && match kw_action (snd (snd kv)) with
     | Some store_true => false
     | _ => true
     end.

(** The action [parser.add_argument] makes of such an entry. *)
Definition positional_action (kv : pystr * arg_spec) : Action :=
  mkAction [] (Some (fst kv)) KStore (kw_type (snd (snd kv)))
    (Some match kw_default (snd (snd kv)) with Some v => v | None => VNone end)
    true None (kw_help (snd (snd kv))) [].

(** The parser [add_command] binds the name of a command to when its
    arguments register. *)
Definition command_parser (cmd : QRCommand) (r : ref) : Parser :=
  set_defaults
    (fst (add_arguments (new_parser (name cmd)) (values (arguments cmd))))
    (py "func") (VFunc r).

End Console.

(* ================================================================== *)
(** ** The console of the module's [__main__] block *)
(* ================================================================== *)

Module Main.

Import ArgParse Console.

(** The decimal numeral of [z], with a dash before it when [z] is
    negative. *)
Definition str_of_Z (z : Z) : pystr := py (NilZero.string_of_int (Z.to_int z)).

(** The number of digits of the numeral. *)
Definition digits_of (z : Z) : nat := length (str_of_Z (Z.abs z)).

Definition too_many_digits : exn :=
  mkExn ValueError
    (py "Exceeds the limit (4300 digits) for integer string conversion; use sys.set_int_max_str_digits() to increase the limit").

(** [str(z)] for an [int]: the numeral, when it has no more than 4300
    digits. *)
Definition str_int (z : Z) : result pystr :=
  if Nat.ltb int_max_str_digits (digits_of z) then Raise too_many_digits
  else Ok (str_of_Z z).

(** What [print(z)] in a handler leaves on a console that goes on after
    an error: the numeral, or the report of what [str] raised. *)
Definition int_printed (z : Z) : list event :=
  match str_int z with
  | Ok s => [Printed s]
  | Raise e => error_report e
  end.

(** [type(v).__name__] *)
Definition type_name (v : value) : pystr :=
  match v with
  | VNone => py "NoneType"
  | VBool _ => py "bool"
  | VInt _ => py "int"
  | VStr _ => py "str"
  | VNil => py "list"
  | VFunc _ => py "function"
  end.

(** The integer a value is in arithmetic: an [int], or a [bool]. *)
Definition as_int (v : value) : option Z :=
  match v with
  | VInt z => Some z
  | VBool b => Some (if b then 1 else 0)%Z
  | _ => None
  end.

Definition unsupported (op : pystr) (a b : value) : exn :=
  mkExn TypeError
    (py "unsupported operand type(s) for " ++ op ++ py ": '" ++ type_name a
     ++ py "' and '" ++ type_name b ++ py "'").

Definition cannot_concatenate (what : pystr) (b : value) : exn :=
  mkExn TypeError
    (py "can only concatenate " ++ what ++ py " (not " ++ [34%N] ++ type_name b
     ++ [34%N] ++ py ") to " ++ what).

(** [a + b] *)
Definition py_add (a b : value) : result value :=
  match as_int a, as_int b with
  | Some x, Some y => Ok (VInt (x + y))
  | _, _ =>
      match a, b with
      | VStr s, VStr s' => Ok (VStr (s ++ s'))
      | VStr _, _ => Raise (cannot_concatenate (py "str") b)
      | VNil, VNil => Ok VNil
      | VNil, _ => Raise (cannot_concatenate (py "list") b)
      | _, _ => Raise (unsupported (py "+") a b)
      end
  end.

(** [a - b] *)
Definition py_sub (a b : value) : result value :=
  match as_int a, as_int b with
  | Some x, Some y => Ok (VInt (x - y))
  | _, _ => Raise (unsupported (py "-") a b)
  end.

(** [bool(v)] *)
Definition truthy (v : value) : bool :=
  match v with
  | VNone | VNil => false
  | VBool b => b
  | VInt z => negb (Z.eqb z 0)
  | VStr s => nonempty s
  | VFunc _ => true
  end.

(** [print(v)] for what the handlers of the [__main__] block compute: the
    line printed, or what [str] raises.  The text of a function holds its
    address, which is left out; no handler of this file is given one. *)
Definition print_value (v : value) : list pystr * option exn :=
  match v with
  | VNone => ([py "None"], None)
  | VBool b => ([if b then py "True" else py "False"], None)
  | VInt z =>
      match str_int z with
      | Ok s => ([s], None)
      | Raise e => ([], Some e)
      end
  | VStr s => ([s], None)
  | VNil => ([py "[]"], None)
  | VFunc _ => ([py "<function>"], None)
  end.

Definition print_result (r : result value) : list pystr * option exn :=
  match r with
  | Ok v => print_value v
  | Raise e => ([], Some e)
  end.

(** What calling a [lambda] of two parameters [x] and [y] with another
    number of arguments raises. *)
Definition wrong_arity (x y : pystr) (n : nat) : exn :=
  mkExn TypeError
    match n with
    | 0 => py "<lambda>() missing 2 required positional arguments: '" ++ x
           ++ py "' and '" ++ y ++ py "'"
    | 1 => py "<lambda>() missing 1 required positional argument: '" ++ y ++ py "'"
    | _ => py "<lambda>() takes 2 positional arguments but "
           ++ str_of_Z (Z.of_nat n) ++ py " were given"
    end.

(** [lambda a, b: print(a + b)] *)
Definition add_func : handler := fun vs =>
  match vs with
  | [a; b] => print_result (py_add a b)
  | _ => ([], Some (wrong_arity (py "a") (py "b") (length vs)))
  end.

(** [lambda a, b: print(a - b)] *)
Definition sub_func : handler := fun vs =>
  match vs with
  | [a; b] => print_result (py_sub a b)
  | _ => ([], Some (wrong_arity (py "a") (py "b") (length vs)))
  end.

(** [lambda v, i: print(v + 1 if i else v - 1)] *)
Definition one_func : handler := fun vs =>
  match vs with
  | [v; i] =>
      print_result (if truthy i then py_add v (VInt 1) else py_sub v (VInt 1))
  | _ => ([], Some (wrong_arity (py "v") (py "i") (length vs)))
  end.

(** Method chaining: the next call is made on the object the last one
    returned. *)
Definition chain (st : heap * result ref) (f : heap -> ref -> heap * result ref)
  : heap * result ref :=
  match st with
  | (h, Ok r) => f h r
  | (h, Raise e) => (h, Raise e)
  end.

Definition created (st : heap * ref) : heap * result ref := (fst st, Ok (snd st)).

Definition kw (t : option pytype) (d : option value) (a : option action_name)
    (hl : option pystr) : kwargs := mkKwargs t d a hl.

Definition add_cmd (h : heap) : heap * result ref :=
  chain (chain (created (new h (py "add") (Some add_func) (Some (py "sum 2 integers"))))
    (fun h r => Command.add_argument h r (py "a") []
                  (kw (Some Tint) None None (Some (py "1st arg")))))
    (fun h r => Command.add_argument h r (py "b") []
                  (kw (Some Tint) None None (Some (py "2nd arg")))).

Definition sub_cmd (h : heap) : heap * result ref :=
  chain (chain (created (new h (py "sub") (Some sub_func) (Some (py "differ 2 integers"))))
    (fun h r => Command.add_argument h r (py "-a") []
                  (kw (Some Tint) (Some (VInt 0)) None (Some (py "1st arg")))))
    (fun h r => Command.add_argument h r (py "--value") [py "-v"]
                  (kw (Some Tint) None None (Some (py "2nd arg")))).

Definition one_cmd (h : heap) : heap * result ref :=
  chain (chain (created (new h (py "one") (Some one_func) (Some (py "change value by 1"))))
    (fun h r => Command.add_argument h r (py "v") []
                  (kw (Some Tint) None None None)))
    (fun h r => Command.add_argument h r (py "-i") [py "--flag"]
                  (kw None None (Some store_true)
                      (Some (py "set to inc; default is dec")))).

(** [console.add_command(cmd)] for the command an expression built. *)
Definition register (conflict_check : bool)
    (build : heap -> heap * result ref) (st : heap * QRConsole)
  : heap * QRConsole :=
  match build (fst st) with
  | (h, Ok r) => (h, fst (add_command conflict_check h (snd st) r))
  | (h, Raise _) => (h, snd st)
  end.

(** The heap and the console when [console.run()] is reached. *)
Definition main_state (conflict_check : bool) : heap * QRConsole :=
  register conflict_check one_cmd
    (register conflict_check sub_cmd
       (register conflict_check add_cmd
          ([], fst (init (Some (py "hello")) false)))).

Definition main_heap : heap := fst (main_state false).
Definition main_console : QRConsole := snd (main_state false).

(** A second command named [add], as a host could register it:
    [QRCommand('add', lambda a, b: print(a - b))] with the arguments of
    the first. *)
Definition other_add_cmd (h : heap) : heap * result ref :=
  chain (chain (created (new h (py "add") (Some sub_func) None))
    (fun h r => Command.add_argument h r (py "a") [] (kw (Some Tint) None None None)))
    (fun h r => Command.add_argument h r (py "b") [] (kw (Some Tint) None None None)).

(** A command built without a function: [QRCommand('nop')]. *)
Definition nop_cmd (h : heap) : heap * result ref :=
  created (new h (py "nop") None None).

(** A command with an argument named as the help option:
    [QRCommand('shadow', f).add_argument('-h', action='store_true')]. *)
Definition shadow_cmd (h : heap) : heap * result ref :=
  chain (created (new h (py "shadow") (Some add_func) None))
    (fun h r => Command.add_argument h r (py "-h") []
                  (kw None None (Some store_true) None)).

(** [lambda my_opt: print(my_opt)] *)
Definition echo_func : handler := fun vs =>
  match vs with
  | [v] => print_value v
  | [] => ([], Some (mkExn TypeError
                      (py "<lambda>() missing 1 required positional argument: 'my_opt'")))
  | _ => ([], Some (mkExn TypeError
                      (py "<lambda>() takes 1 positional argument but "
                       ++ str_of_Z (Z.of_nat (length vs)) ++ py " were given")))
  end.

(** A command with a hyphen in an argument name:
    [QRCommand('greet', echo).add_argument('--my-opt')]. *)
Definition greet_cmd (h : heap) : heap * result ref :=
  chain (created (new h (py "greet") (Some echo_func) None))
    (fun h r => Command.add_argument h r (py "--my-opt") []
                  (kw None None None None)).

(** [lambda: sys.exit(0)] *)
Definition quit_func : handler := fun vs =>
  match vs with
  | [] => ([], Some (mkExn SystemExit (py "0")))
  | [_] => ([], Some (mkExn TypeError
                        (py "<lambda>() takes 0 positional arguments but 1 was given")))
  | _ => ([], Some (mkExn TypeError
                      (py "<lambda>() takes 0 positional arguments but "
                       ++ str_of_Z (Z.of_nat (length vs)) ++ py " were given")))
  end.

(** A command that ends the session, as a host could register it:
    [QRCommand('quit', lambda: sys.exit(0))]. *)
Definition quit_cmd (h : heap) : heap * result ref :=
  created (new h (py "quit") (Some quit_func) None).

(** The heap and the console of the [__main__] block with [quit]
    registered as well. *)
Definition quit_state : heap * QRConsole := register false quit_cmd (main_state false).
Definition quit_heap : heap := fst quit_state.
Definition quit_console : QRConsole := snd quit_state.

(** A command whose help text holds a stray [%]:
    [QRCommand('sale', echo, '50% off').add_argument('n', type=int)]. *)
Definition sale_cmd (h : heap) : heap * result ref :=
  chain (created (new h (py "sale") (Some echo_func) (Some (py "50% off"))))
    (fun h r => Command.add_argument h r (py "n") [] (kw (Some Tint) None None None)).

Definition sale_state : heap * QRConsole := register false sale_cmd (main_state false).
Definition sale_heap : heap := fst sale_state.
Definition sale_console : QRConsole := snd sale_state.

(** The formatter on that console: the help of the shell lists the
    commands with their help texts, and [%] raises on [50% off]; the help
    of a command is printed. *)
Definition sale_formatter : Formatter := fun p =>
  if pystr_eqb (prog p) (py "PROG")
  then Some (mkExn TypeError (py "%o format: an integer is required, not dict"))
  else None.

(** The same console made with [throw_errors=True]. *)
Definition throwing (c : QRConsole) : QRConsole :=
  mkConsole (subparsers c) (commands c) (hello c) true.

(** The number a run of decimal digits stands for, read after [acc]. *)
Fixpoint uint_value (acc : Z) (d : Decimal.uint) : Z :=
  match d with
  | Decimal.Nil => acc
  | Decimal.D0 l => uint_value (acc * 10 + 0) l
  | Decimal.D1 l => uint_value (acc * 10 + 1) l
  | Decimal.D2 l => uint_value (acc * 10 + 2) l
  | Decimal.D3 l => uint_value (acc * 10 + 3) l
  | Decimal.D4 l => uint_value (acc * 10 + 4) l
  | Decimal.D5 l => uint_value (acc * 10 + 5) l
  | Decimal.D6 l => uint_value (acc * 10 + 6) l
  | Decimal.D7 l => uint_value (acc * 10 + 7) l
  | Decimal.D8 l => uint_value (acc * 10 + 8) l
  | Decimal.D9 l => uint_value (acc * 10 + 9) l
  end.

(** The command objects of [add], [sub] and [one] when [console.run()] is
    reached. *)
Definition add_object : QRCommand :=
  mkCommand (py "add") (Some (py "sum 2 integers"))
    [(py "a", ([py "a"], kw (Some Tint) None None (Some (py "1st arg"))));
     (py "b", ([py "b"], kw (Some Tint) None None (Some (py "2nd arg"))))]
    (Some add_func).

Definition sub_object : QRCommand :=
  mkCommand (py "sub") (Some (py "differ 2 integers"))
    [(py "a", ([py "-a"; py "-a"; py "--a"],
               kw (Some Tint) (Some (VInt 0)) None (Some (py "1st arg"))));
     (py "value", ([py "--value"; py "-value"; py "--value"; py "-v"],
                   kw (Some Tint) None None (Some (py "2nd arg"))))]
    (Some sub_func).

Definition one_object : QRCommand :=
  mkCommand (py "one") (Some (py "change value by 1"))
    [(py "v", ([py "v"], kw (Some Tint) None None None));
     (py "i", ([py "-i"; py "-i"; py "--i"; py "--flag"],
               kw None None (Some store_true)
                  (Some (py "set to inc; default is dec"))))]
    (Some one_func).

(** The parsers [add_command] made for [sub] and [one]. *)
Definition sub_parser : Parser := command_parser sub_object 1.
Definition one_parser : Parser := command_parser one_object 2.

End Main.

(* ================================================================== *)
(* ================================================================== *)
(** * Facts *)
(* ================================================================== *)
(* ================================================================== *)

Import ArgParse Console Main.

(* ================================================================== *)
(** ** Facts about Python strings *)
(* ================================================================== *)

Section PyStrFacts.

Lemma pystr_eqb_refl a : pystr_eqb a a = true.
Proof. induction a; simpl; [reflexivity | now rewrite N.eqb_refl]. Qed.

Lemma pystr_eqb_eq a b : pystr_eqb a b = true <-> a = b.
Proof.
  split; [| intros ->; apply pystr_eqb_refl].
  revert b; induction a as [|x a IH]; destruct b as [|y b]; simpl; try easy.
  intros H; apply andb_true_iff in H as [Hx Hab].
  apply N.eqb_eq in Hx; f_equal; auto.
Qed.

Lemma pystr_eqb_neq a b : pystr_eqb a b = false <-> a <> b.
Proof.
  destruct (pystr_eqb a b) eqn:E.
  - apply pystr_eqb_eq in E; split; [discriminate | contradiction].
  - split; [| reflexivity]. intros _ ->. now rewrite pystr_eqb_refl in E.
Qed.

Lemma starts_with_app p s : starts_with p (p ++ s) = true.
Proof. induction p; simpl; [reflexivity | now rewrite N.eqb_refl]. Qed.

Lemma starts_with_inv p s : starts_with p s = true -> exists y, s = p ++ y.
Proof.
  revert s; induction p as [|x p IH]; intros s H; simpl in *.
  - now exists s.
  - destruct s as [|c s]; [discriminate|].
    apply andb_true_iff in H as [Hx Hp]. apply N.eqb_eq in Hx; subst c.
    destruct (IH _ Hp) as [y ->]. now exists y.
Qed.

Lemma replace_from_skip old new p s :
  replace_from old new (length p) (p ++ s) = replace_from old new 0 s.
Proof. induction p; simpl; auto. Qed.

Lemma replace_from_hit old new s :
  old <> [] ->
  replace_from old new 0 (old ++ s) = new ++ replace_from old new 0 s.
Proof.
  destruct old as [|x old]; [easy | intros _].
  change ((x :: old) ++ s) with (x :: (old ++ s)).
  cbn [replace_from].
  change (x :: old ++ s) with ((x :: old) ++ s).
  rewrite starts_with_app.
  replace (length (x :: old) - 1) with (length old) by (simpl; lia).
  now rewrite replace_from_skip.
Qed.

Lemma replace_from_pass x old new pre s :
  Forall (fun c => c <> x) pre ->
  replace_from (x :: old) new 0 (pre ++ s)
  = pre ++ replace_from (x :: old) new 0 s.
Proof.
  induction 1 as [|c pre Hc _ IH]; [reflexivity|].
  change ((c :: pre) ++ s) with (c :: (pre ++ s)).
  cbn [replace_from starts_with].
  apply N.eqb_neq in Hc. rewrite N.eqb_sym in Hc. rewrite Hc.
  cbn [andb app]. now rewrite IH.
Qed.

Lemma replace_from_miss old new c s :
  starts_with old (c :: s) = false ->
  replace_from old new 0 (c :: s) = c :: replace_from old new 0 s.
Proof. intros H. cbn [replace_from]. now rewrite H. Qed.

Lemma split_from_word cur w s :
  forallb (fun c => negb (is_space c)) w = true ->
  split_from cur (w ++ s) = split_from (cur ++ w) s.
Proof.
  revert cur; induction w as [|c w IH]; intros cur H; simpl in *.
  - now rewrite app_nil_r.
  - apply andb_true_iff in H as [Hc Hw].
    apply negb_true_iff in Hc. rewrite Hc.
    rewrite IH by assumption. now rewrite <- app_assoc.
Qed.

Lemma split_from_blank sp s :
  forallb is_space sp = true ->
  split_from [] (sp ++ s) = split_from [] s.
Proof.
  induction sp as [|c sp IH]; intros H; simpl in *; [reflexivity|].
  apply andb_true_iff in H as [Hc Hsp]. rewrite Hc. auto.
Qed.

Lemma split_from_close cur sp s :
  cur <> [] -> sp <> [] -> forallb is_space sp = true ->
  split_from cur (sp ++ s) = cur :: split_from [] s.
Proof.
  intros Hcur Hne H. destruct sp as [|c sp]; [easy|].
  simpl in *. apply andb_true_iff in H as [Hc Hsp]. rewrite Hc.
  destruct cur; [easy|]. f_equal. now apply split_from_blank.
Qed.

Lemma split_from_end cur sp :
  cur <> [] -> forallb is_space sp = true ->
  split_from cur sp = [cur].
Proof.
  intros Hcur H. destruct sp as [|c sp].
  - simpl. now destruct cur.
  - rewrite <- (app_nil_r (c :: sp)).
    rewrite split_from_close by (assumption || easy).
    reflexivity.
Qed.

End PyStrFacts.

(* ================================================================== *)
(** ** Facts about the tokenizer *)
(* ================================================================== *)

Section TokenizerFacts.

Local Ltac bool_arith :=
  repeat match goal with
    | H : _ || _ = true |- _ => apply orb_true_iff in H as [H | H]
    | H : _ && _ = true |- _ => apply andb_true_iff in H as [? H]
    | H : (_ <=? _)%N = true |- _ => apply N.leb_le in H
    | H : (_ =? _)%N = true |- _ => apply N.eqb_eq in H
    end; try lia.

Lemma class_not_dq c : in_class c = true -> c <> dq.
Proof. intros H ->. discriminate H. Qed.

Lemma space_not_dq c : is_space c = true -> c <> dq.
Proof. intros H ->. discriminate H. Qed.

Lemma class_space c : in_class c = true -> is_space c = true -> c = 32%N.
Proof. unfold in_class, is_space. intros H1 H2. bool_arith. Qed.


Lemma dq_free_class s : forallb in_class s = true -> dq_free s.
Proof.
  intros H. apply Forall_forall. intros c Hc.
  apply class_not_dq. now apply (proj1 (forallb_forall _ _) H).
Qed.

Lemma dq_free_blank s : blank s = true -> dq_free s.
Proof.
  intros H. apply Forall_forall. intros c Hc.
  apply space_not_dq. now apply (proj1 (forallb_forall _ _) H).
Qed.

Lemma dq_free_word w : plain_word w = true -> dq_free w.
Proof.
  unfold plain_word. intros H. apply andb_true_iff in H as [_ H].
  apply Forall_forall. intros c Hc.
  apply (proj1 (forallb_forall _ _) H) in Hc.
  apply andb_true_iff in Hc as [_ Hc]. apply negb_true_iff in Hc.
  now apply N.eqb_neq.
Qed.

Lemma plain_word_no_space w :
  plain_word w = true -> forallb (fun c => negb (is_space c)) w = true.
Proof.
  unfold plain_word. intros H. apply andb_true_iff in H as [_ H].
  apply forallb_forall. intros c Hc.
  apply (proj1 (forallb_forall _ _) H) in Hc.
  now apply andb_true_iff in Hc as [Hc _].
Qed.

Lemma plain_word_nonempty w : plain_word w = true -> w <> [].
Proof. destruct w; [discriminate | easy]. Qed.

Lemma nonempty_true s : nonempty s = true -> s <> [].
Proof. destruct s; [discriminate | easy]. Qed.

Lemma span_ok_nonempty c : span_ok c = true -> c <> [].
Proof. destruct c; [discriminate | easy]. Qed.

Lemma span_ok_class c : span_ok c = true -> forallb in_class c = true.
Proof.
  unfold span_ok. intros H.
  apply andb_true_iff in H as [H _]. now apply andb_true_iff in H as [_ H].
Qed.

Lemma span_ok_ends c :
  span_ok c = true -> hd 0%N c = 32%N -> last c 0%N = 32%N -> False.
Proof.
  unfold span_ok. intros H H1 H2.
  apply andb_true_iff in H as [_ H]. rewrite H1, H2 in H. discriminate.
Qed.

Lemma quote_app c rest : quote c ++ rest = dq :: c ++ dq :: rest.
Proof. unfold quote. cbn [app]. now rewrite <- app_assoc. Qed.

Lemma slice_quote c : slice_1_m1 (quote c) = c.
Proof. unfold slice_1_m1, quote. cbn [tl]. apply removelast_last. Qed.

(** Where the first double quote stands decides how a text splits. *)
Lemma first_quote_prefix a b x y :
  dq_free a -> dq_free x -> a ++ b = x ++ dq :: y ->
  exists b', x = a ++ b' /\ b = b' ++ dq :: y.
Proof.
  intros Ha; revert x; induction Ha as [|c a Hc Ha IH]; intros x Hx E.
  - now exists x.
  - destruct x as [|c' x]; cbn in E.
    + injection E as E _. contradiction.
    + injection E as -> E. inversion Hx; subst.
      destruct (IH x ltac:(assumption) E) as [b' [-> ->]]. now exists b'.
Qed.

Lemma first_quote_unique a b x y :
  dq_free a -> dq_free x -> a ++ dq :: b = x ++ dq :: y -> a = x /\ b = y.
Proof.
  intros Ha Hx E.
  destruct (first_quote_prefix a (dq :: b) x y Ha Hx E) as [b' [-> E']].
  destruct b' as [|c b'].
  - cbn in E'. injection E' as ->. now rewrite app_nil_r.
  - cbn in E'. injection E' as E' _.
    apply Forall_app in Hx as [_ Hx]. inversion Hx; subst. congruence.
Qed.

Lemma findall_from_skip p s :
  findall_from (length p) (p ++ s) = findall_from 0 s.
Proof. induction p; simpl; auto. Qed.

Lemma findall_from_pass pre s :
  dq_free pre -> findall_from 0 (pre ++ s) = findall_from 0 s.
Proof.
  induction 1 as [|c pre Hc _ IH]; [reflexivity|].
  change ((c :: pre) ++ s) with (c :: (pre ++ s)).
  cbn [findall_from match_here].
  apply N.eqb_neq in Hc. now rewrite Hc.
Qed.

Lemma span_class_stop c rest :
  forallb in_class c = true -> span_class (c ++ dq :: rest) = (c, dq :: rest).
Proof.
  induction c as [|x c IH]; intros H; [reflexivity|].
  cbn in H. apply andb_true_iff in H as [Hx Hc].
  cbn [app span_class]. rewrite Hx, (IH Hc). reflexivity.
Qed.

Lemma findall_from_span c rest :
  c <> [] -> forallb in_class c = true ->
  findall_from 0 (quote c ++ rest) = c :: findall_from 0 rest.
Proof.
  intros Hne Hc. rewrite quote_app.
  cbn [findall_from match_here]. rewrite N.eqb_refl.
  rewrite (span_class_stop c rest Hc). destruct c as [|x c]; [easy|].
  rewrite N.eqb_refl. f_equal.
  replace (S (length (x :: c))) with (length ((x :: c) ++ [dq]))
    by (rewrite length_app; simpl; lia).
  replace ((x :: c) ++ dq :: rest) with (((x :: c) ++ [dq]) ++ rest)
    by (now rewrite <- app_assoc).
  apply findall_from_skip.
Qed.

(* ------------------------------------------------------------------ *)
(** *** The line as [render] writes it *)






Lemma entry_ok_inv strict sp it :
  entry_ok strict (sp, it) = true ->
  blank sp = true /\ (strict = true -> sp <> []) /\ item_ok it = true.
Proof.
  unfold entry_ok; cbn [fst snd]. intros H.
  apply andb_true_iff in H as [H Hit]. apply andb_true_iff in H as [Hb Hs].
  repeat split; auto. intros ->. cbn in Hs. now apply nonempty_true.
Qed.

Lemma entry_ok_weaken p : entry_ok true p = true -> entry_ok false p = true.
Proof.
  unfold entry_ok. intros H.
  apply andb_true_iff in H as [H Hit]. apply andb_true_iff in H as [Hb _].
  now rewrite Hb, Hit.
Qed.

Lemma tail_ok_head_ok l : tail_ok l = true -> head_ok l = true.
Proof.
  destruct l as [|p l]; [reflexivity|].
  unfold tail_ok, head_ok. cbn [forallb]. intros H.
  apply andb_true_iff in H as [Hp Hl].
  apply andb_true_iff; split; [now apply entry_ok_weaken | exact Hl].
Qed.

Lemma head_ok_inv sp it l :
  head_ok ((sp, it) :: l) = true ->
  blank sp = true /\ item_ok it = true /\ tail_ok l = true.
Proof.
  cbn [head_ok]. intros H. apply andb_true_iff in H as [Hp Hl].
  apply entry_ok_inv in Hp as (? & _ & ?). auto.
Qed.

Lemma line_ok_inv l trail :
  line_ok l trail = true -> head_ok l = true /\ blank trail = true.
Proof. unfold line_ok, head_ok. intros H. now apply andb_true_iff in H. Qed.

(** What follows an item is empty or starts with a blank. *)
Lemma render_starts_blank l trail c s :
  tail_ok l = true -> blank trail = true ->
  render l trail = c :: s -> is_space c = true.
Proof.
  destruct l as [|[sp it] l]; cbn [render]; intros Hl Ht E.
  - subst trail. cbn in Ht. now apply andb_true_iff in Ht as [Ht _].
  - unfold tail_ok in Hl. cbn [forallb] in Hl.
    apply andb_true_iff in Hl as [Hp _].
    apply entry_ok_inv in Hp as (Hb & Hne & _).
    destruct sp as [|c' sp]; [now specialize (Hne eq_refl)|].
    cbn in E. injection E as -> _.
    cbn in Hb. now apply andb_true_iff in Hb as [Hb _].
Qed.

(** The text before the first double quote of what follows an item ends
    with a blank. *)
Lemma gap_ends_blank l trail x y :
  tail_ok l = true -> blank trail = true -> dq_free x ->
  render l trail = x ++ dq :: y ->
  exists x0 c, x = x0 ++ [c] /\ is_space c = true.
Proof.
  revert x; induction l as [|[sp it] l IH]; cbn [render]; intros x Hl Ht Hx E.
  - exfalso. apply dq_free_blank in Ht. subst trail.
    apply Forall_app in Ht as [_ Ht]. inversion Ht; subst. congruence.
  - unfold tail_ok in Hl. cbn [forallb] in Hl.
    apply andb_true_iff in Hl as [Hp Hl].
    apply entry_ok_inv in Hp as (Hb & Hne & Hit). specialize (Hne eq_refl).
    destruct (first_quote_prefix sp _ x y (dq_free_blank sp Hb) Hx E)
      as [x1 [-> E1]].
    apply Forall_app in Hx as [_ Hx1].
    destruct it as [w | d]; cbn [item_text] in E1.
    + cbn in Hit.
      destruct (first_quote_prefix w _ x1 y (dq_free_word w Hit) Hx1 E1)
        as [x2 [-> E2]].
      apply Forall_app in Hx1 as [_ Hx2].
      destruct (IH x2 Hl Ht Hx2 E2) as (x0 & c & -> & Hc).
      exists (sp ++ w ++ x0), c. split; [| assumption].
      now rewrite <- !app_assoc.
    + rewrite quote_app in E1.
      destruct x1 as [|c1 x1].
      * rewrite app_nil_r.
        destruct (exists_last Hne) as (x0 & c & ->).
        exists x0, c. split; [reflexivity|].
        apply (proj1 (forallb_forall _ _) Hb). apply in_or_app. right. now left.
      * cbn in E1. injection E1 as E1 _. inversion Hx1; subst. congruence.
Qed.

Lemma closing_quote_miss qc l trail :
  span_ok qc = true -> tail_ok l = true -> blank trail = true ->
  starts_with (quote qc) (dq :: render l trail) = false.
Proof.
  intros Hqc Hl Ht. destruct (starts_with _ _) eqn:E; [exfalso | reflexivity].
  apply starts_with_inv in E as [y E]. rewrite quote_app in E.
  injection E as E.
  pose proof (span_ok_class qc Hqc) as Hcls.
  destruct (gap_ends_blank l trail qc y Hl Ht (dq_free_class qc Hcls) E)
    as (x0 & c & Hx & Hc).
  apply (span_ok_ends qc Hqc).
  - destruct qc as [|q0 qc]; [now apply span_ok_nonempty in Hqc|].
    cbn in E. cbn [hd].
    apply class_space.
    + cbn in Hcls. now apply andb_true_iff in Hcls as [Hcls _].
    + exact (render_starts_blank l trail _ _ Hl Ht E).
  - rewrite Hx, last_last. apply class_space; [| assumption].
    apply (proj1 (forallb_forall _ _) Hcls). rewrite Hx.
    apply in_or_app. right. now left.
Qed.

Lemma opening_quote_miss qc d rest :
  forallb in_class qc = true -> forallb in_class d = true -> d <> qc ->
  starts_with (quote qc) (quote d ++ rest) = false.
Proof.
  intros Hqc Hd Hne. destruct (starts_with _ _) eqn:E; [exfalso | reflexivity].
  apply starts_with_inv in E as [y E]. rewrite !quote_app in E.
  injection E as E.
  apply first_quote_unique in E as [E _];
    auto using dq_free_class.
Qed.

(* ------------------------------------------------------------------ *)
(** *** The four steps of [extract_args] on such a line *)

Lemma item_ok_dq_free_word w : item_ok (Word w) = true -> dq_free w.
Proof. apply dq_free_word. Qed.

(** Step 1: [re.findall] finds the quoted spans, in order. *)
Lemma findall_render l trail :
  head_ok l = true -> blank trail = true ->
  findall (render l trail) = spans l.
Proof.
  unfold findall. intros Hl Ht.
  induction l as [|[sp it] l IH]; cbn [render spans flat_map].
  - rewrite <- (app_nil_r trail).
    now rewrite findall_from_pass by (now apply dq_free_blank).
  - apply head_ok_inv in Hl as (Hb & Hit & Hl).
    rewrite findall_from_pass by (now apply dq_free_blank).
    specialize (IH (tail_ok_head_ok l Hl)).
    destruct it as [w | c]; cbn [item_text snd app].
    + rewrite findall_from_pass by (now apply dq_free_word). exact IH.
    + rewrite findall_from_span, IH;
        [reflexivity | now apply span_ok_nonempty | now apply span_ok_class].
Qed.

(** Step 2: one [replace] turns the spans equal to [qc] into [fill] and
    leaves the rest of the line as it is. *)
Lemma replace_render qc l trail :
  span_ok qc = true -> head_ok l = true -> blank trail = true ->
  replace (quote qc) fill (render l trail) = render (map (seal qc) l) trail.
Proof.
  intros Hqc Hl Ht. unfold replace. cbn [quote].
  change (dq :: qc ++ [dq]) with (quote qc).
  induction l as [|[sp it] l IH]; cbn [render map].
  - rewrite <- (app_nil_r trail) at 1. unfold quote.
    rewrite replace_from_pass by (now apply dq_free_blank).
    cbn. now rewrite app_nil_r.
  - apply head_ok_inv in Hl as (Hb & Hit & Hl).
    specialize (IH (tail_ok_head_ok l Hl)).
    unfold quote at 1. rewrite replace_from_pass by (now apply dq_free_blank).
    change (dq :: qc ++ [dq]) with (quote qc).
    destruct it as [w | d]; unfold seal; cbn [snd fst item_text render].
    + unfold quote at 1. rewrite replace_from_pass by (now apply dq_free_word).
      change (dq :: qc ++ [dq]) with (quote qc). now rewrite IH.
    + destruct (pystr_eqb d qc) eqn:E; cbn [render item_text].
      * apply pystr_eqb_eq in E; subst d.
        rewrite replace_from_hit by easy. now rewrite IH.
      * apply pystr_eqb_neq in E. cbn in Hit.
        pose proof (span_ok_class d Hit) as Hd.
        pose proof (span_ok_class qc Hqc) as Hq.
        rewrite (quote_app d) at 1.
        rewrite replace_from_miss
          by (rewrite <- quote_app; now apply opening_quote_miss).
        unfold quote at 1. rewrite replace_from_pass by (now apply dq_free_class).
        change (dq :: qc ++ [dq]) with (quote qc).
        rewrite replace_from_miss by (now apply closing_quote_miss).
        rewrite IH. now rewrite quote_app.
Qed.

Lemma fill_plain : plain_word fill = true.
Proof. reflexivity. Qed.

Lemma seal_entry_ok strict qc p :
  entry_ok strict p = true -> entry_ok strict (seal qc p) = true.
Proof.
  destruct p as [sp [w | d]]; unfold seal; cbn [snd fst]; auto.
  destruct (pystr_eqb d qc); auto.
  unfold entry_ok; cbn [fst snd item_ok]. intros H.
  apply andb_true_iff in H as [H _]. now rewrite H, fill_plain.
Qed.

Lemma seal_head_ok qc l : head_ok l = true -> head_ok (map (seal qc) l) = true.
Proof.
  destruct l as [|p l]; [reflexivity|]. cbn [head_ok map]. intros H.
  apply andb_true_iff in H as [Hp Hl]. apply andb_true_iff; split.
  - now apply seal_entry_ok.
  - unfold tail_ok in *. rewrite forallb_forall in *. intros q Hq.
    apply in_map_iff in Hq as (q' & <- & Hq'). apply seal_entry_ok. auto.
Qed.

(** The first loop of [extract_args]. *)
Lemma replace_all_render cs l trail :
  forallb span_ok cs = true -> head_ok l = true -> blank trail = true ->
  fold_left (fun s b => replace b fill s) (map quote cs) (render l trail)
  = render (fold_left (fun l c => map (seal c) l) cs l) trail.
Proof.
  revert l; induction cs as [|c cs IH]; intros l Hcs Hl Ht; [reflexivity|].
  cbn in Hcs. apply andb_true_iff in Hcs as [Hc Hcs].
  cbn [map fold_left]. rewrite replace_render by assumption.
  apply IH; auto using seal_head_ok.
Qed.


Lemma seal_fold cs l :
  fold_left (fun l c => map (seal c) l) cs l = map (seal_in cs) l.
Proof.
  revert l; induction cs as [|c cs IH]; intros l; cbn [fold_left].
  - rewrite <- (map_id l) at 1. apply map_ext. now intros [sp [w | d]].
  - rewrite IH, map_map. apply map_ext. intros [sp [w | d]]; [reflexivity|].
    unfold seal, seal_in, mem; cbn [snd fst existsb].
    destruct (pystr_eqb d c); reflexivity.
Qed.

Lemma mem_spans sp c l : In (sp, Quoted c) l -> mem c (spans l) = true.
Proof.
  intros H. unfold mem. apply existsb_exists. exists c.
  split; [| apply pystr_eqb_refl].
  unfold spans. apply in_flat_map. exists (sp, Quoted c). split; [exact H | now left].
Qed.

Lemma seal_in_spans l : map (seal_in (spans l)) l = map seal_all l.
Proof.
  apply map_ext_in. intros [sp [w | c]] H; [reflexivity|].
  unfold seal_in, seal_all, shown; cbn [snd fst].
  now rewrite (mem_spans sp c l H).
Qed.

Lemma shown_plain strict p : entry_ok strict p = true -> plain_word (shown p) = true.
Proof.
  destruct p as [sp it]. intros H. apply entry_ok_inv in H as (_ & _ & H).
  destruct it; [exact H | apply fill_plain].
Qed.

(** Step 3: [split] on the line whose spans were all replaced. *)
Lemma split_render l trail :
  head_ok l = true -> blank trail = true ->
  split (render (map seal_all l) trail) = map shown l.
Proof.
  unfold split. intros Hl Ht.
  induction l as [|[sp it] l IH]; cbn [render map].
  - rewrite <- (app_nil_r trail). now rewrite split_from_blank.
  - pose proof Hl as Hl0. apply head_ok_inv in Hl as (Hb & Hit & Hl).
    specialize (IH (tail_ok_head_ok l Hl)).
    assert (Hw : plain_word (shown (sp, it)) = true).
    { cbn [head_ok] in Hl0. apply andb_true_iff in Hl0 as [Hp _].
      exact (shown_plain false (sp, it) Hp). }
    unfold seal_all at 1. cbn [fst snd item_text].
    rewrite split_from_blank by exact Hb.
    rewrite split_from_word by (now apply plain_word_no_space).
    cbn [app].
    destruct l as [|[sp' it'] l].
    + cbn [map render].
      now rewrite split_from_end by (now apply plain_word_nonempty || exact Ht).
    + unfold tail_ok in Hl. cbn [forallb] in Hl.
      apply andb_true_iff in Hl as [Hp' _].
      apply entry_ok_inv in Hp' as (Hb' & Hne' & _).
      rewrite <- IH. cbn [map render]. unfold seal_all at 1 3. cbn [fst snd].
      rewrite split_from_close;
        [| now apply plain_word_nonempty | exact (Hne' eq_refl) | exact Hb'].
      now rewrite (split_from_blank sp') by exact Hb'.
Qed.

(** Step 4: the [j]-th [fill] among the tokens takes the [j]-th span. *)
Lemma resubstitute_render pre l :
  fill_free l = true ->
  resubstitute (pre ++ map quote (spans l)) (length pre) (map shown l)
  = Ok (map (fun p => item_token (snd p)) l).
Proof.
  revert pre; induction l as [|[sp it] l IH]; intros pre Hl; [reflexivity|].
  unfold fill_free in Hl. cbn [forallb snd] in Hl.
  apply andb_true_iff in Hl as [Hit Hl].
  cbn [map]. unfold shown at 1. cbn [snd resubstitute].
  destruct it as [w | c]; cbn [spans flat_map snd item_token app].
  - apply negb_true_iff in Hit. rewrite Hit.
    fold (spans l). rewrite (IH pre Hl). reflexivity.
  - rewrite pystr_eqb_refl.
    fold (spans l). cbn [map].
    rewrite nth_error_app2 by lia. rewrite Nat.sub_diag. cbn [nth_error].
    replace (pre ++ quote c :: map quote (spans l))
      with ((pre ++ [quote c]) ++ map quote (spans l))
      by (now rewrite <- app_assoc).
    replace (S (length pre)) with (length (pre ++ [quote c]))
      by (rewrite length_app; simpl; lia).
    rewrite (IH _ Hl). cbn [bind]. now rewrite slice_quote.
Qed.

Lemma spans_ok l : head_ok l = true -> forallb span_ok (spans l) = true.
Proof.
  intros Hl. apply forallb_forall. intros c Hc.
  unfold spans in Hc. apply in_flat_map in Hc as ([sp it] & Hin & Hc).
  destruct it as [w | d]; cbn in Hc; [easy|]. destruct Hc as [-> | []].
  destruct l as [|p l]; [easy|]. cbn [head_ok] in Hl.
  apply andb_true_iff in Hl as [Hp Hl]. destruct Hin as [-> | Hin].
  - now apply entry_ok_inv in Hp as (_ & _ & Hp).
  - unfold tail_ok in Hl. apply (proj1 (forallb_forall _ _) Hl) in Hin.
    now apply entry_ok_inv in Hin as (_ & _ & Hin).
Qed.

(** The tokens of a well-formed line are its items, in order. *)
Lemma extract_args_render l trail :
  line_ok l trail = true -> fill_free l = true ->
  extract_args (render l trail) = Ok (map (fun p => item_token (snd p)) l).
Proof.
  intros H Hf. apply line_ok_inv in H as [Hl Ht].
  unfold extract_args.
  rewrite findall_render by assumption.
  rewrite replace_all_render by (auto using spans_ok).
  rewrite seal_fold, seal_in_spans, split_render by assumption.
  exact (resubstitute_render [] l Hf).
Qed.

Lemma count_items l : length l = count_words l + count_spans l.
Proof.
  unfold count_words, count_spans.
  induction l as [|[sp [w | c]] l IH]; cbn [filter snd length]; lia.
Qed.

End TokenizerFacts.

(* ================================================================== *)
(** ** Facts about dictionaries and the heap *)
(* ================================================================== *)

Section DictFacts.

Context {V : Type}.
Implicit Types (d : dict V) (k : pystr) (v : V).

Lemma dict_get_set_same k v d : dict_get k (dict_set k v d) = Some v.
Proof.
  induction d as [|[k' v'] d IH]; cbn [dict_set dict_get].
  - now rewrite pystr_eqb_refl.
  - destruct (pystr_eqb k' k) eqn:E; cbn [dict_get]; now rewrite E.
Qed.

Lemma dict_get_set_other k k' v d :
  k' <> k -> dict_get k' (dict_set k v d) = dict_get k' d.
Proof.
  intros Hne. induction d as [|[k0 v0] d IH]; cbn [dict_set dict_get].
  - apply not_eq_sym in Hne. apply pystr_eqb_neq in Hne. now rewrite Hne.
  - destruct (pystr_eqb k0 k) eqn:E; cbn [dict_get].
    + apply pystr_eqb_eq in E; subst k0.
      apply not_eq_sym in Hne. apply pystr_eqb_neq in Hne. now rewrite Hne.
    + now rewrite IH.
Qed.

Lemma keys_set_present k v d :
  dict_has k d = true -> keys (dict_set k v d) = keys d.
Proof.
  unfold dict_has, keys.
  induction d as [|[k0 v0] d IH]; cbn [dict_set dict_get map fst]; [discriminate|].
  destruct (pystr_eqb k0 k); intros H; cbn [map fst]; [reflexivity|].
  now rewrite IH.
Qed.

Lemma keys_set_absent k v d :
  dict_has k d = false -> keys (dict_set k v d) = keys d ++ [k].
Proof.
  unfold dict_has, keys.
  induction d as [|[k0 v0] d IH]; cbn [dict_set dict_get map fst app]; [reflexivity|].
  destruct (pystr_eqb k0 k); intros H; cbn [map fst]; [discriminate|].
  now rewrite IH.
Qed.

Lemma dict_set_twice k v v' d : dict_set k v' (dict_set k v d) = dict_set k v' d.
Proof.
  induction d as [|[k0 v0] d IH]; cbn [dict_set].
  - now rewrite pystr_eqb_refl.
  - destruct (pystr_eqb k0 k) eqn:E; cbn [dict_set]; rewrite E; [reflexivity|].
    now rewrite IH.
Qed.

Lemma dict_has_set k v d : dict_has k (dict_set k v d) = true.
Proof. unfold dict_has. now rewrite dict_get_set_same. Qed.

(** Binding every name of a list to [v] binds each of them to [v]. *)
Lemma dict_get_set_all (names : list pystr) k v d :
  In k names \/ dict_get k d = Some v ->
  dict_get k (fold_left (fun m s => dict_set s v m) names d) = Some v.
Proof.
  revert d; induction names as [|s names IH]; intros d H; cbn [fold_left].
  - destruct H as [[] | H]; exact H.
  - apply IH. destruct H as [[-> | H] | H].
    + right. apply dict_get_set_same.
    + now left.
    + right. destruct (pystr_eqb s k) eqn:E.
      * apply pystr_eqb_eq in E; subst. apply dict_get_set_same.
      * apply pystr_eqb_neq in E. rewrite dict_get_set_other by congruence.
        exact H.
Qed.

End DictFacts.

Section HeapFacts.

Lemma deref_update_same h r c c' :
  deref h r = Some c -> deref (update h r c') r = Some c'.
Proof.
  unfold deref. revert r; induction h as [|x h IH]; intros [|r]; cbn; try easy.
  apply IH.
Qed.

Lemma deref_update_other h r r' c' :
  r' <> r -> deref (update h r c') r' = deref h r'.
Proof.
  unfold deref. revert r r'; induction h as [|x h IH]; intros [|r] [|r'] H;
    cbn; try easy.
  apply IH. congruence.
Qed.

End HeapFacts.

(* ================================================================== *)
(** ** Facts about [QRCommand.add_argument] *)
(* ================================================================== *)

Section CommandFacts.

Lemma bare_name_optional name :
  is_optional_name name = true ->
  exists bare, bare_name name = Ok bare
               /\ (name = short_name bare \/ name = full_name bare).
Proof.
  destruct name as [|c rest]; cbn; [discriminate|]. intros Hc. rewrite Hc.
  apply N.eqb_eq in Hc; subst c.
  destruct rest as [|c2 rest2].
  - exists []. split; [reflexivity | now left].
  - destruct (N.eqb c2 dash) eqn:E.
    + apply N.eqb_eq in E; subst c2. exists rest2. split; [reflexivity | now right].
    + exists (c2 :: rest2). split; [reflexivity | now left].
Qed.

Lemma bare_name_positional name :
  name <> [] -> is_optional_name name = false -> bare_name name = Ok name.
Proof. destruct name as [|c rest]; cbn; [easy|]. now intros _ ->. Qed.

Lemma add_argument_eq h self cmd name args kw bare :
  deref h self = Some cmd -> bare_name name = Ok bare ->
  Command.add_argument h self name args kw
  = (update h self
       (mkCommand (Command.name cmd) (help cmd)
          (dict_set bare (stored_names name bare args, kw) (arguments cmd))
          (func cmd)),
     Ok self).
Proof. intros Hd Hb. unfold Command.add_argument. now rewrite Hd, Hb. Qed.

End CommandFacts.

(* ================================================================== *)
(** ** Facts about the registration side of [argparse] *)
(* ================================================================== *)

Section RegistrationFacts.

Lemma add_action_inv p a p' :
  add_action p a = Ok p' ->
  p' = mkParser (prog p) (actions p ++ [a])
         (fold_left (fun m s => dict_set s (length (actions p)) m)
                    (option_strings a) (option_string_actions p))
         (defaults p).
Proof.
  unfold add_action. destruct (conflicts p a) as [|s [|s' ss]]; try discriminate.
  now intros [= <-].
Qed.

(** Registering two names or more makes an optional action that carries
    exactly these names. *)
Lemma add_argument_optional_inv p n1 n2 rest kw p' :
  ArgParse.add_argument p (n1 :: n2 :: rest) kw = Ok p' ->
  exists a, option_strings a = n1 :: n2 :: rest /\ add_action p a = Ok p'.
Proof.
  unfold ArgParse.add_argument. cbn [bind].
  destruct (check_option_strings (n1 :: n2 :: rest)); cbn [bind]; [| discriminate].
  destruct (optional_dest (n1 :: n2 :: rest)) as [d|]; cbn [bind]; [| discriminate].
  destruct (kw_action kw) as [[|]|].
  - intros H. eexists. split; [| exact H]. reflexivity.
  - destruct (kw_type kw); [discriminate|].
    intros H. eexists. split; [| exact H]. reflexivity.
  - intros H. eexists. split; [| exact H]. reflexivity.
Qed.

Lemma registered_names p names kw p' n1 n2 rest s :
  names = n1 :: n2 :: rest ->
  ArgParse.add_argument p names kw = Ok p' ->
  In s names ->
  dict_get s (option_string_actions p') = Some (length (actions p))
  /\ option_strings (nth (length (actions p)) (actions p') help_action) = names.
Proof.
  intros -> H Hin.
  apply add_argument_optional_inv in H as (a & Ha & H).
  apply add_action_inv in H. subst p'. cbn [option_string_actions actions].
  split.
  - rewrite Ha. apply dict_get_set_all. now left.
  - rewrite app_nth2 by lia. now rewrite Nat.sub_diag.
Qed.

End RegistrationFacts.

(* ================================================================== *)
(** ** Facts about [QRConsole] *)
(* ================================================================== *)

Section ConsoleFacts.

Lemma with_subparsers_same c : with_subparsers c (subparsers c) = c.
Proof. now destruct c. Qed.

Lemma add_parser_strict_duplicate sp name help :
  dict_has name (name_parser_map sp) = true ->
  add_parser true sp name help
  = (sp, Raise (argument_error (subparsers_action sp)
                  (py "conflicting subparser: " ++ name))).
Proof. intros H. unfold add_parser. now rewrite H. Qed.

Lemma add_parser_legacy sp name help :
  add_parser false sp name help
  = (mkSubParsers (dict_set name (new_parser name) (name_parser_map sp))
                  (choices_actions sp ++ [(name, help)]),
     Ok (new_parser name)).
Proof. reflexivity. Qed.

Variable parse : evaluator.
Variable h : heap.
Variable c : QRConsole.

Lemma read_line_ok i evs ih :
  try_block parse h c i = (evs, ih, Ok tt) ->
  read_line parse h c i = (evs, Continue).
Proof. intros H. unfold read_line. now rewrite H. Qed.

Lemma read_line_raise i evs ih e :
  try_block parse h c i = (evs, ih, Raise e) ->
  is_exception e = true ->
  read_line parse h c i
  = if not_help ih
    then (evs ++ error_report e, if throw_errors c then Exit 1 else Continue)
    else (evs, Continue).
Proof. intros H He. unfold read_line. now rewrite H, He. Qed.

Lemma read_line_escape i evs ih e :
  try_block parse h c i = (evs, ih, Raise e) ->
  is_exception e = false ->
  read_line parse h c i = (evs, Escape e).
Proof. intros H He. unfold read_line. now rewrite H, He. Qed.

(** [is_help] is true only when the tokens hold a help marker. *)
Lemma try_block_help i evs r :
  try_block parse h c i = (evs, Some true, r) ->
  exists line s, i = Line line /\ extract_args line = Ok s /\ has_help s = true.
Proof.
  unfold try_block. destruct i as [line| |]; try discriminate.
  destruct (extract_args line) as [s|e] eqn:Es; [| discriminate].
  destruct (parse (subparsers c) s) as [helps [args|e]].
  - destruct (dict_has (py "func") args && negb (has_help s)).
    + destruct (call_func h args). intros [= _ H _]. eauto.
    + intros [= _ H _]. eauto.
  - intros [= _ H _]. eauto.
Qed.

Lemma read_line_exit i evs code :
  read_line parse h c i = (evs, Exit code) ->
  code = 1%Z /\ throw_errors c = true
  /\ exists evs' e, try_block parse h c i = (evs', None, Raise e)
                    \/ try_block parse h c i = (evs', Some false, Raise e).
Proof.
  unfold read_line. destruct (try_block parse h c i) as [[evs' ih] [[]|e]].
  - discriminate.
  - destruct (is_exception e); [| discriminate].
    destruct ih as [[|]|]; cbn [not_help]; try discriminate;
      (destruct (throw_errors c); [| discriminate]); intros [= _ <-];
      (split; [reflexivity|]); (split; [reflexivity|]); exists evs', e; auto.
Qed.

Lemma read_line_escaped i evs e :
  read_line parse h c i = (evs, Escape e) ->
  is_exception e = false /\ exists ih, try_block parse h c i = (evs, ih, Raise e).
Proof.
  unfold read_line. destruct (try_block parse h c i) as [[evs' ih] [[]|e']].
  - discriminate.
  - destruct (is_exception e') eqn:He.
    + destruct (not_help ih); [| discriminate].
      destruct (throw_errors c); discriminate.
    + intros [= -> ->]. split; [exact He|]. now exists ih.
Qed.

Lemma read_line_caught i :
  caught parse h c i -> forall evs e, read_line parse h c i <> (evs, Escape e).
Proof.
  intros Hc evs e H. apply read_line_escaped in H as (He & ih & H).
  rewrite (Hc _ _ _ H) in He. discriminate.
Qed.

Lemma read_line_report_mode i :
  throw_errors c = false -> caught parse h c i ->
  snd (read_line parse h c i) = Continue.
Proof.
  intros Ht Hc. destruct (read_line parse h c i) as [evs [|code|e]] eqn:E;
    [reflexivity | |].
  - apply read_line_exit in E as (_ & E & _). congruence.
  - now apply read_line_caught in E.
Qed.

Lemma run_cons i inputs :
  run parse h c (i :: inputs)
  = match read_line parse h c i with
    | (evs, Continue) =>
        (evs ++ fst (run parse h c inputs), snd (run parse h c inputs))
    | (evs, Exit code) => (evs, Exited code)
    | (evs, Escape e) => (evs, Escaped e)
    end.
Proof.
  cbn [run]. destruct (read_line parse h c i) as [evs [|code|e]]; try reflexivity.
  now destruct (run parse h c inputs).
Qed.

Lemma run_exit inputs code :
  snd (run parse h c inputs) = Exited code -> code = 1%Z /\ throw_errors c = true.
Proof.
  induction inputs as [|i inputs IH]; [discriminate|].
  rewrite run_cons. destruct (read_line parse h c i) as [evs [|code'|e]] eqn:E.
  - exact IH.
  - cbn. intros [= <-]. destruct (read_line_exit i evs code' E) as (H1 & H2 & _).
    now split.
  - discriminate.
Qed.

Lemma run_escaped inputs e :
  snd (run parse h c inputs) = Escaped e ->
  is_exception e = false
  /\ exists i evs ih, In i inputs /\ try_block parse h c i = (evs, ih, Raise e).
Proof.
  induction inputs as [|i inputs IH]; [discriminate|].
  rewrite run_cons. destruct (read_line parse h c i) as [evs [|code'|e']] eqn:E.
  - intros H. destruct (IH H) as (H1 & i' & evs' & ih & Hin & H2).
    split; [exact H1|]. exists i', evs', ih. split; [now right | exact H2].
  - discriminate.
  - cbn. intros [= <-]. destruct (read_line_escaped i evs e' E) as (H1 & ih & H2).
    split; [exact H1|]. exists i, evs, ih. split; [now left | exact H2].
Qed.

Lemma run_report_mode inputs :
  throw_errors c = false -> Forall (caught parse h c) inputs ->
  snd (run parse h c inputs) = Running.
Proof.
  intros Ht Hc. destruct (snd (run parse h c inputs)) as [|code|e] eqn:E;
    [reflexivity | |].
  - apply run_exit in E as [_ E]. congruence.
  - apply run_escaped in E as (He & i & evs & ih & Hin & H).
    rewrite Forall_forall in Hc. rewrite (Hc i Hin _ _ _ H) in He. discriminate.
Qed.

Lemma run_all_continue inputs :
  Forall (fun i => snd (read_line parse h c i) = Continue) inputs ->
  snd (run parse h c inputs) = Running.
Proof.
  induction 1 as [|i inputs Hi _ IH]; [reflexivity|].
  rewrite run_cons. destruct (read_line parse h c i) as [evs [|code|e]];
    [exact IH | discriminate | discriminate].
Qed.

Lemma read_line_eof :
  read_line parse h c EOF
  = ([Prompt (py "?>"); Printed (RED ++ py "EOF when reading a line");
      Written RESET_ALL],
     if throw_errors c then Exit 1 else Continue).
Proof. reflexivity. Qed.

Lemma caught_eof : caught parse h c EOF.
Proof. intros evs ih e [= _ _ <-]. reflexivity. Qed.

Lemma read_line_interrupt :
  read_line parse h c Interrupt
  = ([Prompt (py "?>")], Escape (mkExn KeyboardInterrupt [])).
Proof. reflexivity. Qed.

Lemma read_line_help line s :
  extract_args line = Ok s -> has_help s = true ->
  read_line parse h c (Line line)
  = (Prompt (py "?>") :: map HelpPrinted (fst (parse (subparsers c) s)),
     help_outcome (snd (parse (subparsers c) s))).
Proof.
  intros Hs Hh. unfold read_line, try_block. rewrite Hs, Hh.
  destruct (parse (subparsers c) s) as [helps [args|e]]; cbn [fst snd help_outcome].
  - now rewrite andb_false_r.
  - cbn [not_help]. now destruct (is_exception e).
Qed.

Lemma no_call_in_helps r vs helps :
  ~ In (Called r vs) (Prompt (py "?>") :: map HelpPrinted helps).
Proof.
  intros [H | H]; [discriminate|].
  apply in_map_iff in H as (x & Hx & _). discriminate.
Qed.

End ConsoleFacts.

Section EvaluatorFacts.

Context {formatter : Formatter}.

Lemma pystr_eqb_sym a b : pystr_eqb a b = pystr_eqb b a.
Proof.
  revert b; induction a as [|x a IH]; destruct b as [|y b]; cbn; try reflexivity.
  now rewrite N.eqb_sym, IH.
Qed.

Lemma dict_has_mem {V} k (d : dict V) : dict_has k d = mem k (keys d).
Proof.
  unfold dict_has, mem, keys.
  induction d as [|[k' v] d IH]; cbn [dict_get map fst existsb]; [reflexivity|].
  rewrite (pystr_eqb_sym k k'). destruct (pystr_eqb k' k); [reflexivity | exact IH].
Qed.

(** A single token that is no option and no registered name is refused as
    an invalid choice, by name. *)
Lemma parse_args_unknown_command sp c0 t :
  is_dash c0 = false ->
  dict_has (c0 :: t) (name_parser_map sp) = false ->
  parse_args sp [c0 :: t] = ([], Raise (invalid_choice sp (c0 :: t))).
Proof.
  intros Hd Hk. rewrite dict_has_mem in Hk.
  unfold parse_args, parse_known_args.
  cbn [classify parse_optional bind].
  assert (E : pystr_eqb (c0 :: t) (py "--") = false).
  { cbn. unfold is_dash in Hd. now rewrite Hd. }
  rewrite E. rewrite Hd. cbn [negb bind fst snd].
  cbn [length consume next_option Nat.sub is_option_at nth].
  unfold conclude, consume_positionals.
  cbn [positionals skipn top_parser positional_indices actions length seq filter nth
       option_strings help_action subparsers_action].
  cbn [match_partial action_at actions top_parser nth nargs_match kind
       subparsers_action option_strings count_dashes skipn length slices firstn
       take_actions take_action].
  unfold check_value. cbn [choices subparsers_action]. rewrite Hk.
  reflexivity.
Qed.

End EvaluatorFacts.

(* ================================================================== *)
(** ** Facts about [parse_args]: the help that is printed *)
(* ================================================================== *)

Section HelpFacts.

Context {formatter : Formatter}.

Lemma extends_refl a : extends a a.
Proof. exists []. now rewrite app_nil_r. Qed.

Lemma extends_app a t : extends a (a ++ t).
Proof. now exists t. Qed.

Lemma extends_trans a b c : extends a b -> extends b c -> extends a c.
Proof. intros [t ->] [u ->]. exists (t ++ u). now rewrite app_assoc. Qed.

Variable p : Parser.
Variable call_sub : list pystr -> list pystr * result (namespace * list pystr).

Lemma helps_store_value st a v : helps (store_value st a v) = helps st.
Proof. unfold store_value. now destruct (dest a). Qed.

(** What is printed stays printed. *)
Lemma take_action_helps st i args :
  extends (helps st) (helps (fst (take_action p call_sub st i args))).
Proof.
  unfold take_action. destruct (kind (action_at p i)).
  - destruct (remove_first_ddash args) as [|s [|s' l]]; cbn [fst];
      try (rewrite helps_store_value; apply extends_refl).
    destruct (get_value (action_at p i) s); [| apply extends_refl].
    destruct (check_value (action_at p i) s); cbn [fst];
      [rewrite helps_store_value|]; apply extends_refl.
  - cbn [fst]. rewrite helps_store_value. apply extends_refl.
  - destruct (print_help p); cbn [fst helps];
      [apply extends_refl | apply extends_app].
  - destruct args as [|parser_name rest]; [apply extends_refl|].
    destruct (check_value (action_at p i) parser_name); [| apply extends_refl].
    destruct (call_sub (parser_name :: rest)) as [hs [[subns rest']|e]];
      cbn [fst helps]; apply extends_app.
Qed.

Lemma take_actions_helps l st :
  extends (helps st) (helps (fst (take_actions p call_sub st l))).
Proof.
  revert st; induction l as [|[i args] l IH]; intros st; cbn [take_actions].
  - apply extends_refl.
  - pose proof (take_action_helps st i args) as H.
    destruct (take_action p call_sub st i args) as [st' [[]|e]]; cbn [fst] in *.
    + exact (extends_trans _ _ _ H (IH st')).
    + exact H.
Qed.

Variable arg_strings : list pystr.
Variable pattern : list sym.
Variable tuples : list (option option_tuple).

Lemma consume_positionals_helps st start :
  extends (helps st)
    (helps (fst (consume_positionals p call_sub arg_strings pattern st start))).
Proof.
  unfold consume_positionals.
  pose proof (take_actions_helps
                (slices arg_strings start
                   (match_partial p (positionals st) (skipn start pattern))
                   (positionals st)) st) as H.
  destruct (take_actions p call_sub st _) as [st' [[]|e]]; exact H.
Qed.

Lemma consume_optional_helps st start :
  extends (helps st)
    (helps (fst (consume_optional p call_sub arg_strings pattern tuples st start))).
Proof.
  unfold consume_optional.
  destruct (nth start tuples None) as [[[[i|] option_string] explicit]|];
    try apply extends_refl.
  destruct (match explicit with
            | Some e => with_explicit p arg_strings pattern start i option_string e []
            | None => without_explicit p arg_strings pattern start i []
            end) as [[todo stop]|e]; [| apply extends_refl].
  pose proof (take_actions_helps todo st) as H.
  destruct (take_actions p call_sub st todo) as [st' [[]|e]]; exact H.
Qed.

Lemma consume_helps fuel st start :
  extends (helps st)
    (helps (fst (consume p call_sub arg_strings pattern tuples fuel st start))).
Proof.
  revert st start; induction fuel as [|fuel IH]; intros st start; cbn [consume].
  - apply extends_refl.
  - destruct (next_option tuples (length arg_strings - start) start) as [next|];
      [| apply extends_refl].
    assert (Hgo : forall st0 start0,
               extends (helps st0)
                 (helps (fst (let '(st1, start1) :=
                                if is_option_at tuples start0 then (st0, start0)
                                else (mkPstate (ns st0) (seen st0) (positionals st0)
                                        (extras st0 ++ firstn (next - start0)
                                                         (skipn start0 arg_strings))
                                        (sub_extras st0) (helps st0), next) in
                              match consume_optional p call_sub arg_strings pattern
                                      tuples st1 start1 with
                              | (st', Ok start') =>
                                  consume p call_sub arg_strings pattern tuples
                                          fuel st' start'
                              | (st', Raise e) => (st', Raise e)
                              end)))).
    { intros st0 start0.
      destruct (is_option_at tuples start0).
      - pose proof (consume_optional_helps st0 start0) as H.
        destruct (consume_optional p call_sub arg_strings pattern tuples st0 start0)
          as [st' [start'|e]]; cbn [fst] in *; [| exact H].
        exact (extends_trans _ _ _ H (IH st' start')).
      - match goal with
        | |- context [consume_optional _ _ _ _ _ ?s ?n] =>
            pose proof (consume_optional_helps s n) as H;
            destruct (consume_optional p call_sub arg_strings pattern tuples s n)
              as [st' [start'|e]]
        end; cbn [fst helps] in *; [| exact H].
        exact (extends_trans _ _ _ H (IH st' start')). }
    destruct (Nat.eqb start next); [apply Hgo|].
    pose proof (consume_positionals_helps st start) as H.
    destruct (consume_positionals p call_sub arg_strings pattern st start)
      as [st' [stop|e]]; cbn [fst] in *; [| exact H].
    destruct (Nat.ltb start stop).
    + exact (extends_trans _ _ _ H (IH st' stop)).
    + exact (extends_trans _ _ _ H (Hgo st' stop)).
Qed.

End HelpFacts.

Section HelpOption.

Context {formatter : Formatter}.

Lemma conclude_helps p call_sub args pattern r :
  extends (helps (fst r)) (fst (conclude p call_sub args pattern r)).
Proof.
  unfold conclude. destruct r as [st [start|e]]; cbn [fst]; [| apply extends_refl].
  pose proof (consume_positionals_helps p call_sub args pattern st start) as H.
  destruct (consume_positionals p call_sub args pattern st start)
    as [st' [stop|e]]; cbn [fst] in *; [| exact H].
  destruct (finish (seen st') 0 (actions p) (ns st') []); exact H.
Qed.

Lemma is_option_first (tuples : list (option option_tuple)) t :
  nth 0 tuples None = Some t -> is_option_at tuples 0 = true.
Proof. unfold is_option_at. now intros ->. Qed.

(** When the first argument is bound to a help action, the help of the
    parser is the first thing printed. *)
Lemma consume_help_first p call_sub m rest i pattern
    (tuples : list (option option_tuple)) fuel st :
  nth 0 tuples None = Some (Some i, m, None) ->
  kind (nth i (actions p) help_action) = KHelp ->
  print_help p = None ->
  extends (helps st ++ [prog p])
    (helps (fst (consume p call_sub (m :: rest) pattern tuples (S fuel) st 0))).
Proof.
  intros Ht Hk Hph. cbn [consume length Nat.sub next_option].
  rewrite (is_option_first tuples _ Ht). cbn [Nat.eqb].
  unfold consume_optional at 1. rewrite Ht.
  unfold without_explicit, match_argument, action_at, nargs_match. rewrite Hk.
  assert (Hn : exists n, (if match option_strings (nth i (actions p) help_action) with
                             | [] => false
                             | _ :: _ => true
                             end
                          then Some 0
                          else Some (count_dashes (skipn 1 pattern))) = Some n).
  { destruct (option_strings _); eauto. }
  destruct Hn as [n ->]. cbn [bind app take_actions].
  unfold take_action at 1. unfold action_at. rewrite Hk, Hph.
  cbn [take_actions].
  match goal with
  | |- context [consume p call_sub ?a ?pt ?tp ?f ?s ?n] =>
      pose proof (consume_helps p call_sub a pt tp f s n) as H1
  end.
  exact H1.
Qed.

(** When printing the help raises, nothing is printed and the parser
    stops there. *)
Lemma consume_help_raises p call_sub m rest i pattern
    (tuples : list (option option_tuple)) fuel st e :
  nth 0 tuples None = Some (Some i, m, None) ->
  kind (nth i (actions p) help_action) = KHelp ->
  print_help p = Some e ->
  exists st',
    consume p call_sub (m :: rest) pattern tuples (S fuel) st 0 = (st', Raise e)
    /\ helps st' = helps st.
Proof.
  intros Ht Hk Hph. cbn [consume length Nat.sub next_option].
  rewrite (is_option_first tuples _ Ht). cbn [Nat.eqb].
  unfold consume_optional at 1. rewrite Ht.
  unfold without_explicit, match_argument, action_at, nargs_match. rewrite Hk.
  assert (Hn : exists n, (if match option_strings (nth i (actions p) help_action) with
                             | [] => false
                             | _ :: _ => true
                             end
                          then Some 0
                          else Some (count_dashes (skipn 1 pattern))) = Some n).
  { destruct (option_strings _); eauto. }
  destruct Hn as [n ->]. cbn [bind app take_actions].
  unfold take_action at 1. unfold action_at. rewrite Hk, Hph.
  eexists. split; reflexivity.
Qed.

Lemma as_parser_error_idem e : as_parser_error (as_parser_error e) = as_parser_error e.
Proof. unfold as_parser_error. now destruct e as [[] s]. Qed.

Lemma parse_known_args_help_raises p call_sub m rest i pattern
    (tuples : list (option option_tuple)) e :
  classify p (m :: rest) = Ok (pattern, tuples) ->
  nth 0 tuples None = Some (Some i, m, None) ->
  kind (nth i (actions p) help_action) = KHelp ->
  print_help p = Some e ->
  parse_known_args p call_sub (m :: rest) = ([], Raise (as_parser_error e)).
Proof.
  intros Hc Ht Hk Hph. unfold parse_known_args. rewrite Hc.
  destruct (consume_help_raises p call_sub m rest i pattern tuples
              (length (m :: rest))
              (mkPstate (initial_namespace p) [] (positional_indices p) [] [] [])
              e Ht Hk Hph) as (st' & -> & Hs).
  unfold conclude. now rewrite Hs.
Qed.

Lemma parse_known_args_help_first p call_sub m rest i pattern
    (tuples : list (option option_tuple)) :
  classify p (m :: rest) = Ok (pattern, tuples) ->
  nth 0 tuples None = Some (Some i, m, None) ->
  kind (nth i (actions p) help_action) = KHelp ->
  print_help p = None ->
  exists hs, fst (parse_known_args p call_sub (m :: rest)) = prog p :: hs.
Proof.
  intros Hc Ht Hk Hph. unfold parse_known_args. rewrite Hc.
  set (st0 := mkPstate (initial_namespace p) [] (positional_indices p) [] [] []).
  pose proof (consume_help_first p call_sub m rest i pattern tuples
                (length (m :: rest)) st0 Ht Hk Hph) as H1.
  pose proof (conclude_helps p call_sub (m :: rest) pattern
                (consume p call_sub (m :: rest) pattern tuples
                   (S (length (m :: rest))) st0 0)) as H2.
  destruct (extends_trans _ _ _ H1 H2) as [t Ht'].
  exists t. exact Ht'.
Qed.

(** The top-level parser has no two options an argument could stand for:
    its first loop never raises. *)
Lemma top_parse_optional_total sp s :
  exists t, parse_optional (top_parser sp) s = Ok t.
Proof.
  unfold parse_optional. destruct s as [|c rest]; [eauto|].
  destruct (is_dash c) eqn:Ec; cbn [negb]; [| eauto].
  destruct (dict_get (c :: rest) (option_string_actions (top_parser sp))); [eauto|].
  destruct rest as [|c1 rest]; [eauto|].
  destruct (match split_eq (c :: c1 :: rest) with
            | Some (o, e) =>
                match dict_get o (option_string_actions (top_parser sp)) with
                | Some i => Some (Some i, o, Some e)
                | None => None
                end
            | None => None
            end); [eauto|].
  assert (H : get_option_tuples (top_parser sp) (c :: c1 :: rest) = []
              \/ exists t, get_option_tuples (top_parser sp) (c :: c1 :: rest) = [t]).
  { unfold is_dash in Ec. apply N.eqb_eq in Ec. subst c.
    unfold get_option_tuples. cbn [option_string_actions top_parser].
    destruct (is_dash c1) eqn:Ec1.
    - unfold is_dash in Ec1. apply N.eqb_eq in Ec1. subst c1.
      cbn [split_eq N.eqb Pos.eqb].
      destruct (split_eq rest) as [[a b]|]; cbn [flat_map fst snd app];
        match goal with
        | |- context [starts_with ?x (py "-h")] =>
            change (starts_with x (py "-h")) with false
        end;
        cbn [app]; destruct (starts_with _ _);
        first [left; reflexivity | right; eexists; reflexivity].
    - cbn [flat_map fst snd app].
      match goal with
      | |- context [pystr_eqb (py "--help") ?x] =>
          assert (E2 : pystr_eqb (py "--help") x = false)
      end.
      { change (py "--help") with (45%N :: 45%N :: py "help").
        cbn [pystr_eqb]. unfold is_dash in Ec1.
        rewrite (N.eqb_sym 45 c1), Ec1. now rewrite andb_false_r. }
      match goal with
      | |- context [starts_with ?x (py "--help")] =>
          assert (E3 : starts_with x (py "--help") = false)
      end.
      { change (py "--help") with (45%N :: 45%N :: py "help").
        cbn [starts_with]. unfold is_dash in Ec1. rewrite Ec1.
        now rewrite andb_false_r. }
      rewrite E2, E3. clear E2 E3. rewrite app_nil_r.
      match goal with
      | |- context [pystr_eqb (py "-h") ?x] => destruct (pystr_eqb (py "-h") x)
      end; [right; eexists; reflexivity|].
      match goal with
      | |- context [starts_with ?x (py "-h")] => destruct (starts_with x (py "-h"))
      end; first [left; reflexivity | right; eexists; reflexivity]. }
  destruct H as [-> | [t ->]]; [| eauto].
  destruct (looks_negative _ && _); [eauto|].
  destruct (existsb _ _); eauto.
Qed.

Lemma top_classify_total sp args :
  exists pattern tuples, classify (top_parser sp) args = Ok (pattern, tuples).
Proof.
  induction args as [|a args (pattern & tuples & IH)]; cbn [classify]; [eauto|].
  destruct (pystr_eqb a (py "--")); [eauto|].
  destruct (top_parse_optional_total sp a) as [t ->]. rewrite IH.
  cbn [bind]. eauto.
Qed.

Lemma has_help_one m : has_help [m] = true -> m = py "-h" \/ m = py "--help".
Proof.
  unfold has_help, mem. cbn [existsb]. rewrite !orb_false_r.
  intros H. apply orb_true_iff in H as [H | H];
    apply pystr_eqb_eq in H; auto.
Qed.

(** A line that begins with the help marker prints the help of the shell
    before anything else. *)
Lemma top_marker_tuple sp m rest pattern tuples :
  has_help [m] = true ->
  classify (top_parser sp) (m :: rest) = Ok (pattern, tuples) ->
  nth 0 tuples None = Some (Some 0, m, None).
Proof.
  intros Hm Hc. cbn [classify] in Hc.
  destruct (has_help_one m Hm) as [-> | ->];
    (destruct (top_classify_total sp rest) as (pt & tp & Hr);
     rewrite Hr in Hc; vm_compute in Hc; injection Hc as <- <-; reflexivity).
Qed.

Lemma parse_args_help_first sp m rest :
  has_help [m] = true ->
  print_help (top_parser sp) = None ->
  exists hs, fst (parse_args sp (m :: rest)) = py "PROG" :: hs.
Proof.
  intros Hm Hph. unfold parse_args.
  assert (H : exists hs, fst (parse_known_args (top_parser sp) (call_subparser sp)
                                (m :: rest)) = py "PROG" :: hs).
  { destruct (top_classify_total sp (m :: rest)) as (pattern & tuples & Hc).
    exact (parse_known_args_help_first (top_parser sp) (call_subparser sp) m rest 0
             pattern tuples Hc (top_marker_tuple sp m rest _ _ Hm Hc) eq_refl Hph). }
  destruct H as [hs H].
  destruct (parse_known_args _ _ _) as [hs' [[n [|x argv]]|e]]; cbn [fst] in *;
    exists hs; exact H.
Qed.

(** When printing the help of the shell raises, the line prints nothing
    and [parse_args] raises what the printing raised. *)
Lemma parse_args_help_raises sp m rest e :
  has_help [m] = true ->
  print_help (top_parser sp) = Some e ->
  parse_args sp (m :: rest) = ([], Raise (as_parser_error e)).
Proof.
  intros Hm Hph. unfold parse_args.
  destruct (top_classify_total sp (m :: rest)) as (pattern & tuples & Hc).
  now rewrite (parse_known_args_help_raises (top_parser sp) (call_subparser sp)
                 m rest 0 pattern tuples e Hc (top_marker_tuple sp m rest _ _ Hm Hc)
                 eq_refl Hph).
Qed.

End HelpOption.

Section CommandHelp.

Context {formatter : Formatter}.

Lemma dict_get_mem {V} k (d : dict V) v : dict_get k d = Some v -> mem k (keys d) = true.
Proof. intros H. rewrite <- dict_has_mem. unfold dict_has. now rewrite H. Qed.

Lemma marker_is_option m : has_help [m] = true -> exists c rest, m = c :: rest /\ is_dash c = true.
Proof. intros H. destruct (has_help_one m H) as [-> | ->]; eexists _, _; split; reflexivity. Qed.

Lemma marker_not_ddash m : has_help [m] = true -> pystr_eqb m (py "--") = false.
Proof. intros H. now destruct (has_help_one m H) as [-> | ->]. Qed.

Lemma plain_not_ddash s : plain s = true -> pystr_eqb s (py "--") = false.
Proof.
  destruct s as [|c s]; [reflexivity|]. cbn [plain]. intros H.
  apply negb_true_iff in H. change (py "--") with (45%N :: py "-").
  cbn [pystr_eqb]. unfold is_dash in H. now rewrite H.
Qed.

Lemma parse_optional_plain p s : plain s = true -> parse_optional p s = Ok None.
Proof.
  destruct s as [|c s]; [reflexivity|]. cbn [plain]. intros H.
  unfold parse_optional. now rewrite H.
Qed.

(** Words that are no options are positional arguments. *)
Lemma classify_plain p rest :
  forallb plain rest = true ->
  classify p rest = Ok (map (fun _ => SA) rest, map (fun _ => None) rest).
Proof.
  induction rest as [|a rest IH]; [reflexivity|]. cbn [forallb].
  intros H. apply andb_true_iff in H as [Ha Hr]. cbn [classify].
  rewrite (plain_not_ddash a Ha), (parse_optional_plain p a Ha), (IH Hr).
  reflexivity.
Qed.

Lemma classify_marker p m rest i :
  has_help [m] = true -> forallb plain rest = true ->
  dict_get m (option_string_actions p) = Some i ->
  classify p (m :: rest)
  = Ok (SO :: map (fun _ => SA) rest,
        Some (Some i, m, None) :: map (fun _ => None) rest).
Proof.
  intros Hm Hr Hi. cbn [classify]. rewrite (marker_not_ddash m Hm).
  destruct (marker_is_option m Hm) as (c & s & -> & Hc).
  unfold parse_optional. rewrite Hc. cbn [negb]. rewrite Hi.
  cbn [bind]. rewrite (classify_plain p rest Hr). reflexivity.
Qed.

Lemma top_classify_command sp name m rest :
  plain name = true -> has_help [m] = true ->
  forallb plain rest = true ->
  classify (top_parser sp) (name :: m :: rest)
  = Ok (SA :: SO :: map (fun _ => SA) rest,
        None :: Some (Some 0, m, None) :: map (fun _ => None) rest).
Proof.
  intros Hd Hm Hr.
  change (classify (top_parser sp) (name :: m :: rest))
    with (if pystr_eqb name (py "--")
          then Ok (SD :: map (fun _ => SA) (m :: rest),
                   None :: map (fun _ => None) (m :: rest))
          else
            t0 <- parse_optional (top_parser sp) name ;;
            r <- classify (top_parser sp) (m :: rest) ;;
            Ok (match t0 with None => SA | Some _ => SO end :: fst r, t0 :: snd r)).
  rewrite (plain_not_ddash name Hd), (parse_optional_plain _ name Hd).
  cbn [bind].
  rewrite (classify_marker (top_parser sp) m rest 0 Hm Hr).
  - reflexivity.
  - now destruct (has_help_one m Hm) as [-> | ->].
Qed.

(** On a line that is a registered name, the help marker and words that
    are no options, the sub-parsers action is given the whole line, and
    what the command's parser prints is printed. *)
Lemma consume_command_help sp name m rest pt (tt : list (option option_tuple))
    p fuel st :
  dict_get name (name_parser_map sp) = Some p ->
  positionals st = [1] ->
  length pt = length rest ->
  extends (helps st ++ fst (parse_known_args p no_sub (m :: rest)))
    (helps (fst (consume (top_parser sp) (call_subparser sp) (name :: m :: rest)
                   (SA :: SO :: pt) (None :: Some (Some 0, m, None) :: tt)
                   (S fuel) st 0))).
Proof.
  intros Hp Hpos Hlen.
  cbn [consume length Nat.sub next_option is_option_at nth Nat.eqb].
  unfold consume_positionals at 1. rewrite Hpos.
  cbn [skipn match_partial action_at actions top_parser nth nargs_match kind
       subparsers_action option_strings count_dashes length slices firstn
       take_actions].
  rewrite Hlen, firstn_all.
  unfold take_action at 1.
  cbn [action_at actions top_parser nth kind subparsers_action].
  unfold check_value. cbn [choices subparsers_action].
  rewrite (dict_get_mem _ _ _ Hp).
  unfold call_subparser at 1. rewrite Hp.
  destruct (parse_known_args p no_sub (m :: rest)) as [hs [[subns rest']|e]];
    cbn [fst helps seen ns positionals extras sub_extras].
  - cbn [fold_left Nat.add Nat.ltb Nat.leb].
    match goal with
    | |- context [consume ?a ?b ?c ?d ?e ?f ?s ?n] =>
        exact (consume_helps a b c d e f s n)
    end.
  - apply extends_refl.
Qed.

(** A registered name, the help marker, and then words that are no
    options: the help of the command's parser is the first thing
    printed. *)
Lemma parse_args_command_help sp name m rest p :
  plain name = true ->
  dict_get name (name_parser_map sp) = Some p ->
  has_help [m] = true -> forallb plain rest = true ->
  help_bound p m ->
  print_help p = None ->
  exists hs, fst (parse_args sp (name :: m :: rest)) = prog p :: hs.
Proof.
  intros Hd Hp Hm Hr (i & Hi & _ & Hk) Hph. unfold parse_args.
  assert (H : exists hs,
             fst (parse_known_args (top_parser sp) (call_subparser sp)
                    (name :: m :: rest))
             = prog p :: hs).
  { unfold parse_known_args.
    rewrite (top_classify_command sp name m rest Hd Hm Hr).
    set (st0 := mkPstate (initial_namespace (top_parser sp)) []
                         (positional_indices (top_parser sp)) [] [] []).
    pose proof (consume_command_help sp name m rest (map (fun _ => SA) rest)
                  (map (fun _ => None) rest) p (length (name :: m :: rest)) st0 Hp
                  eq_refl (length_map _ rest)) as H1.
    pose proof (conclude_helps (top_parser sp) (call_subparser sp)
                  (name :: m :: rest) (SA :: SO :: map (fun _ => SA) rest)
                  (consume (top_parser sp) (call_subparser sp) (name :: m :: rest)
                     (SA :: SO :: map (fun _ => SA) rest)
                     (None :: Some (Some 0, m, None) :: map (fun _ => None) rest)
                     (S (length (name :: m :: rest))) st0 0))
      as H2.
    destruct (parse_known_args_help_first p no_sub m rest i _ _
                (classify_marker p m rest i Hm Hr Hi) eq_refl Hk Hph)
      as [hs' Hs'].
    rewrite Hs' in H1. cbn [helps st0 app] in H1.
    destruct (extends_trans _ _ _ H1 H2) as [u Hu].
    exists (hs' ++ u). exact Hu. }
  destruct H as [hs H].
  destruct (parse_known_args _ _ _) as [hs0 [[n [|x argv]]|e]]; cbn [fst] in *;
    exists hs; exact H.
Qed.

(** When printing the help of the command raises, the line prints
    nothing and [parse_args] raises what the printing raised. *)
Lemma parse_args_command_help_raises sp name m rest p e :
  plain name = true ->
  dict_get name (name_parser_map sp) = Some p ->
  has_help [m] = true -> forallb plain rest = true ->
  help_bound p m ->
  print_help p = Some e ->
  parse_args sp (name :: m :: rest) = ([], Raise (as_parser_error e)).
Proof.
  intros Hd Hp Hm Hr (i & Hi & _ & Hk) Hph. unfold parse_args, parse_known_args.
  rewrite (top_classify_command sp name m rest Hd Hm Hr).
  cbn [consume length Nat.sub next_option is_option_at nth Nat.eqb].
  unfold consume_positionals at 1.
  cbn [positionals positional_indices top_parser actions length seq filter nth
       option_strings help_action subparsers_action].
  cbn [skipn match_partial action_at actions top_parser nth nargs_match kind
       subparsers_action option_strings count_dashes length slices firstn
       take_actions].
  rewrite length_map, firstn_all.
  unfold take_action at 1.
  cbn [action_at actions top_parser nth kind subparsers_action].
  unfold check_value. cbn [choices subparsers_action].
  rewrite (dict_get_mem _ _ _ Hp).
  assert (Hcs : call_subparser sp (name :: m :: rest)
                = parse_known_args p no_sub (m :: rest))
    by (unfold call_subparser; now rewrite Hp).
  rewrite Hcs.
  rewrite (parse_known_args_help_raises p no_sub m rest i _ _ e
             (classify_marker p m rest i Hm Hr Hi) eq_refl Hk Hph).
  cbn [helps app]. unfold conclude. cbn [helps].
  now rewrite as_parser_error_idem.
Qed.

End CommandHelp.

Section HelpRegistered.

Context {formatter : Formatter}.

Lemma new_parser_helpful name : helpful name (new_parser name).
Proof.
  split; [reflexivity|].
  split; exists 0; (split; [reflexivity|]); split; [cbn; lia | reflexivity | cbn; lia | reflexivity].
Qed.

Lemma dict_get_set_names {V} (names : list pystr) k (v : V) d :
  ~ In k names ->
  dict_get k (fold_left (fun m s => dict_set s v m) names d) = dict_get k d.
Proof.
  revert d; induction names as [|s names IH]; intros d H; cbn [fold_left];
    [reflexivity|].
  rewrite IH by (intros Hin; apply H; now right).
  apply dict_get_set_other. intros ->. apply H. now left.
Qed.

Lemma add_action_prog p a p' : add_action p a = Ok p' -> prog p' = prog p.
Proof.
  unfold add_action. destruct (conflicts p a) as [|s [|s' l]]; try discriminate.
  now intros [= <-].
Qed.

Lemma add_action_help_bound p a p' m :
  add_action p a = Ok p' -> help_bound p m -> help_bound p' m.
Proof.
  unfold add_action. destruct (conflicts p a) as [|s [|s' l]] eqn:Ec; try discriminate.
  intros [= <-] (i & Hi & Hlt & Hk). exists i. cbn [option_string_actions actions].
  split; [| split].
  - rewrite dict_get_set_names; [exact Hi|].
    intros Hin. unfold conflicts in Ec.
    assert (Hf : In m (filter (fun s => dict_has s (option_string_actions p))
                          (option_strings a))).
    { apply filter_In. split; [exact Hin|]. unfold dict_has. now rewrite Hi. }
    rewrite Ec in Hf. exact Hf.
  - rewrite length_app. lia.
  - rewrite app_nth1 by exact Hlt. exact Hk.
Qed.

Lemma add_argument_add_action p args kw p' :
  ArgParse.add_argument p args kw = Ok p' -> exists a, add_action p a = Ok p'.
Proof.
  unfold ArgParse.add_argument. destruct args as [|first more]; [discriminate|].
  destruct (match more, first with
            | [], [] => Raise (mkExn IndexError (py "string index out of range"))
            | [], c :: _ => Ok (negb (is_dash c))
            | _ :: _, _ => Ok false
            end) as [positional|e]; cbn [bind]; [| discriminate].
  destruct (if positional
            then Ok ([], first)
            else _ <- check_option_strings (first :: more) ;;
                 d <- optional_dest (first :: more) ;;
                 Ok (first :: more, d)) as [[names d]|e]; cbn [bind];
    [| discriminate].
  destruct (kw_action kw) as [[|]|]; try (intros H; eexists; exact H).
  destruct (kw_type kw); [discriminate|]. intros H; eexists; exact H.
Qed.

Lemma add_argument_helpful name p args kw p' :
  ArgParse.add_argument p args kw = Ok p' -> helpful name p -> helpful name p'.
Proof.
  intros H (Hn & Hs & Hl). destruct (add_argument_add_action _ _ _ _ H) as [a Ha].
  split; [| split].
  - now rewrite (add_action_prog _ _ _ Ha).
  - exact (add_action_help_bound _ _ _ _ Ha Hs).
  - exact (add_action_help_bound _ _ _ _ Ha Hl).
Qed.

Lemma add_arguments_helpful name specs p :
  helpful name p -> helpful name (fst (add_arguments p specs)).
Proof.
  revert p; induction specs as [|[args kw] specs IH]; intros p H;
    cbn [add_arguments]; [exact H|].
  destruct (ArgParse.add_argument p args kw) as [p'|e] eqn:E; [| exact H].
  apply IH. exact (add_argument_helpful name p args kw p' E H).
Qed.

Lemma set_defaults_help_bound p k v m :
  help_bound p m -> help_bound (set_defaults p k v) m.
Proof.
  intros (i & Hi & Hlt & Hk). exists i.
  cbn [set_defaults option_string_actions actions].
  split; [exact Hi|]. split; [now rewrite length_map|].
  set (f := fun a : Action =>
              match dest a with
              | Some d =>
                  if pystr_eqb d k
                  then mkAction (option_strings a) (dest a) (kind a) (type_ a)
                         (Some v) (required a) (choices a) (action_help a)
                         (subactions a)
                  else a
              | None => a
              end).
  change help_action with (f help_action). rewrite map_nth.
  change (f help_action) with help_action.
  unfold f. destruct (dest _); [destruct (pystr_eqb _ _)|]; exact Hk.
Qed.

Lemma set_defaults_helpful name p k v :
  helpful name p -> helpful name (set_defaults p k v).
Proof.
  intros (Hn & Hs & Hl). split; [exact Hn|].
  split; apply set_defaults_help_bound; assumption.
Qed.

Lemma all_helpful_set sp name p ca :
  all_helpful sp -> helpful name p ->
  all_helpful (mkSubParsers (dict_set name p (name_parser_map sp)) ca).
Proof.
  intros Hall Hp name' p'. cbn [name_parser_map].
  destruct (pystr_eqb name name') eqn:E.
  - apply pystr_eqb_eq in E; subst name'. rewrite dict_get_set_same.
    now intros [= <-].
  - apply pystr_eqb_neq in E. rewrite dict_get_set_other by congruence.
    apply Hall.
Qed.

Lemma add_parser_all_helpful cc sp name help :
  all_helpful sp -> all_helpful (fst (add_parser cc sp name help)).
Proof.
  intros H. unfold add_parser.
  destruct (cc && dict_has name (name_parser_map sp)); cbn [fst]; [exact H|].
  apply all_helpful_set; [exact H | apply new_parser_helpful].
Qed.

Lemma add_parser_helpful cc sp name help sp' p :
  add_parser cc sp name help = (sp', Ok p) -> helpful name p.
Proof.
  unfold add_parser. destruct (cc && dict_has name (name_parser_map sp));
    [discriminate|].
  intros [= _ <-]. apply new_parser_helpful.
Qed.

(** Registration keeps every registered parser helpful, also when it
    raises half-way. *)
Lemma add_command_all_helpful cc h c r :
  all_helpful (subparsers c) ->
  all_helpful (subparsers (fst (add_command cc h c r))).
Proof.
  intros H. unfold add_command.
  destruct (deref h r) as [cmd|]; [| exact H].
  destruct (func cmd); [| exact H].
  pose proof (add_parser_all_helpful cc (subparsers c) (name cmd) (help cmd) H) as H1.
  destruct (add_parser cc (subparsers c) (name cmd) (help cmd)) as [sp [parser|e]]
    eqn:E; cbn [fst] in H1; [| exact H1].
  pose proof (add_parser_helpful _ _ _ _ _ _ E) as Hp.
  pose proof (add_arguments_helpful (name cmd) (values (arguments cmd)) parser Hp)
    as H2.
  destruct (add_arguments parser (values (arguments cmd))) as [parser' [u|e]];
    cbn [fst subparsers bind_parser with_subparsers] in *.
  - apply all_helpful_set; [exact H1|]. now apply set_defaults_helpful.
  - apply all_helpful_set; [exact H1 | exact H2].
Qed.

Lemma built_all_helpful c : built c -> all_helpful (subparsers c).
Proof.
  induction 1 as [hello te | cc h c r _ IH].
  - intros name p. cbn. discriminate.
  - now apply add_command_all_helpful.
Qed.

Lemma helpful_marker name p m :
  helpful name p -> has_help [m] = true -> help_bound p m.
Proof.
  intros (_ & Hs & Hl) Hm. now destruct (has_help_one m Hm) as [-> | ->].
Qed.

(** On a console made by the constructor and [add_command], a registered
    name followed by the help marker prints the help of that command,
    unless printing it raises. *)
Lemma built_command_help c name m rest p :
  built c -> plain name = true ->
  dict_get name (name_parser_map (subparsers c)) = Some p ->
  has_help [m] = true -> forallb plain rest = true ->
  match print_help p with
  | None =>
      exists hs, fst (parse_args (subparsers c) (name :: m :: rest)) = name :: hs
  | Some e =>
      parse_args (subparsers c) (name :: m :: rest) = ([], Raise (as_parser_error e))
  end.
Proof.
  intros Hb Hd Hp Hm Hr.
  pose proof (built_all_helpful c Hb name p Hp) as Hh.
  destruct (print_help p) as [e|] eqn:Hph.
  - exact (parse_args_command_help_raises (subparsers c) name m rest p e Hd Hp Hm Hr
             (helpful_marker name p m Hh Hm) Hph).
  - destruct (parse_args_command_help (subparsers c) name m rest p Hd Hp Hm Hr
                (helpful_marker name p m Hh Hm) Hph) as [hs Hs].
    exists hs. rewrite Hs. now destruct Hh as [-> _].
Qed.

Lemma register_built cc build st :
  built (snd st) -> built (snd (register cc build st)).
Proof.
  intros H. unfold register. destruct (build (fst st)) as [h [r|e]]; cbn [snd].
  - now apply built_add_command.
  - exact H.
Qed.

Lemma main_console_built : built main_console.
Proof.
  unfold main_console, main_state. repeat apply register_built. apply built_init.
Qed.

Lemma sale_console_built : built sale_console.
Proof.
  unfold sale_console, sale_state, main_state. repeat apply register_built.
  apply built_init.
Qed.

End HelpRegistered.

(* ================================================================== *)
(** ** Properties of the tokenizer *)
(* ================================================================== *)

(** C3 (as amended).  On a line made of items separated by blanks (only
    the first item may start the line), where every bare word is free of
    blanks and double quotes and is not the text [fill], and every quoted
    span is not empty, holds class characters only and does not both begin
    and end with a space, [extract_args] returns the items in order: a bare
    word as it is, a quoted span as its content without the quotes.  The
    number of tokens is the number of words plus the number of spans. *)
Theorem extract_args_of_well_formed_line (l : list (pystr * item)) (trail : pystr) :
  line_ok l trail = true -> fill_free l = true ->
  extract_args (render l trail) = Ok (map (fun p => item_token (snd p)) l)
  /\ length (map (fun p => item_token (snd p)) l) = count_words l + count_spans l.
Proof.
  intros Hl Hf. split.
  - now apply extract_args_render.
  - rewrite length_map. apply count_items.
Qed.

(** The line [say "hello world" now] of the spec. *)
Lemma extract_args_of_well_formed_line_witness :
  let l := [([], Word (py "say")); (py " ", Quoted (py "hello world"));
            (py " ", Word (py "now"))] in
  line_ok l [] = true /\ fill_free l = true
  /\ render l [] = py "say " ++ quote (py "hello world") ++ py " now"
  /\ extract_args (render l [])
     = Ok [py "say"; py "hello world"; py "now"].
Proof.
  cbv zeta. split; [reflexivity|]. split; [reflexivity|]. split; [reflexivity|].
  exact (proj1 (extract_args_of_well_formed_line
                  [([], Word (py "say")); (py " ", Quoted (py "hello world"));
                   (py " ", Word (py "now"))] [] eq_refl eq_refl)).
Defined.

(** C3 as stated fails: an empty quoted span keeps its quotes; a span that
    is one space takes the text between the two spans after it for
    itself, which leaves two tokens for three spans; a span glued to a
    word comes back as the word followed by [fill]. *)
Lemma extract_args_spans_misread :
  extract_args (py "say " ++ quote []) = Ok [py "say"; quote []]
  /\ extract_args (quote (py " ") ++ py " " ++ quote (py "a") ++ py " " ++ quote (py "b"))
     = Ok [py " "; quote (py "a" ++ fill ++ py "b")]
  /\ extract_args (py "x" ++ quote (py "a b")) = Ok [py "x" ++ fill].
Proof. repeat split; vm_compute; reflexivity. Qed.

(** C4.  [extract_args] raises on the line that is the text [fill]: the
    token equals [fill], no span was found, and [b_args[0]] is out of
    range.  With a span in the line, a word [fill] takes the span's
    content and the span's own token is left as [fill]. *)
Theorem extract_args_fill_raises :
  extract_args fill = Raise (mkExn IndexError (py "list index out of range"))
  /\ extract_args (fill ++ py " x" ++ quote (py "a"))
     = Ok [py "a"; py "x" ++ fill].
Proof. split; vm_compute; reflexivity. Qed.

(* ================================================================== *)
(** ** Properties of registration *)
(* ================================================================== *)

(** C10.  [add_argument] files the spec under the bare name in the
    command's [arguments] dictionary and returns the object it was called
    on.  A bare name that is a key already keeps its place and takes the
    new spec, a new one goes to the end; the other keys keep their specs,
    and no other command object changes. *)
Theorem add_argument_rebinds_bare_name
    (h : heap) (self : ref) (cmd : QRCommand) (name bare : pystr)
    (args : list pystr) (kw : kwargs) :
  deref h self = Some cmd -> bare_name name = Ok bare ->
  let spec := (stored_names name bare args, kw) in
  let cmd' := mkCommand (Command.name cmd) (help cmd)
                (dict_set bare spec (arguments cmd)) (func cmd) in
  Command.add_argument h self name args kw = (update h self cmd', Ok self)
  /\ deref (update h self cmd') self = Some cmd'
  /\ (forall r, r <> self -> deref (update h self cmd') r = deref h r)
  /\ dict_get bare (arguments cmd') = Some spec
  /\ (forall k, k <> bare -> dict_get k (arguments cmd') = dict_get k (arguments cmd))
  /\ keys (arguments cmd')
     = if dict_has bare (arguments cmd)
       then keys (arguments cmd)
       else keys (arguments cmd) ++ [bare].
Proof.
  intros Hd Hb spec cmd'. split; [exact (add_argument_eq h self cmd name args kw bare Hd Hb)|].
  split; [exact (deref_update_same h self cmd cmd' Hd)|].
  split; [intros r Hr; exact (deref_update_other h self r cmd' Hr)|].
  subst cmd'. cbn [arguments].
  split; [apply dict_get_set_same|].
  split; [intros k Hk; exact (dict_get_set_other bare k spec (arguments cmd) Hk)|].
  destruct (dict_has bare (arguments cmd)) eqn:E.
  - now apply keys_set_present.
  - now apply keys_set_absent.
Qed.

(** [.add_argument('x', type=int)] after [.add_argument('-x')]: the key
    ['x'] is there, its spec is replaced. *)
Lemma add_argument_rebinds_bare_name_witness :
  let h := fst (Command.add_argument (fst (new [] (py "cmd") None None)) 0
                  (py "-x") [] (kw None None None None)) in
  let cmd := mkCommand (py "cmd") None
               [(py "x", ([py "-x"; py "-x"; py "--x"], kw None None None None))]
               None in
  deref h 0 = Some cmd /\ bare_name (py "x") = Ok (py "x")
  /\ Command.add_argument h 0 (py "x") [] (kw (Some Tint) None None None)
     = (update h 0
          (mkCommand (py "cmd") None
             [(py "x", ([py "x"], kw (Some Tint) None None None))] None),
        Ok 0)
  /\ keys (dict_set (py "x") ([py "x"], kw (Some Tint) None None None) (arguments cmd))
     = [py "x"].
Proof.
  cbv zeta. split; [reflexivity|]. split; [reflexivity|].
  pose proof (add_argument_rebinds_bare_name
                (fst (Command.add_argument (fst (new [] (py "cmd") None None)) 0
                        (py "-x") [] (kw None None None None))) 0
                (mkCommand (py "cmd") None
                   [(py "x", ([py "-x"; py "-x"; py "--x"], kw None None None None))]
                   None)
                (py "x") (py "x") [] (kw (Some Tint) None None None)
                eq_refl eq_refl) as (H1 & _ & _ & _ & _ & H6).
  split; [exact H1 | exact H6].
Defined.

(** C6.  [add_command] on a command whose [func] is [None] raises
    [Exception("command '<name>' has no function set!")] and leaves the
    console as it was: the parsers, their names and [commands]. *)
Theorem add_command_without_func
    (conflict_check : bool) (h : heap) (c : QRConsole) (r : ref) (cmd : QRCommand) :
  deref h r = Some cmd -> func cmd = None ->
  add_command conflict_check h c r
  = (c, Raise (mkExn Exception_
                 (py "command '" ++ name cmd ++ py "' has no function set!"))).
Proof. intros Hd Hf. unfold add_command. now rewrite Hd, Hf. Qed.

(** [console.add_command(QRCommand('nop'))] on the module's own console. *)
Lemma add_command_without_func_witness :
  deref (fst (nop_cmd main_heap)) 3 = Some (mkCommand (py "nop") None [] None)
  /\ func (mkCommand (py "nop") None [] None) = None
  /\ add_command false (fst (nop_cmd main_heap)) main_console 3
     = (main_console,
        Raise (mkExn Exception_ (py "command 'nop' has no function set!"))).
Proof.
  split; [reflexivity|]. split; [reflexivity|].
  exact (add_command_without_func false (fst (nop_cmd main_heap)) main_console 3
           (mkCommand (py "nop") None [] None) eq_refl eq_refl).
Defined.

(** C5 (as amended).  [add_command] does not look the name up itself; what
    happens to a command whose name is registered is up to [add_parser].
    Where [add_parser] refuses the name (CPython 3.11 and later) the call
    raises [ArgumentError] and the console is as it was.  Where it does
    not (CPython 3.6 to 3.10), the name plays no part in whether the call
    raises; when the arguments register, the command is appended to
    [commands] and the name, at its old place among the names, is bound to
    the new parser, whose default [func] calls the new command. *)
Theorem add_command_same_name
    (h : heap) (c : QRConsole) (r : ref) (cmd : QRCommand) (f : handler) :
  deref h r = Some cmd -> func cmd = Some f ->
  dict_has (name cmd) (name_parser_map (subparsers c)) = true ->
  add_command true h c r
  = (c, Raise (argument_error (subparsers_action (subparsers c))
                 (py "conflicting subparser: " ++ name cmd)))
  /\ snd (add_command false h c r)
     = snd (add_arguments (new_parser (name cmd)) (values (arguments cmd)))
  /\ forall p1,
       add_arguments (new_parser (name cmd)) (values (arguments cmd)) = (p1, Ok tt) ->
       commands (fst (add_command false h c r)) = commands c ++ [r]
       /\ dict_get (name cmd) (name_parser_map (subparsers (fst (add_command false h c r))))
          = Some (set_defaults p1 (py "func") (VFunc r))
       /\ dict_get (py "func") (defaults (set_defaults p1 (py "func") (VFunc r)))
          = Some (VFunc r)
       /\ keys (name_parser_map (subparsers (fst (add_command false h c r))))
          = keys (name_parser_map (subparsers c)).
Proof.
  intros Hd Hf Hk. split; [| split].
  - unfold add_command. rewrite Hd, Hf.
    rewrite (add_parser_strict_duplicate _ _ _ Hk).
    now rewrite with_subparsers_same.
  - unfold add_command. rewrite Hd, Hf, add_parser_legacy.
    now destruct (add_arguments _ _) as [p1 [[]|e]].
  - intros p1 Hp. unfold add_command. rewrite Hd, Hf, add_parser_legacy, Hp.
    cbn [fst commands subparsers bind_parser with_subparsers name_parser_map
         set_defaults defaults].
    split; [reflexivity|]. split; [apply dict_get_set_same|].
    split; [apply dict_get_set_same|].
    rewrite keys_set_present by apply dict_has_set.
    now apply keys_set_present.
Qed.

(** A second [add] on the module's own console. *)
Lemma add_command_same_name_witness :
  deref (fst (other_add_cmd main_heap)) 3
  = Some (mkCommand (py "add") None
            [(py "a", ([py "a"], kw (Some Tint) None None None));
             (py "b", ([py "b"], kw (Some Tint) None None None))]
            (Some sub_func))
  /\ dict_has (py "add") (name_parser_map (subparsers main_console)) = true
  /\ add_command true (fst (other_add_cmd main_heap)) main_console 3
     = (main_console,
        Raise (mkExn ArgumentError
                 (py "argument {add,sub,one}: conflicting subparser: add")))
  /\ snd (add_command false (fst (other_add_cmd main_heap)) main_console 3) = Ok tt.
Proof.
  split; [reflexivity|]. split; [reflexivity|].
  pose proof (add_command_same_name (fst (other_add_cmd main_heap)) main_console 3
                (mkCommand (py "add") None
                   [(py "a", ([py "a"], kw (Some Tint) None None None));
                    (py "b", ([py "b"], kw (Some Tint) None None None))]
                   (Some sub_func))
                sub_func eq_refl eq_refl eq_refl) as (H1 & H2 & _).
  split; [exact H1 | exact H2].
Defined.

(** C5 as stated fails with the [argparse] of CPython 3.6 to 3.10: a
    second command [add] is accepted, and from then on the line
    [add 5 3] reaches the second handler (it prints 2) where it reached
    the first (which prints 8). *)
Lemma second_add_replaces_first :
  snd (add_command false (fst (other_add_cmd main_heap)) main_console 3) = Ok tt
  /\ read_line parse_args main_heap main_console (Line (py "add 5 3"))
     = ([Prompt (py "?>"); Called 0 [VInt 5; VInt 3]; Printed (py "8")], Continue)
  /\ read_line parse_args (fst (other_add_cmd main_heap))
       (fst (add_command false (fst (other_add_cmd main_heap)) main_console 3))
       (Line (py "add 5 3"))
     = ([Prompt (py "?>"); Called 3 [VInt 5; VInt 3]; Printed (py "2")], Continue).
Proof. repeat split; vm_compute; reflexivity. Qed.

(* ================================================================== *)
(** ** Properties of dispatch *)
(* ================================================================== *)

(** C1 (as amended).  On a line whose tokens hold [-h] or [--help],
    [__read_line] calls no handler and prints no error, whatever the
    evaluator does with the tokens: after the prompt, the output is the
    help the evaluator printed before it returned or raised, and nothing
    else; the loop goes on unless the evaluator raised what is no
    [Exception].  With [argparse] as the evaluator: when the marker is
    the first token, the help of the whole shell is printed first; when
    the marker follows a registered name that does not begin with a dash,
    and only words that are no options follow the marker, the help of
    that command is printed first.  In both cases, when printing that
    help raises, the line prints nothing at all. *)
Theorem help_line_runs_no_handler
    {formatter : Formatter} (parse : evaluator) (h : heap) (c : QRConsole)
    (line : pystr) (s : list pystr) :
  extract_args line = Ok s -> has_help s = true ->
  read_line parse h c (Line line)
  = (Prompt (py "?>") :: map HelpPrinted (fst (parse (subparsers c) s)),
     help_outcome (snd (parse (subparsers c) s)))
  /\ (forall r vs, ~ In (Called r vs) (fst (read_line parse h c (Line line))))
  /\ (forall m rest,
        s = m :: rest -> has_help [m] = true ->
        match print_help (top_parser (subparsers c)) with
        | None =>
            exists evs,
              fst (read_line parse_args h c (Line line))
              = Prompt (py "?>") :: HelpPrinted (py "PROG") :: evs
        | Some e =>
            read_line parse_args h c (Line line)
            = ([Prompt (py "?>")], help_outcome (Raise (as_parser_error e)))
        end)
  /\ (forall name m rest p,
        s = name :: m :: rest -> built c -> plain name = true ->
        dict_get name (name_parser_map (subparsers c)) = Some p ->
        has_help [m] = true -> forallb plain rest = true ->
        match print_help p with
        | None =>
            exists evs,
              fst (read_line parse_args h c (Line line))
              = Prompt (py "?>") :: HelpPrinted name :: evs
        | Some e =>
            read_line parse_args h c (Line line)
            = ([Prompt (py "?>")], help_outcome (Raise (as_parser_error e)))
        end).
Proof.
  intros Hs Hh. rewrite (read_line_help parse h c line s Hs Hh).
  split; [reflexivity|]. split; [intros r vs; apply no_call_in_helps|].
  rewrite (read_line_help parse_args h c line s Hs Hh). split.
  - intros m rest -> Hm.
    destruct (print_help (top_parser (subparsers c))) as [e|] eqn:Hph.
    + now rewrite (parse_args_help_raises (subparsers c) m rest e Hm Hph).
    + destruct (parse_args_help_first (subparsers c) m rest Hm Hph) as [hs Ehs].
      cbn [fst]. rewrite Ehs. exists (map HelpPrinted hs). reflexivity.
  - intros name m rest p -> Hb Hn Hp Hm Hr.
    pose proof (built_command_help c name m rest p Hb Hn Hp Hm Hr) as H.
    destruct (print_help p) as [e|].
    + now rewrite H.
    + destruct H as [hs Ehs]. cbn [fst]. rewrite Ehs.
      exists (map HelpPrinted hs). reflexivity.
Qed.

(** The line [add -h] on the module's own console: the help of [add], and
    the complaint about the missing [a] and [b] is dropped.  The line
    [-h add 1 2]: the help of the shell, and [add] is not called.  On the
    console with the command [sale], whose help text is [50% off], the
    line [-h] prints nothing, and [sale -h] prints the help of [sale]. *)
Lemma help_line_runs_no_handler_witness :
  extract_args (py "add -h") = Ok [py "add"; py "-h"]
  /\ has_help [py "add"; py "-h"] = true
  /\ parse_args (subparsers main_console) [py "add"; py "-h"]
     = ([py "add"],
        Raise (mkExn ArgumentParserError
                 (py "the following arguments are required: a, b")))
  /\ read_line parse_args main_heap main_console (Line (py "add -h"))
     = ([Prompt (py "?>"); HelpPrinted (py "add")], Continue)
  /\ (exists evs,
        fst (read_line parse_args main_heap main_console (Line (py "add -h")))
        = Prompt (py "?>") :: HelpPrinted (py "add") :: evs)
  /\ parse_args (subparsers main_console) [py "-h"; py "add"; py "1"; py "2"]
     = ([py "PROG"],
        Ok [(py "a", VInt 1); (py "b", VInt 2); (py "func", VFunc 0)])
  /\ (exists evs,
        fst (read_line parse_args main_heap main_console (Line (py "-h add 1 2")))
        = Prompt (py "?>") :: HelpPrinted (py "PROG") :: evs)
  /\ read_line (parse_args (formatter := sale_formatter)) sale_heap sale_console
       (Line (py "-h"))
     = ([Prompt (py "?>")], Continue)
  /\ (exists evs,
        fst (read_line (parse_args (formatter := sale_formatter)) sale_heap
               sale_console (Line (py "sale -h")))
        = Prompt (py "?>") :: HelpPrinted (py "sale") :: evs).
Proof.
  split; [reflexivity|]. split; [reflexivity|]. split; [vm_compute; reflexivity|].
  split; [| split; [| split; [vm_compute; reflexivity|]]].
  - exact (proj1 (help_line_runs_no_handler parse_args main_heap main_console
                    (py "add -h") [py "add"; py "-h"] eq_refl eq_refl)).
  - exact (proj2 (proj2 (proj2
             (help_line_runs_no_handler parse_args main_heap main_console
                (py "add -h") [py "add"; py "-h"] eq_refl eq_refl)))
             (py "add") (py "-h") [] (command_parser add_object 0)
             eq_refl main_console_built eq_refl eq_refl eq_refl eq_refl).
  - split; [| split].
    + exact (proj1 (proj2 (proj2
               (help_line_runs_no_handler parse_args main_heap main_console
                  (py "-h add 1 2") [py "-h"; py "add"; py "1"; py "2"]
                  eq_refl eq_refl)))
               (py "-h") [py "add"; py "1"; py "2"] eq_refl eq_refl).
    + exact (proj1 (proj2 (proj2
               (help_line_runs_no_handler (formatter := sale_formatter)
                  (parse_args (formatter := sale_formatter)) sale_heap sale_console
                  (py "-h") [py "-h"] eq_refl eq_refl)))
               (py "-h") [] eq_refl eq_refl).
    + exact (proj2 (proj2 (proj2
               (help_line_runs_no_handler (formatter := sale_formatter)
                  (parse_args (formatter := sale_formatter)) sale_heap sale_console
                  (py "sale -h") [py "sale"; py "-h"] eq_refl eq_refl)))
               (py "sale") (py "-h") [] (command_parser
                                          (mkCommand (py "sale") (Some (py "50% off"))
                                             [(py "n", ([py "n"],
                                                        kw (Some Tint) None None None))]
                                             (Some echo_func)) 3)
               eq_refl sale_console_built eq_refl eq_refl eq_refl eq_refl).
Defined.

(** C1 as stated fails: on [frobnicate -h], where no command name stands
    before the marker, [argparse] refuses the first token before it comes
    to [-h]; no help is printed, and the error is dropped because the
    line holds a help marker.  On [add 1 -- -h] the marker stands after
    [--] and is read as the value of [b]: no help either, and the
    complaint about the value is dropped as well. *)
Lemma help_marker_without_help :
  extract_args (py "frobnicate -h") = Ok [py "frobnicate"; py "-h"]
  /\ has_help [py "frobnicate"; py "-h"] = true
  /\ read_line parse_args main_heap main_console (Line (py "frobnicate -h"))
     = ([Prompt (py "?>")], Continue)
  /\ read_line parse_args main_heap main_console (Line (py "add 1 -- -h"))
     = ([Prompt (py "?>")], Continue).
Proof. repeat split; vm_compute; reflexivity. Qed.

(** C2 (as amended).  With [throw_errors] unset: an exception raised in
    the [try] block that is an [Exception], whether [input], the
    tokenizer, the evaluator or a handler raised it, is printed once, in
    red, followed by the reset, and [__read_line] returns; on a line whose
    tokens hold a help marker it is dropped instead, and nothing is
    printed for it.  An exception that is no [Exception] goes through
    [__read_line] and nothing is printed for it.  So the loop of [run] is
    about to read again after any inputs whose [try] blocks raise nothing
    but [Exception]s.  A line that is one token which is no option and no
    registered name gets [argparse]'s invalid-choice message, which holds
    the [repr] of the token. *)
Theorem report_mode_keeps_reading
    {formatter : Formatter} (parse : evaluator) (h : heap) (c : QRConsole) :
  throw_errors c = false ->
  (forall i evs ih e,
     try_block parse h c i = (evs, ih, Raise e) -> is_exception e = true ->
     read_line parse h c i
     = (if not_help ih then evs ++ error_report e else evs, Continue)
     /\ (not_help ih = false ->
         exists line s, i = Line line /\ extract_args line = Ok s
                        /\ has_help s = true))
  /\ (forall i evs ih e,
        try_block parse h c i = (evs, ih, Raise e) -> is_exception e = false ->
        read_line parse h c i = (evs, Escape e))
  /\ (forall i, caught parse h c i -> snd (read_line parse h c i) = Continue)
  /\ (forall inputs,
        Forall (caught parse h c) inputs -> snd (run parse h c inputs) = Running)
  /\ (forall c0 t,
        is_dash c0 = false ->
        extract_args (c0 :: t) = Ok [c0 :: t] ->
        dict_has (c0 :: t) (name_parser_map (subparsers c)) = false ->
        read_line parse_args h c (Line (c0 :: t))
        = (Prompt (py "?>") :: error_report (invalid_choice (subparsers c) (c0 :: t)),
           Continue)).
Proof.
  intros Ht. split; [| split; [| split; [| split]]].
  - intros i evs ih e H He. split.
    + rewrite (read_line_raise parse h c i evs ih e H He), Ht.
      now destruct (not_help ih).
    + destruct ih as [[|]|]; try discriminate. intros _.
      exact (try_block_help parse h c i evs (Raise e) H).
  - exact (read_line_escape parse h c).
  - intros i. now apply read_line_report_mode.
  - intros inputs. now apply run_report_mode.
  - intros c0 t Hd Hs Hk. unfold read_line, try_block. rewrite Hs.
    rewrite (parse_args_unknown_command (subparsers c) c0 t Hd Hk).
    assert (Hh : has_help [c0 :: t] = false).
    { unfold has_help, mem, is_dash in *. cbn [existsb].
      change (py "-h") with (45%N :: py "h").
      change (py "--help") with (45%N :: py "-help").
      cbn [pystr_eqb]. now rewrite (N.eqb_sym 45 c0), Hd. }
    rewrite Hh, Ht. reflexivity.
Qed.

(** The lines [frobnicate] and [it's] on the module's own console. *)
Lemma report_mode_keeps_reading_witness :
  throw_errors main_console = false
  /\ read_line parse_args main_heap main_console (Line (py "frobnicate"))
     = ([Prompt (py "?>");
         Printed (RED ++ py "argument {add,sub,one}: invalid choice: 'frobnicate' (choose from 'add', 'sub', 'one')");
         Written RESET_ALL],
        Continue)
  /\ read_line parse_args main_heap main_console (Line (py "it's"))
     = ([Prompt (py "?>");
         Printed (RED ++ py "argument {add,sub,one}: invalid choice: "
                  ++ [34%N] ++ py "it's" ++ [34%N]
                  ++ py " (choose from 'add', 'sub', 'one')");
         Written RESET_ALL],
        Continue)
  /\ snd (run parse_args main_heap main_console
            [Line (py "frobnicate"); Line (py "add 1 2")]) = Running.
Proof.
  split; [reflexivity|].
  pose proof (report_mode_keeps_reading parse_args main_heap main_console eq_refl)
    as (_ & _ & _ & H4 & H5).
  split; [| split].
  - exact (H5 102%N (py "robnicate") eq_refl eq_refl eq_refl).
  - exact (H5 105%N (py "t's") eq_refl eq_refl eq_refl).
  - apply H4.
    apply Forall_cons; [| apply Forall_cons; [| apply Forall_nil]];
      intros evs ih e H; vm_compute in H;
      first [discriminate H | injection H as _ _ <-; reflexivity].
Defined.

(** C2 as stated fails: what a handler raises is not always caught.  On
    the console with the command [quit], whose handler calls
    [sys.exit(0)], the line [quit] makes [SystemExit] go through
    [__read_line] and [run] with [throw_errors] unset: nothing is
    reported, and the next line is not read.  Ctrl-C at the prompt goes
    through in the same way. *)
Lemma handler_exit_goes_through :
  throw_errors quit_console = false
  /\ try_block parse_args quit_heap quit_console (Line (py "quit"))
     = ([Prompt (py "?>"); Called 3 []], Some false,
        Raise (mkExn SystemExit (py "0")))
  /\ read_line parse_args quit_heap quit_console (Line (py "quit"))
     = ([Prompt (py "?>"); Called 3 []], Escape (mkExn SystemExit (py "0")))
  /\ run parse_args quit_heap quit_console [Line (py "quit"); Line (py "add 1 2")]
     = ([Prompt (py "?>"); Called 3 []], Escaped (mkExn SystemExit (py "0")))
  /\ read_line parse_args main_heap main_console Interrupt
     = ([Prompt (py "?>")], Escape (mkExn KeyboardInterrupt [])).
Proof. repeat split; vm_compute; reflexivity. Qed.

(** C7 (as amended).  At the end of input [input] raises [EOFError], and
    [__read_line] treats it as any error of a line: it prints
    [EOF when reading a line] in red; with [throw_errors] unset the loop
    reads again, however often the end of input is met, and with
    [throw_errors] set the process exits with status 1 at the first. *)
Theorem end_of_input_is_reported (parse : evaluator) (h : heap) (c : QRConsole) :
  read_line parse h c EOF
  = (Prompt (py "?>") :: error_report (mkExn EOFError (py "EOF when reading a line")),
     if throw_errors c then Exit 1 else Continue)
  /\ forall n,
       snd (run parse h c (repeat EOF n))
       = if throw_errors c
         then match n with O => Running | S _ => Exited 1 end
         else Running.
Proof.
  split; [reflexivity|].
  intros n. destruct (throw_errors c) eqn:Ht.
  - destruct n as [|n]; [reflexivity|].
    cbn [repeat]. rewrite run_cons, read_line_eof, Ht. reflexivity.
  - apply run_report_mode; [exact Ht|]. apply Forall_forall.
    intros i Hi. apply repeat_spec in Hi. subst i. apply caught_eof.
Qed.

(** C7 as stated fails: after the end of input is met three times the
    loop of the module's own console is still about to read, having
    printed the same error three times. *)
Lemma end_of_input_keeps_looping :
  run parse_args main_heap main_console [EOF; EOF; EOF]
  = ([Prompt (py "?>"); Printed (RED ++ py "EOF when reading a line"); Written RESET_ALL;
      Prompt (py "?>"); Printed (RED ++ py "EOF when reading a line"); Written RESET_ALL;
      Prompt (py "?>"); Printed (RED ++ py "EOF when reading a line"); Written RESET_ALL],
     Running).
Proof. vm_compute; reflexivity. Qed.

(** C8 (as amended).  An [Exception] raised in the [try] block of a line
    whose tokens hold no help marker is printed, and then the process
    exits with status 1 when [throw_errors] is set and the loop goes on
    when it is not; on a line with a help marker it is dropped and the
    loop goes on in either mode.  An exception that is no [Exception]
    goes through [__read_line] and ends the loop in either mode.  A line
    whose [try] block raises nothing never ends the loop.  The loop ends
    in no other way: through [sys.exit(1)] under [throw_errors], or by
    an exception that is no [Exception] which [input], the evaluator or a
    handler raised. *)
Theorem throw_mode_exits_on_reported_errors
    (parse : evaluator) (h : heap) (c : QRConsole) :
  (forall i evs ih e,
     try_block parse h c i = (evs, ih, Raise e) -> is_exception e = true ->
     read_line parse h c i
     = if not_help ih
       then (evs ++ error_report e, if throw_errors c then Exit 1 else Continue)
       else (evs, Continue))
  /\ (forall i evs ih e,
        try_block parse h c i = (evs, ih, Raise e) -> is_exception e = false ->
        read_line parse h c i = (evs, Escape e))
  /\ (forall i evs ih,
        try_block parse h c i = (evs, ih, Ok tt) ->
        read_line parse h c i = (evs, Continue))
  /\ (forall inputs,
        Forall (fun i => exists evs ih, try_block parse h c i = (evs, ih, Ok tt)) inputs ->
        snd (run parse h c inputs) = Running)
  /\ (forall inputs code,
        snd (run parse h c inputs) = Exited code ->
        code = 1%Z /\ throw_errors c = true)
  /\ (forall inputs e,
        snd (run parse h c inputs) = Escaped e ->
        is_exception e = false
        /\ exists i evs ih,
             In i inputs /\ try_block parse h c i = (evs, ih, Raise e)).
Proof.
  split; [| split; [| split; [| split; [| split]]]].
  - exact (read_line_raise parse h c).
  - exact (read_line_escape parse h c).
  - exact (read_line_ok parse h c).
  - intros inputs H. apply run_all_continue.
    eapply Forall_impl; [| exact H]. cbn beta.
    intros i (evs & ih & Hi). now rewrite (read_line_ok parse h c i evs ih Hi).
  - exact (run_exit parse h c).
  - exact (run_escaped parse h c).
Qed.

(** The line [add 1 a] on the module's own console, made with
    [throw_errors=True] and as it is. *)
Lemma throw_mode_exits_on_reported_errors_witness :
  try_block parse_args main_heap (throwing main_console) (Line (py "add 1 a"))
  = ([Prompt (py "?>")], Some false,
     Raise (mkExn ArgumentParserError (py "argument b: invalid int value: 'a'")))
  /\ read_line parse_args main_heap (throwing main_console) (Line (py "add 1 a"))
     = ([Prompt (py "?>");
         Printed (RED ++ py "argument b: invalid int value: 'a'");
         Written RESET_ALL],
        Exit 1)
  /\ read_line parse_args main_heap main_console (Line (py "add 1 a"))
     = ([Prompt (py "?>");
         Printed (RED ++ py "argument b: invalid int value: 'a'");
         Written RESET_ALL],
        Continue).
Proof.
  split; [vm_compute; reflexivity|]. split.
  - exact (proj1 (throw_mode_exits_on_reported_errors parse_args main_heap
                    (throwing main_console))
             (Line (py "add 1 a")) [Prompt (py "?>")] (Some false)
             (mkExn ArgumentParserError (py "argument b: invalid int value: 'a'"))
             eq_refl eq_refl).
  - exact (proj1 (throw_mode_exits_on_reported_errors parse_args main_heap main_console)
             (Line (py "add 1 a")) [Prompt (py "?>")] (Some false)
             (mkExn ArgumentParserError (py "argument b: invalid int value: 'a'"))
             eq_refl eq_refl).
Defined.

(** C8 as stated fails: on the console with the command [quit], whose
    handler calls [sys.exit(0)], the loop ends on the line [quit] though
    no line before it failed and [throw_errors] is unset; with
    [throw_errors] set it ends in the same way, with the status of the
    handler and not with 1. *)
Lemma quit_command_ends_the_loop :
  throw_errors quit_console = false
  /\ run parse_args quit_heap quit_console
       [Line (py "add 1 2"); Line (py "quit"); Line (py "add 1 2")]
     = ([Prompt (py "?>"); Called 0 [VInt 1; VInt 2]; Printed (py "3");
         Prompt (py "?>"); Called 3 []],
        Escaped (mkExn SystemExit (py "0")))
  /\ run parse_args quit_heap (throwing quit_console) [Line (py "quit")]
     = ([Prompt (py "?>"); Called 3 []], Escaped (mkExn SystemExit (py "0"))).
Proof. repeat split; vm_compute; reflexivity. Qed.

(* ================================================================== *)
(** ** Lines without double quotes *)
(* ================================================================== *)

Section QuoteFreeLines.

(** The tokens of [split]: not empty, no blank in them, and made of
    characters of the text. *)
Lemma split_from_tokens cur s w :
  forallb (fun c => negb (is_space c)) cur = true ->
  In w (split_from cur s) ->
  w <> [] /\ forallb (fun c => negb (is_space c)) w = true
  /\ forall c, In c w -> In c (cur ++ s).
Proof.
  revert cur w; induction s as [|c s IH]; intros cur w Hcur Hw;
    cbn [split_from] in Hw.
  - destruct cur as [|c0 cur]; [easy|]. destruct Hw as [<- | []].
    repeat split; [easy | exact Hcur |]. intros c Hc. now rewrite app_nil_r.
  - destruct (is_space c) eqn:Ec.
    + assert (Hnil : In w (split_from [] s) ->
                w <> [] /\ forallb (fun c => negb (is_space c)) w = true
                /\ forall c', In c' w -> In c' (cur ++ c :: s)).
      { intros Hw'. destruct (IH [] w eq_refl Hw') as (H1 & H2 & H3).
        repeat split; auto. intros c' Hc'. apply in_or_app. right. right.
        exact (H3 c' Hc'). }
      destruct cur as [|c0 cur]; [now apply Hnil|].
      destruct Hw as [<- | Hw]; [| now apply Hnil].
      repeat split; [easy | exact Hcur |].
      intros c' Hc'. apply in_or_app. now left.
    + assert (Hcur' : forallb (fun c => negb (is_space c)) (cur ++ [c]) = true).
      { rewrite forallb_app, Hcur. cbn. now rewrite Ec. }
      destruct (IH (cur ++ [c]) w Hcur' Hw) as (H1 & H2 & H3).
      repeat split; auto. intros c' Hc'. specialize (H3 c' Hc').
      now rewrite <- app_assoc in H3.
Qed.

Lemma split_tokens_plain s w :
  dq_free s -> In w (split s) -> plain_word w = true.
Proof.
  intros Hs Hw. destruct (split_from_tokens [] s w eq_refl Hw) as (H1 & H2 & H3).
  unfold plain_word. destruct w as [|c0 w]; [easy|]. cbn [nonempty andb].
  apply forallb_forall. intros c Hc.
  rewrite (proj1 (forallb_forall _ _) H2 c Hc). cbn [andb].
  apply negb_true_iff, N.eqb_neq.
  exact (proj1 (Forall_forall _ _) Hs c (H3 c Hc)).
Qed.

Lemma findall_dq_free s : dq_free s -> findall s = [].
Proof.
  intros Hs. unfold findall. rewrite <- (app_nil_r s).
  now rewrite findall_from_pass.
Qed.

Lemma resubstitute_without_fill b_args i args :
  forallb (fun a => negb (pystr_eqb a fill)) args = true ->
  resubstitute b_args i args = Ok args.
Proof.
  induction args as [|a args IH]; intros H; [reflexivity|].
  cbn in H. apply andb_true_iff in H as [Ha Hargs].
  cbn [resubstitute]. apply negb_true_iff in Ha. rewrite Ha, (IH Hargs).
  reflexivity.
Qed.

Lemma render_spaced sp ws :
  render (spaced sp ws) []
  = match ws with [] => [] | _ :: _ => sp ++ join (py " ") ws end.
Proof.
  revert sp; induction ws as [|w ws IH]; intros sp; [reflexivity|].
  change (render (spaced sp (w :: ws)) [])
    with (sp ++ w ++ render (spaced (py " ") ws) []).
  rewrite IH. destruct ws as [|w' ws]; [now rewrite app_nil_r | reflexivity].
Qed.

Lemma join_render ws : join (py " ") ws = render (spaced [] ws) [].
Proof. rewrite render_spaced. now destruct ws. Qed.

Lemma spaced_ok sp ws :
  sp = py " " ->
  Forall (fun w => plain_word w = true) ws -> tail_ok (spaced sp ws) = true.
Proof.
  intros ->. induction 1 as [|w ws Hw _ IH]; [reflexivity|].
  unfold tail_ok in *. cbn [spaced forallb]. rewrite IH.
  unfold entry_ok. cbn [fst snd item_ok]. now rewrite Hw.
Qed.

Lemma spaced_line_ok ws :
  Forall (fun w => plain_word w = true) ws -> line_ok (spaced [] ws) [] = true.
Proof.
  intros H. unfold line_ok. cbn [blank forallb]. rewrite andb_true_r.
  destruct H as [|w ws Hw Hws]; [reflexivity|].
  cbn [spaced head_ok]. rewrite (spaced_ok (py " ") ws eq_refl Hws).
  unfold entry_ok. cbn [fst snd item_ok blank forallb negb orb andb].
  now rewrite Hw.
Qed.

Lemma spaced_fill_free sp ws :
  forallb (fun a => negb (pystr_eqb a fill)) ws = true ->
  fill_free (spaced sp ws) = true.
Proof.
  revert sp; induction ws as [|w ws IH]; intros sp H; [reflexivity|].
  cbn in H. apply andb_true_iff in H as [Hw Hws].
  unfold fill_free in *. cbn [spaced forallb snd]. now rewrite Hw, IH.
Qed.

Lemma spaced_tokens sp ws : map (fun p => item_token (snd p)) (spaced sp ws) = ws.
Proof.
  revert sp; induction ws as [|w ws IH]; intros sp; [reflexivity|].
  cbn [spaced map snd item_token]. now rewrite IH.
Qed.

End QuoteFreeLines.

(** X4.  On a line without double quotes none of whose blank-separated
    words is the text [fill], [extract_args] is [split]; joining the
    tokens with single spaces and tokenizing again gives the same
    tokens. *)
Theorem extract_args_without_quotes (s : pystr) :
  dq_free s ->
  forallb (fun a => negb (pystr_eqb a fill)) (split s) = true ->
  extract_args s = Ok (split s)
  /\ extract_args (join (py " ") (split s)) = Ok (split s).
Proof.
  intros Hs Hf. split.
  - unfold extract_args. rewrite (findall_dq_free s Hs). cbn [map fold_left].
    now apply resubstitute_without_fill.
  - rewrite join_render.
    rewrite extract_args_render.
    + now rewrite spaced_tokens.
    + apply spaced_line_ok. apply Forall_forall. intros w Hw.
      exact (split_tokens_plain s w Hs Hw).
    + now apply spaced_fill_free.
Qed.

(** The line [add 1 2] of the spec, with blanks to spare. *)
Lemma extract_args_without_quotes_witness :
  dq_free (py "  add 1   2 ")
  /\ split (py "  add 1   2 ") = [py "add"; py "1"; py "2"]
  /\ extract_args (py "  add 1   2 ") = Ok (split (py "  add 1   2 "))
  /\ extract_args (join (py " ") (split (py "  add 1   2 ")))
     = Ok (split (py "  add 1   2 ")).
Proof.
  assert (H : dq_free (py "  add 1   2 ")).
  { apply Forall_forall. intros c Hc Heq. subst c. vm_compute in Hc.
    repeat (destruct Hc as [Hc | Hc]; [discriminate Hc|]). exact Hc. }
  split; [exact H|]. split; [reflexivity|].
  exact (extract_args_without_quotes (py "  add 1   2 ") H eq_refl).
Defined.

(* ================================================================== *)
(** ** Facts about [extract_args] on any line *)
(* ================================================================== *)

Section Totality.

Lemma group_ok_inv c : group_ok c = true -> c <> [] /\ forallb in_class c = true.
Proof.
  unfold group_ok. intros H. apply andb_true_iff in H as [H1 H2].
  split; [now apply nonempty_true | exact H2].
Qed.

Lemma span_class_spec s body rest :
  span_class s = (body, rest) ->
  s = body ++ rest /\ forallb in_class body = true.
Proof.
  revert body rest; induction s as [|c s IH]; intros body rest H; cbn in H.
  - now injection H as <- <-.
  - destruct (in_class c) eqn:Ec.
    + destruct (span_class s) as [b r]. injection H as <- <-.
      destruct (IH b r eq_refl) as [-> Hb]. cbn. now rewrite Ec.
    + now injection H as <- <-.
Qed.

Lemma match_here_inv s body :
  match_here s = Some body ->
  group_ok body = true /\ exists rest, s = dq :: body ++ dq :: rest.
Proof.
  unfold match_here. destruct s as [|c s]; [discriminate|].
  destruct (N.eqb c dq) eqn:Ec; [| discriminate]. apply N.eqb_eq in Ec; subst c.
  destruct (span_class s) as [b r] eqn:Es.
  destruct (span_class_spec s b r Es) as [-> Hb].
  destruct b as [|x b]; [discriminate|]. destruct r as [|c' r]; [discriminate|].
  destruct (N.eqb c' dq) eqn:Ec'; [| discriminate]. apply N.eqb_eq in Ec'; subst c'.
  intros [= <-]. split; [| now exists r].
  unfold group_ok. now rewrite Hb.
Qed.

Lemma match_here_hit c rest :
  group_ok c = true -> match_here (dq :: c ++ dq :: rest) = Some c.
Proof.
  intros H. destruct (group_ok_inv c H) as [Hne Hc].
  cbn [match_here]. rewrite N.eqb_refl, (span_class_stop c rest Hc).
  destruct c; [easy|]. now rewrite N.eqb_refl.
Qed.

(** The three ways [findall] moves on. *)
Lemma findall_other x s : x <> dq -> findall (x :: s) = findall s.
Proof.
  intros H. unfold findall. cbn [findall_from match_here].
  apply N.eqb_neq in H. now rewrite H.
Qed.

Lemma findall_miss s : match_here (dq :: s) = None -> findall (dq :: s) = findall s.
Proof. intros H. unfold findall. cbn [findall_from]. now rewrite H. Qed.

Lemma findall_hit c rest :
  group_ok c = true -> findall (dq :: c ++ dq :: rest) = c :: findall rest.
Proof.
  intros H. destruct (group_ok_inv c H) as [Hne Hc].
  rewrite <- quote_app. now apply findall_from_span.
Qed.

Lemma findall_pass pre s : dq_free pre -> findall (pre ++ s) = findall s.
Proof. apply findall_from_pass. Qed.

Lemma findall_from_groups skip s x :
  In x (findall_from skip s) -> group_ok x = true.
Proof.
  revert skip; induction s as [|c s IH]; intros skip H; cbn [findall_from] in H;
    [easy|].
  destruct skip as [|k]; [| exact (IH k H)].
  destruct (match_here (c :: s)) as [body|] eqn:E; [| exact (IH 0 H)].
  destruct H as [<- | H]; [| exact (IH _ H)].
  exact (proj1 (match_here_inv _ _ E)).
Qed.

(** Every group [findall] returns is one class character or more. *)
Lemma findall_groups s : Forall (fun x => group_ok x = true) (findall s).
Proof. apply Forall_forall. intros x. apply findall_from_groups. Qed.

Lemma group_dq_free c : group_ok c = true -> dq_free c.
Proof. intros H. apply dq_free_class. exact (proj2 (group_ok_inv c H)). Qed.

(** A double quote put in front of a text adds no more than one match and
    takes none away. *)
Lemma findall_quote_front m :
  forall v, length v <= m ->
    length (findall v) <= length (findall (dq :: v))
    /\ length (findall (dq :: v)) <= 1 + length (findall v).
Proof.
  induction m as [|m IH]; intros v Hv.
  - destruct v; [| cbn in Hv; lia]. cbn. lia.
  - destruct (match_here (dq :: v)) as [body|] eqn:E.
    + destruct (match_here_inv _ _ E) as [Hb [rest Hr]].
      injection Hr as ->.
      rewrite (findall_hit body rest Hb).
      rewrite (findall_pass body (dq :: rest) (group_dq_free body Hb)).
      assert (Hl : length rest <= m).
      { rewrite length_app in Hv. cbn in Hv. lia. }
      destruct (IH rest Hl) as [H1 H2]. cbn [length]. lia.
    + rewrite (findall_miss v E). lia.
Qed.

Lemma dq_free_or_first s :
  dq_free s \/ exists a b, s = a ++ dq :: b /\ dq_free a.
Proof.
  induction s as [|c s [IH | (a & b & -> & Ha)]].
  - left. constructor.
  - destruct (N.eq_dec c dq) as [-> | Hc].
    + right. exists [], s. split; [reflexivity | constructor].
    + left. now constructor.
  - destruct (N.eq_dec c dq) as [-> | Hc].
    + right. exists [], (a ++ dq :: b). split; [reflexivity | constructor].
    + right. exists (c :: a), b. split; [reflexivity | now constructor].
Qed.

Lemma fill_dq_free : dq_free fill.
Proof. repeat constructor; discriminate. Qed.

(** A group that ends before the text [fill] ends before it. *)
Lemma group_before_fill body u t rest :
  forallb in_class body = true ->
  u ++ fill ++ t = body ++ dq :: rest ->
  exists u', u = body ++ dq :: u' /\ rest = u' ++ fill ++ t.
Proof.
  revert u; induction body as [|b body IH]; intros u Hb E.
  - destruct u as [|y u]; [discriminate E|].
    cbn in E. injection E as -> E. now exists u.
  - cbn in Hb. apply andb_true_iff in Hb as [Hb1 Hb2].
    destruct u as [|y u].
    + cbn in E. injection E as <- _. discriminate Hb1.
    + cbn in E. injection E as -> E.
      destruct (IH u Hb2 E) as [u' [-> ->]]. now exists u'.
Qed.

(** Replacing a quoted group by [fill] takes one match away, or more. *)
Lemma findall_sealed_one c v m :
  group_ok c = true ->
  forall u, length u <= m ->
    length (findall (u ++ fill ++ v)) + 1 <= length (findall (u ++ quote c ++ v)).
Proof.
  intros Hc. induction m as [|m IH]; intros u Hu.
  - destruct u; [| cbn in Hu; lia]. cbn [app].
    rewrite (findall_pass fill v fill_dq_free).
    rewrite quote_app, (findall_hit c v Hc). cbn [length]. lia.
  - destruct (dq_free_or_first u) as [Hfree | (a & u' & -> & Ha)].
    + rewrite (findall_pass u _ Hfree), (findall_pass u _ Hfree).
      rewrite (findall_pass fill v fill_dq_free).
      rewrite quote_app, (findall_hit c v Hc). cbn [length]. lia.
    + rewrite <- !app_assoc. rewrite !(findall_pass a _ Ha). cbn [app].
      assert (Hl : length u' <= m).
      { rewrite length_app in Hu. cbn in Hu. lia. }
      destruct (match_here (dq :: u' ++ fill ++ v)) as [body|] eqn:E.
      * destruct (match_here_inv _ _ E) as [Hb [rest Hr]].
        injection Hr as Hr.
        destruct (group_before_fill body u' v rest
                    (proj2 (group_ok_inv body Hb)) Hr) as [u'' [-> ->]].
        rewrite <- !app_assoc. cbn [app].
        rewrite !(findall_hit body _ Hb). cbn [length].
        assert (Hl' : length u'' <= m).
        { rewrite length_app in Hl. cbn in Hl. lia. }
        specialize (IH u'' Hl'). lia.
      * rewrite (findall_miss _ E).
        destruct (match_here (dq :: u' ++ quote c ++ v)) as [body|] eqn:E'.
        -- destruct (match_here_inv _ _ E') as [Hb [rest Hr]].
           injection Hr as Hr.
           change (dq :: (c ++ [dq]) ++ v) with (quote c ++ v) in Hr.
           rewrite quote_app in Hr.
           destruct (dq_free_or_first u') as [Hfree | (a' & u'' & -> & Ha')].
           ++ destruct (first_quote_unique u' (c ++ dq :: v) body rest Hfree
                          (group_dq_free body Hb) Hr) as [-> <-].
              rewrite quote_app, (findall_hit body _ Hb).
              rewrite (findall_pass c _ (group_dq_free c Hc)).
              rewrite (findall_pass body _ (group_dq_free body Hb)).
              rewrite (findall_pass fill v fill_dq_free).
              pose proof (findall_quote_front (length v) v (le_n _)) as [H1 _].
              cbn [length]. lia.
           ++ rewrite <- app_assoc in Hr. cbn [app] in Hr.
              destruct (first_quote_unique a' _ body rest Ha'
                          (group_dq_free body Hb) Hr) as [-> _].
              rewrite <- app_assoc in E. cbn [app] in E.
              rewrite (match_here_hit body _ Hb) in E. discriminate E.
        -- rewrite (findall_miss _ E'). exact (IH u' Hl).
Qed.


(** *** The words of a text around a place in it *)

Lemma split_from_app_space cur a sp b :
  is_space sp = true ->
  split_from cur (a ++ sp :: b) = split_from cur a ++ split_from [] b.
Proof.
  intros Hsp. revert cur; induction a as [|c a IH]; intros cur; cbn [app split_from].
  - rewrite Hsp. now destruct cur.
  - destruct (is_space c); [| apply IH].
    destruct cur; rewrite IH; reflexivity.
Qed.

(** A text up to its last blank, and the word it ends in. *)
Lemma last_word u :
  exists u1 tu, u = u1 ++ tu /\ no_space tu = true
                /\ forall w, split (u1 ++ w) = split u1 ++ split w.
Proof.
  induction u as [|c u (u1 & tu & -> & Ht & Hs)] using rev_ind.
  - exists [], []. repeat split.
  - destruct (is_space c) eqn:Ec.
    + exists ((u1 ++ tu) ++ [c]), []. rewrite app_nil_r. repeat split.
      intros w. unfold split. rewrite <- app_assoc. cbn [app].
      rewrite (split_from_app_space [] (u1 ++ tu) c w Ec).
      rewrite (split_from_app_space [] (u1 ++ tu) c [] Ec).
      cbn [split_from]. now rewrite app_nil_r.
    + exists u1, (tu ++ [c]). rewrite app_assoc. repeat split; [| exact Hs].
      unfold no_space in *. rewrite forallb_app, Ht. cbn. now rewrite Ec.
Qed.

(** The word a text begins with, and the text from its first blank. *)
Lemma first_word v :
  exists hv v1, v = hv ++ v1 /\ no_space hv = true
                /\ forall w, split (w ++ v1) = split w ++ split v1.
Proof.
  induction v as [|c v (hv & v1 & -> & Hh & Hs)].
  - exists [], []. repeat split. intros w. cbn. now rewrite !app_nil_r.
  - destruct (is_space c) eqn:Ec.
    + exists [], (c :: hv ++ v1). repeat split.
      intros w. unfold split.
      rewrite (split_from_app_space [] w c (hv ++ v1) Ec).
      cbn [split_from]. now rewrite Ec.
    + exists (c :: hv), v1. repeat split; [| exact Hs].
      unfold no_space in *. cbn. now rewrite Ec, Hh.
Qed.

Lemma split_word w : w <> [] -> no_space w = true -> split w = [w].
Proof.
  intros Hne Hw. unfold split. rewrite <- (app_nil_r w).
  rewrite split_from_word by exact Hw. cbn [app split_from].
  destruct w; [now contradiction Hne | now rewrite app_nil_r].
Qed.

Lemma count_fill_app a b : count_fill (a ++ b) = count_fill a + count_fill b.
Proof. unfold count_fill. now rewrite filter_app, length_app. Qed.

Lemma fill_no_space : no_space fill = true.
Proof. reflexivity. Qed.

(** Replacing a quoted group by [fill] makes one word [fill] more, or
    none. *)
Lemma count_fill_sealed_one u c v :
  count_fill (split (u ++ fill ++ v)) <= 1 + count_fill (split (u ++ quote c ++ v)).
Proof.
  destruct (last_word u) as (u1 & tu & -> & Ht & Hu).
  destruct (first_word v) as (hv & v1 & -> & Hh & Hv).
  assert (E : forall x, (u1 ++ tu) ++ x ++ hv ++ v1 = u1 ++ (tu ++ x ++ hv) ++ v1).
  { intros x. now rewrite <- !app_assoc. }
  rewrite !E, !Hu, !Hv, !count_fill_app.
  assert (H1 : count_fill (split (tu ++ fill ++ hv)) <= 1).
  { rewrite split_word.
    - unfold count_fill. cbn [filter]. destruct (pystr_eqb _ _); cbn; lia.
    - destruct tu; discriminate.
    - unfold no_space in *. now rewrite !forallb_app, Ht, Hh. }
  lia.
Qed.

(** *** What the first loop of [extract_args] does to the counts *)

Lemma sealed_counts s s' :
  sealed s s' ->
  length (findall s') + count_fill (split s')
  <= length (findall s) + count_fill (split s).
Proof.
  induction 1 as [s | u c v s' Hc _ IH]; [lia|].
  pose proof (findall_sealed_one c v (length u) Hc u (le_n _)).
  pose proof (count_fill_sealed_one u c v). lia.
Qed.

Lemma sealed_prefix x s s' : sealed s s' -> sealed (x ++ s) (x ++ s').
Proof.
  induction 1 as [s | u c v s' Hc _ IH]; [constructor|].
  rewrite app_assoc. apply sealed_step; [exact Hc|]. now rewrite <- app_assoc.
Qed.

Lemma sealed_trans a b c : sealed a b -> sealed b c -> sealed a c.
Proof.
  induction 1 as [s | u x v s' Hx _ IH]; [auto|].
  intros H. apply sealed_step; auto.
Qed.

Lemma replace_from_sealed c m :
  group_ok c = true ->
  forall s, length s <= m -> sealed s (replace_from (quote c) fill 0 s).
Proof.
  intros Hc. induction m as [|m IH]; intros s Hs.
  - destruct s; [constructor | cbn in Hs; lia].
  - destruct s as [|x s]; [constructor|].
    destruct (starts_with (quote c) (x :: s)) eqn:E.
    + destruct (starts_with_inv _ _ E) as [y Hy]. rewrite Hy.
      rewrite replace_from_hit by discriminate.
      apply (sealed_step [] c y); [exact Hc|]. cbn [app].
      apply sealed_prefix. apply IH.
      apply (f_equal (@length _)) in Hy. rewrite length_app in Hy.
      unfold quote in Hy. cbn [length] in Hy, Hs. lia.
    + rewrite (replace_from_miss _ _ _ _ E).
      apply (sealed_prefix [x]). apply IH. cbn in Hs. lia.
Qed.

Lemma replace_sealed c s :
  group_ok c = true -> sealed s (replace (quote c) fill s).
Proof. intros Hc. exact (replace_from_sealed c (length s) Hc s (le_n _)). Qed.

Lemma replace_all_sealed cs s :
  Forall (fun c => group_ok c = true) cs ->
  sealed s (fold_left (fun s b => replace b fill s) (map quote cs) s).
Proof.
  intros H; revert s; induction H as [|c cs Hc _ IH]; intros s; [constructor|].
  cbn [map fold_left].
  exact (sealed_trans _ _ _ (replace_sealed c s Hc) (IH _)).
Qed.

(** The second loop has a match for every word [fill] as long as there
    are no more such words than matches left. *)
Lemma resubstitute_in_range b_args args :
  forall i, i + count_fill args <= length b_args ->
  exists toks, resubstitute b_args i args = Ok toks.
Proof.
  induction args as [|a args IH]; intros i H; [now exists []|].
  cbn [resubstitute]. unfold count_fill in H. cbn [filter] in H.
  destruct (pystr_eqb a fill).
  - cbn [length] in H.
    destruct (nth_error b_args i) as [b|] eqn:E.
    + destruct (IH (S i)) as [toks ->]; [unfold count_fill; lia|].
      cbn [bind]. eauto.
    + apply nth_error_None in E. lia.
  - destruct (IH i H) as [toks ->]. cbn [bind]. eauto.
Qed.

Lemma count_fill_none args :
  forallb (fun a => negb (pystr_eqb a fill)) args = true -> count_fill args = 0.
Proof.
  unfold count_fill. induction args as [|a args IH]; [reflexivity|].
  cbn [forallb filter]. intros H. apply andb_true_iff in H as [Ha Hr].
  apply negb_true_iff in Ha. rewrite Ha. auto.
Qed.

Lemma extract_args_returns s :
  forallb (fun a => negb (pystr_eqb a fill)) (split s) = true ->
  exists toks, extract_args s = Ok toks.
Proof.
  intros H. unfold extract_args.
  apply resubstitute_in_range. rewrite length_map. cbn [Nat.add].
  pose proof (sealed_counts _ _ (replace_all_sealed (findall s) s (findall_groups s))).
  rewrite (count_fill_none _ H) in *. lia.
Qed.

End Totality.

Section TokenShape.

Context {formatter : Formatter}.

(** What the second loop returns: the words as they are, and contents of
    matches. *)
Lemma resubstitute_tokens b_args args :
  forall i toks t,
    resubstitute b_args i args = Ok toks -> In t toks ->
    In t args \/ exists b, In b b_args /\ t = slice_1_m1 b.
Proof.
  induction args as [|a args IH]; intros i toks t H Ht; cbn [resubstitute] in H.
  - injection H as <-. destruct Ht.
  - destruct (pystr_eqb a fill).
    + destruct (nth_error b_args i) as [b|] eqn:E; [| discriminate].
      destruct (resubstitute b_args (S i) args) as [rest|e] eqn:Er; [| discriminate].
      cbn [bind] in H. injection H as <-. destruct Ht as [<- | Ht].
      * right. exists b. split; [exact (nth_error_In _ _ E) | reflexivity].
      * destruct (IH (S i) rest t Er Ht) as [H | H]; [left; now right | now right].
    + destruct (resubstitute b_args i args) as [rest|e] eqn:Er; [| discriminate].
      cbn [bind] in H. injection H as <-. destruct Ht as [<- | Ht].
      * left. now left.
      * destruct (IH i rest t Er Ht) as [H | H]; [left; now right | now right].
Qed.

Lemma resubstitute_length b_args args :
  forall i toks, resubstitute b_args i args = Ok toks -> length toks = length args.
Proof.
  induction args as [|a args IH]; intros i toks H; cbn [resubstitute] in H.
  - now injection H as <-.
  - destruct (pystr_eqb a fill).
    + destruct (nth_error b_args i); [| discriminate].
      destruct (resubstitute b_args (S i) args) as [rest|e] eqn:Er; [| discriminate].
      cbn [bind] in H. injection H as <-. cbn [length]. f_equal. exact (IH _ _ Er).
    + destruct (resubstitute b_args i args) as [rest|e] eqn:Er; [| discriminate].
      cbn [bind] in H. injection H as <-. cbn [length]. f_equal. exact (IH _ _ Er).
Qed.

Lemma resubstitute_raises b_args args :
  forall i e, resubstitute b_args i args = Raise e ->
              e = mkExn IndexError (py "list index out of range").
Proof.
  induction args as [|a args IH]; intros i e H; cbn [resubstitute] in H;
    [discriminate|].
  destruct (pystr_eqb a fill).
  - destruct (nth_error b_args i); [| now injection H as <-].
    destruct (resubstitute b_args (S i) args) as [rest|e'] eqn:Er; [discriminate|].
    cbn [bind] in H. injection H as <-. exact (IH _ _ Er).
  - destruct (resubstitute b_args i args) as [rest|e'] eqn:Er; [discriminate|].
    cbn [bind] in H. injection H as <-. exact (IH _ _ Er).
Qed.

Lemma extract_args_shape s toks t :
  extract_args s = Ok toks -> In t toks ->
  t <> [] /\ (no_space t = true \/ forallb in_class t = true).
Proof.
  unfold extract_args. intros H Ht.
  destruct (resubstitute_tokens _ _ _ _ _ H Ht) as [Hin | (b & Hb & ->)].
  - destruct (split_from_tokens [] _ t eq_refl Hin) as (H1 & H2 & _).
    split; [exact H1 | now left].
  - apply in_map_iff in Hb as (c & <- & Hc). rewrite slice_quote.
    pose proof (proj1 (Forall_forall _ _) (findall_groups s) c Hc) as Hg.
    destruct (group_ok_inv c Hg) as [Hne Hcl]. split; [exact Hne | now right].
Qed.

Lemma blank_split s : blank s = true -> split s = [].
Proof.
  intros H. unfold split. rewrite <- (app_nil_r s).
  now rewrite split_from_blank.
Qed.

Lemma blank_extract_args s : blank s = true -> extract_args s = Ok [].
Proof.
  intros H. unfold extract_args.
  rewrite (findall_dq_free s (dq_free_blank s H)). cbn [map fold_left].
  now rewrite (blank_split s H).
Qed.

Lemma parse_args_nothing sp : parse_args sp [] = ([], Ok []).
Proof. reflexivity. Qed.

Lemma blank_line parse_h c s :
  blank s = true ->
  read_line parse_args parse_h c (Line s) = ([Prompt (py "?>")], Continue).
Proof.
  intros H. unfold read_line, try_block. rewrite (blank_extract_args s H).
  rewrite parse_args_nothing. reflexivity.
Qed.

End TokenShape.

(* ================================================================== *)
(** ** More facts about registration and about [run] *)
(* ================================================================== *)

Section RegistrationMore.

Lemma add_action_defaults p a p' : add_action p a = Ok p' -> defaults p' = defaults p.
Proof. intros H. apply add_action_inv in H. now subst p'. Qed.

Lemma add_arguments_defaults specs p :
  defaults (fst (add_arguments p specs)) = defaults p.
Proof.
  revert p; induction specs as [|[args kw] specs IH]; intros p; cbn [add_arguments];
    [reflexivity|].
  destruct (ArgParse.add_argument p args kw) as [p'|e] eqn:E; [| reflexivity].
  rewrite IH. destruct (add_argument_add_action _ _ _ _ E) as [a Ha].
  exact (add_action_defaults _ _ _ Ha).
Qed.

Lemma dict_has_set_other {V} k k' (v : V) d :
  dict_has k d = true -> dict_has k (dict_set k' v d) = true.
Proof.
  unfold dict_has. intros H. destruct (pystr_eqb k' k) eqn:E.
  - apply pystr_eqb_eq in E; subst. now rewrite dict_get_set_same.
  - apply pystr_eqb_neq in E. rewrite dict_get_set_other by congruence. exact H.
Qed.

Lemma add_command_frame cc h c r :
  hello (fst (add_command cc h c r)) = hello c
  /\ throw_errors (fst (add_command cc h c r)) = throw_errors c
  /\ commands (fst (add_command cc h c r))
     = commands c ++ match snd (add_command cc h c r) with
                     | Ok _ => [r]
                     | Raise _ => []
                     end
  /\ (forall n, dict_has n (name_parser_map (subparsers c)) = true ->
                dict_has n (name_parser_map (subparsers (fst (add_command cc h c r))))
                = true)
  /\ (forall cmd n, deref h r = Some cmd -> n <> name cmd ->
        dict_get n (name_parser_map (subparsers (fst (add_command cc h c r))))
        = dict_get n (name_parser_map (subparsers c))).
Proof.
  unfold add_command. destruct (deref h r) as [cmd|] eqn:Hd.
  2:{ cbn [fst snd]. rewrite app_nil_r. repeat split; auto; intros; discriminate. }
  destruct (func cmd).
  2:{ cbn [fst snd]. rewrite app_nil_r. repeat split; auto. }
  unfold add_parser.
  destruct (cc && dict_has (name cmd) (name_parser_map (subparsers c))).
  { cbn [fst snd with_subparsers hello throw_errors commands subparsers].
    rewrite app_nil_r. repeat split; auto. }
  destruct (add_arguments (new_parser (name cmd)) (values (arguments cmd)))
    as [p1 [u|e]];
    cbn [fst snd with_subparsers bind_parser hello throw_errors commands subparsers
         name_parser_map]; rewrite ?app_nil_r;
    (split; [reflexivity|]); (split; [reflexivity|]); (split; [reflexivity|]);
    (split; [intros n Hn; now do 2 apply dict_has_set_other|]);
    intros cmd' n [= <-] Hn; now rewrite !dict_get_set_other by congruence.
Qed.

Lemma failed_registration cc h c r cmd f p1 e :
  deref h r = Some cmd -> func cmd = Some f ->
  cc && dict_has (name cmd) (name_parser_map (subparsers c)) = false ->
  add_arguments (new_parser (name cmd)) (values (arguments cmd)) = (p1, Raise e) ->
  snd (add_command cc h c r) = Raise e
  /\ commands (fst (add_command cc h c r)) = commands c
  /\ dict_get (name cmd) (name_parser_map (subparsers (fst (add_command cc h c r))))
     = Some p1
  /\ defaults p1 = []
  /\ helpful (name cmd) p1.
Proof.
  intros Hd Hf Hcc Hp. unfold add_command, add_parser. rewrite Hd, Hf, Hcc, Hp.
  cbn [fst snd with_subparsers bind_parser commands subparsers name_parser_map].
  split; [reflexivity|]. split; [reflexivity|]. split; [apply dict_get_set_same|].
  pose proof (add_arguments_defaults (values (arguments cmd)) (new_parser (name cmd)))
    as H1.
  pose proof (add_arguments_helpful (name cmd) (values (arguments cmd))
                (new_parser (name cmd)) (new_parser_helpful _)) as H2.
  rewrite Hp in H1, H2. split; [exact H1 | exact H2].
Qed.

(** *** The name [argparse] files a value under *)

Lemma lstrip_dashes_plain s : plain s = true -> lstrip_dashes s = s.
Proof. destruct s as [|c s]; [reflexivity|]. cbn. intros H. apply negb_true_iff in H. now rewrite H. Qed.

Lemma is_long_full b : is_long (full_name b) = true.
Proof. reflexivity. Qed.

Lemma is_long_short c b : is_long (short_name (c :: b)) = is_dash c.
Proof. reflexivity. Qed.

Lemma lstrip_dashes_full b : lstrip_dashes (full_name b) = lstrip_dashes b.
Proof. reflexivity. Qed.

Lemma optional_dest_first_long n rest b :
  is_long n = true -> lstrip_dashes n = b -> nonempty b = true ->
  optional_dest (n :: rest) = Ok (underscored b).
Proof.
  intros Hl Hs Hne. unfold optional_dest. cbn [filter]. rewrite Hl, Hs.
  destruct b; [discriminate | reflexivity].
Qed.

Lemma optional_dest_second_long n1 n2 rest b :
  is_long n1 = false -> is_long n2 = false ->
  optional_dest (n1 :: n2 :: full_name b :: rest)
  = optional_dest (full_name b :: rest).
Proof.
  intros H1 H2. unfold optional_dest. cbn [filter]. rewrite H1, H2, is_long_full.
  reflexivity.
Qed.

Lemma optional_dest_stored name bare args :
  is_optional_name name = true -> bare_name name = Ok bare ->
  nonempty bare = true -> plain bare = true ->
  optional_dest (stored_names name bare args) = Ok (underscored bare).
Proof.
  intros Ho Hb Hne Hp. unfold stored_names. rewrite Ho.
  destruct (bare_name_optional name Ho) as (bare' & Hb' & Hform).
  rewrite Hb in Hb'. injection Hb' as <-.
  destruct Hform as [-> | ->].
  - destruct bare as [|c bare]; [discriminate|].
    cbn [plain] in Hp. apply negb_true_iff in Hp.
    rewrite optional_dest_second_long by (rewrite is_long_short; exact Hp).
    apply optional_dest_first_long; [reflexivity | | exact Hne].
    rewrite lstrip_dashes_full. cbn [lstrip_dashes]. now rewrite Hp.
  - apply optional_dest_first_long; [reflexivity | | exact Hne].
    rewrite lstrip_dashes_full. now apply lstrip_dashes_plain.
Qed.

Lemma add_argument_dest p n1 n2 rest kw p' d :
  optional_dest (n1 :: n2 :: rest) = Ok d ->
  ArgParse.add_argument p (n1 :: n2 :: rest) kw = Ok p' ->
  dest (nth (length (actions p)) (actions p') help_action) = Some d.
Proof.
  intros Hd. unfold ArgParse.add_argument. cbn [bind].
  destruct (check_option_strings (n1 :: n2 :: rest)); cbn [bind]; [| discriminate].
  rewrite Hd. cbn [bind].
  assert (G : forall act, dest act = Some d -> add_action p act = Ok p' ->
              dest (nth (length (actions p)) (actions p') help_action) = Some d).
  { intros act Ha H. apply add_action_inv in H. subst p'. cbn [actions].
    rewrite app_nth2 by lia. now rewrite Nat.sub_diag. }
  destruct (kw_action kw) as [[|]|]; try (apply G; reflexivity).
  destruct (kw_type kw); [discriminate|]. apply G; reflexivity.
Qed.

Lemma underscored_same s :
  underscored s = s <-> forallb (fun c => negb (is_dash c)) s = true.
Proof.
  induction s as [|c s IH]; cbn; [easy|].
  destruct (is_dash c) eqn:E; cbn.
  - split; [| discriminate]. intros [= H _]. unfold is_dash in E.
    apply N.eqb_eq in E. subst c. discriminate H.
  - split.
    + intros [= H]. now apply IH.
    + intros H. f_equal. now apply IH.
Qed.

Lemma bound_values_missing data names k :
  In k names -> dict_get k data = None ->
  exists k', In k' names /\ dict_get k' data = None
             /\ bound_values data names = Raise (mkExn KeyError (repr_str k')).
Proof.
  induction names as [|n names IH]; intros Hin Hk; [destruct Hin|].
  cbn [bound_values]. destruct (dict_get n data) as [v|] eqn:En.
  - destruct Hin as [-> | Hin]; [congruence|].
    destruct (IH Hin Hk) as (k' & H1 & H2 & ->). exists k'. cbn [bind].
    repeat split; auto. now right.
  - exists n. repeat split; auto. now left.
Qed.

(** *** The command object is read when the line is dispatched *)

Lemma call_func_eq h args r cmd vs :
  dict_get (py "func") args = Some (VFunc r) ->
  deref h r = Some cmd ->
  bound_values args (keys (arguments cmd)) = Ok vs ->
  call_func h args
  = match func cmd with
    | None => ([], Raise (not_callable (py "NoneType")))
    | Some f =>
        (Called r vs :: map Printed (fst (f vs)),
         match snd (f vs) with Some e => Raise e | None => Ok tt end)
    end.
Proof.
  intros Hf Hd Hv. unfold call_func. rewrite Hf, Hd, Hv.
  destruct (func cmd) as [f|]; [| reflexivity]. now destruct (f vs).
Qed.

Lemma call_func_after_set_func h args r cmd vs g :
  dict_get (py "func") args = Some (VFunc r) ->
  deref h r = Some cmd ->
  bound_values args (keys (arguments cmd)) = Ok vs ->
  call_func (fst (set_func h r g)) args
  = match g with
    | None => ([], Raise (not_callable (py "NoneType")))
    | Some f =>
        (Called r vs :: map Printed (fst (f vs)),
         match snd (f vs) with Some e => Raise e | None => Ok tt end)
    end.
Proof.
  intros Hf Hd Hv. unfold set_func. rewrite Hd. cbn [fst].
  rewrite (call_func_eq _ args r
             (mkCommand (name cmd) (help cmd) (arguments cmd) g) vs Hf
             (deref_update_same h r cmd _ Hd) Hv).
  reflexivity.
Qed.



End RegistrationMore.

(* ================================================================== *)
(** ** The two forms of an optional argument *)
(* ================================================================== *)

Section BothForms.






End BothForms.



Section RunMore.

Variable parse : evaluator.
Variable h : heap.
Variable c : QRConsole.

Lemma run_app l1 l2 :
  run parse h c (l1 ++ l2)
  = match run parse h c l1 with
    | (evs, Running) =>
        (evs ++ fst (run parse h c l2), snd (run parse h c l2))
    | (evs, Exited code) => (evs, Exited code)
    | (evs, Escaped ex) => (evs, Escaped ex)
    end.
Proof.
  induction l1 as [|i l1 IH]; cbn [app].
  - cbn [run]. now destruct (run parse h c l2).
  - rewrite !run_cons. destruct (read_line parse h c i) as [evs [|code|ex]];
      try reflexivity.
    rewrite IH. destruct (run parse h c l1) as [evs1 [|code|ex]]; cbn [fst snd];
      [now rewrite app_assoc | reflexivity | reflexivity].
Qed.

Lemma prompts_app a b : prompts (a ++ b) = prompts a + prompts b.
Proof. unfold prompts. now rewrite filter_app, length_app. Qed.

Lemma prompts_helps hs : prompts (map HelpPrinted hs) = 0.
Proof. induction hs; [reflexivity | exact IHhs]. Qed.

Lemma prompts_printed ls : prompts (map Printed ls) = 0.
Proof. induction ls; [reflexivity | exact IHls]. Qed.

Lemma prompts_call_func args : prompts (fst (call_func h args)) = 0.
Proof.
  unfold call_func.
  destruct (dict_get (py "func") args) as [[| | | | |r]|]; try reflexivity.
  destruct (deref h r) as [cmd|]; [| reflexivity].
  destruct (bound_values _ _) as [vs|e]; [| reflexivity].
  destruct (func cmd) as [f|]; [| reflexivity].
  destruct (f vs) as [lines ex]. cbn [fst]. apply prompts_printed.
Qed.

Lemma prompts_try_block i : prompts (fst (fst (try_block parse h c i))) = 1.
Proof.
  unfold try_block. destruct i as [line| |]; try reflexivity.
  destruct (extract_args line) as [s|e]; [| reflexivity].
  destruct (parse (subparsers c) s) as [helps [args|e]].
  - destruct (dict_has (py "func") args && negb (has_help s)).
    + pose proof (prompts_call_func args) as H.
      destruct (call_func h args) as [evs' r']. cbn [fst] in *.
      change (Prompt (py "?>") :: map HelpPrinted helps)
        with ([Prompt (py "?>")] ++ map HelpPrinted helps).
      rewrite !prompts_app, prompts_helps, H. reflexivity.
    + cbn [fst]. change (Prompt (py "?>") :: map HelpPrinted helps)
        with ([Prompt (py "?>")] ++ map HelpPrinted helps).
      rewrite prompts_app, prompts_helps. reflexivity.
  - cbn [fst]. change (Prompt (py "?>") :: map HelpPrinted helps)
      with ([Prompt (py "?>")] ++ map HelpPrinted helps).
    rewrite prompts_app, prompts_helps. reflexivity.
Qed.

Lemma prompts_read_line i : prompts (fst (read_line parse h c i)) = 1.
Proof.
  unfold read_line. pose proof (prompts_try_block i) as H.
  destruct (try_block parse h c i) as [[evs ih] [u|e]]; cbn [fst] in *; [exact H|].
  destruct (is_exception e); [| exact H].
  destruct (not_help ih); cbn [fst]; [| exact H].
  rewrite prompts_app, H. reflexivity.
Qed.

Lemma run_prompts inputs :
  prompts (fst (run parse h c inputs)) = lines_read parse h c inputs
  /\ lines_read parse h c inputs <= length inputs
  /\ (snd (run parse h c inputs) = Running ->
      lines_read parse h c inputs = length inputs).
Proof.
  induction inputs as [|i inputs (IH1 & IH2 & IH3)]; [repeat split; auto|].
  rewrite run_cons. cbn [lines_read length].
  pose proof (prompts_read_line i) as Hp.
  destruct (read_line parse h c i) as [evs [|code|ex]]; cbn [fst snd] in *.
  - rewrite prompts_app, Hp, IH1. repeat split; [lia|]. intros H. now rewrite IH3.
  - repeat split; [exact Hp | lia | discriminate].
  - repeat split; [exact Hp | lia | discriminate].
Qed.

End RunMore.

(* ================================================================== *)
(** ** Facts about [parse_args]: operands and positional arguments *)
(* ================================================================== *)

Section Operands.

Context {formatter : Formatter}.

Variable p : Parser.
Hypothesis Hopt : no_number_option p = true.

Lemma looks_negative_inv s :
  looks_negative s = true ->
  exists c1 t, s = 45%N :: c1 :: t /\ (is_digit c1 = true \/ c1 = 46%N).
Proof.
  destruct s as [|c [|c1 t]]; [discriminate | |].
  { unfold looks_negative. cbn [chomp]. destruct (N.eqb c 10); [discriminate|].
    cbn [nonempty drop_digits andb orb]. now rewrite andb_false_r. }
  unfold looks_negative.
  change (chomp (c :: c1 :: t)) with (c :: chomp (c1 :: t)).
  assert (Hhd : forall d r, chomp (c1 :: t) = d :: r -> d = c1).
  { intros d r. destruct t as [|c2 t]; cbn [chomp].
    - destruct (N.eqb c1 10); [discriminate | now intros [= <- _]].
    - now intros [= <- _]. }
  destruct (chomp (c1 :: t)) as [|d r] eqn:Er.
  { cbn [nonempty drop_digits andb orb]. now rewrite andb_false_r. }
  rewrite (Hhd d r eq_refl) in *. clear Hhd.
  intros H. apply andb_true_iff in H as [Hc H].
  unfold is_dash in Hc. apply N.eqb_eq in Hc. subst c.
  exists c1, t. split; [reflexivity|].
  apply orb_true_iff in H as [H | H].
  - apply andb_true_iff in H as [_ H].
    cbn in H. apply andb_true_iff in H as [H _]. auto.
  - cbn [drop_digits] in H. destruct (is_digit c1) eqn:Ed; [auto|].
    apply andb_true_iff in H as [H _]. apply andb_true_iff in H as [H _].
    apply N.eqb_eq in H. auto.
Qed.

Lemma number_start_not_dash c1 : is_digit c1 = true \/ c1 = 46%N -> is_dash c1 = false.
Proof.
  intros [H | ->]; [| reflexivity]. unfold is_dash.
  destruct (N.eqb_spec c1 45) as [-> |]; [| reflexivity].
  vm_compute in H. discriminate H.
Qed.

Lemma no_number_key k c c1 t :
  no_number k = true -> is_digit c1 = true \/ c1 = 46%N ->
  k <> c :: c1 :: t.
Proof.
  intros Hk Hc ->. cbn [no_number] in Hk. apply andb_true_iff in Hk as [H1 H2].
  apply negb_true_iff in H1, H2. destruct Hc as [Hc | ->]; [congruence | discriminate].
Qed.

Lemma option_keys k i :
  dict_get k (option_string_actions p) = Some i -> no_number k = true.
Proof.
  intros H. apply dict_get_mem in H. unfold mem in H.
  apply existsb_exists in H as (x & Hx & Ex). apply pystr_eqb_eq in Ex. subst x.
  exact (proj1 (forallb_forall _ _) Hopt k Hx).
Qed.

Lemma split_eq_inv s o e : split_eq s = Some (o, e) -> s = o ++ 61%N :: e.
Proof.
  revert o; induction s as [|c s IH]; intros o H; cbn in H; [discriminate|].
  destruct (N.eqb c 61) eqn:Ec.
  - apply N.eqb_eq in Ec. subst c. now injection H as <- <-.
  - destruct (split_eq s) as [[a b]|]; [| discriminate].
    injection H as <- <-. cbn. f_equal. now apply IH.
Qed.

Lemma help_options_inv o i :
  dict_get o help_options = Some i -> o = py "-h" \/ o = py "--help".
Proof.
  unfold help_options. cbn [dict_get].
  destruct (pystr_eqb (py "-h") o) eqn:E1.
  - apply pystr_eqb_eq in E1. auto.
  - destruct (pystr_eqb (py "--help") o) eqn:E2; [| discriminate].
    apply pystr_eqb_eq in E2. auto.
Qed.

Lemma no_tuple_for_number c1 t (d : dict nat) :
  is_digit c1 = true \/ c1 = 46%N ->
  forallb no_number (keys d) = true ->
  @flat_map (pystr * nat) option_tuple
    (fun kv : pystr * nat =>
       if pystr_eqb (fst kv) [45%N; c1]
       then [(Some (snd kv), fst kv, Some t)]
       else if starts_with (45%N :: c1 :: t) (fst kv)
            then [(Some (snd kv), fst kv, None)] else []) d
  = [].
Proof.
  intros Hc. induction d as [|[k i] d IH]; [reflexivity|].
  cbn [keys map fst forallb]. intros H. apply andb_true_iff in H as [Hk Hd].
  cbn [flat_map fst snd]. rewrite (IH Hd), app_nil_r.
  destruct (pystr_eqb k [45%N; c1]) eqn:E1.
  { apply pystr_eqb_eq in E1. now destruct (no_number_key k 45%N c1 [] Hk Hc). }
  destruct (starts_with (45%N :: c1 :: t) k) eqn:E2; [| reflexivity].
  apply starts_with_inv in E2 as [y Hy]. cbn [app] in Hy.
  now destruct (no_number_key k 45%N c1 (t ++ y) Hk Hc).
Qed.

Lemma key_not_negative (d : dict nat) :
  forallb no_number (keys d) = true -> existsb looks_negative (keys d) = false.
Proof.
  intros H. destruct (existsb looks_negative (keys d)) eqn:E; [| reflexivity].
  apply existsb_exists in E as (k & Hk & Ek).
  destruct (looks_negative_inv k Ek) as (c1 & t & -> & Hc).
  pose proof (proj1 (forallb_forall _ _) H _ Hk) as Hn.
  now destruct (no_number_key _ 45%N c1 t Hn Hc).
Qed.

(** An operand is no option: [_parse_optional] returns [None] for it. *)
Lemma parse_optional_operand s :
  operand s = true -> parse_optional p s = Ok None.
Proof.
  unfold operand. intros H. apply orb_true_iff in H as [H | H];
    [now apply parse_optional_plain|].
  destruct (looks_negative_inv s H) as (c1 & t & -> & Hc).
  unfold parse_optional. change (is_dash 45%N) with true. cbn [negb].
  destruct (dict_get (45%N :: c1 :: t) (option_string_actions p)) as [i|] eqn:E.
  { apply option_keys in E. now destruct (no_number_key _ 45%N c1 t E Hc). }
  assert (B : match split_eq (45%N :: c1 :: t) with
              | Some (o, e) =>
                  match dict_get o (option_string_actions p) with
                  | Some i => Some (Some i, o, Some e)
                  | None => None
                  end
              | None => None
              end = None).
  { destruct (split_eq (45%N :: c1 :: t)) as [[o e]|] eqn:Es; [| reflexivity].
    destruct (dict_get o (option_string_actions p)) as [i|] eqn:Eo; [| reflexivity].
    apply split_eq_inv in Es. apply option_keys in Eo.
    destruct o as [|o0 [|o1 o]].
    - discriminate Es.
    - cbn in Es. injection Es as _ Es. subst c1. now destruct Hc.
    - cbn in Es. injection Es as <- <- _.
      now destruct (no_number_key _ 45%N c1 o Eo Hc). }
  rewrite B. unfold get_option_tuples. rewrite (number_start_not_dash c1 Hc).
  match goal with
  | |- context [@flat_map ?A ?B ?f ?d] =>
      assert (G : @flat_map A B f d = [])
        by exact (no_tuple_for_number c1 t d Hc Hopt);
      rewrite G
  end.
  rewrite H.
  fold (no_number_option p) in Hopt.
  rewrite (key_not_negative _ Hopt). reflexivity.
Qed.

Lemma operand_not_ddash s : operand s = true -> pystr_eqb s (py "--") = false.
Proof.
  unfold operand. intros H. apply orb_true_iff in H as [H | H];
    [now apply plain_not_ddash|].
  destruct (looks_negative_inv s H) as (c1 & t & -> & Hc).
  change (py "--") with [45%N; 45%N]. cbn [pystr_eqb].
  pose proof (number_start_not_dash c1 Hc) as Hm. unfold is_dash in Hm.
  rewrite Hm. reflexivity.
Qed.

Lemma operand_not_help s : operand s = true -> has_help [s] = false.
Proof.
  intros H. destruct (has_help [s]) eqn:E; [| reflexivity].
  apply has_help_one in E.
  unfold operand in H. destruct E as [-> | ->]; discriminate H.
Qed.

Lemma classify_operands ws :
  forallb operand ws = true ->
  classify p ws = Ok (repeat SA (length ws), repeat None (length ws)).
Proof.
  induction ws as [|w ws IH]; [reflexivity|]. cbn [forallb].
  intros H. apply andb_true_iff in H as [Hw Hr]. cbn [classify].
  rewrite (operand_not_ddash w Hw), (parse_optional_operand w Hw), (IH Hr).
  reflexivity.
Qed.

End Operands.

Section NoOption.

Context {formatter : Formatter}.

Variable p : Parser.
Variable call_sub : list pystr -> list pystr * result (namespace * list pystr).
Variable args : list pystr.
Variable pattern : list sym.

Lemma nth_repeat_none n i : nth i (repeat (@None option_tuple) n) None = None.
Proof. revert i; induction n; destruct i; cbn; auto. Qed.

Lemma next_option_none m n start :
  next_option (repeat None m) n start = None.
Proof.
  revert start; induction n as [|n IH]; intros start; cbn [next_option];
    [reflexivity|].
  unfold is_option_at. rewrite nth_repeat_none. apply IH.
Qed.

(** With no option among the arguments the loop ends at once. *)
Lemma consume_no_option m fuel st :
  consume p call_sub args pattern (repeat None m) fuel st 0 = (st, Ok 0).
Proof.
  destruct fuel; cbn [consume]; [reflexivity|]. now rewrite next_option_none.
Qed.

End NoOption.

Section Positionals.

Context {formatter : Formatter}.

Variable p : Parser.
Variable call_sub : list pystr -> list pystr * result (namespace * list pystr).

Lemma count_dashes_repeat m : count_dashes (repeat SA m) = 0.
Proof. now destruct m. Qed.

Lemma nargs_match_positional a m :
  positional_store a -> nargs_match a (repeat SA (S m)) = Some 1.
Proof.
  intros (Ho & Hk & _). unfold nargs_match. rewrite Ho, Hk.
  cbn [repeat count_dashes skipn]. now rewrite count_dashes_repeat.
Qed.

(** Positional actions that take one string each take the strings one by
    one. *)
Lemma match_partial_positionals m :
  forall a, (forall i, a <= i < a + m -> positional_store (action_at p i)) ->
  match_partial p (seq a m) (repeat SA m) = repeat 1 m.
Proof.
  induction m as [|m IH]; intros a H; [reflexivity|].
  cbn [seq match_partial].
  rewrite (nargs_match_positional (action_at p a) m) by (apply H; lia).
  cbn [repeat skipn]. f_equal. apply IH. intros i Hi. apply H. lia.
Qed.

Lemma slices_ones (ws : list pystr) rest :
  forall start a, skipn start ws = rest ->
  slices ws start (repeat 1 (length rest)) (seq a (length rest))
  = combine (seq a (length rest)) (map (fun w => [w]) rest).
Proof.
  induction rest as [|w rest IH]; intros start a H; [reflexivity|].
  cbn [length repeat seq slices combine map]. rewrite H. cbn [firstn].
  f_equal. rewrite Nat.add_1_r. apply IH.
  change (S start) with (1 + start). rewrite <- skipn_skipn, H. reflexivity.
Qed.

Lemma ns_store_value st a v : ns (store_value st a v) = bind_dest (ns st) a v.
Proof. unfold store_value, bind_dest. now destruct (dest a). Qed.

Lemma seen_store_value st a v : seen (store_value st a v) = seen st.
Proof. unfold store_value. now destruct (dest a). Qed.

Lemma rest_store_value st a v :
  positionals (store_value st a v) = positionals st
  /\ extras (store_value st a v) = extras st
  /\ sub_extras (store_value st a v) = sub_extras st
  /\ helps (store_value st a v) = helps st.
Proof. unfold store_value. now destruct (dest a). Qed.

Lemma get_value_convert a w v :
  convert (type_ a) w = Some v -> get_value a w = Ok v.
Proof.
  unfold convert, get_value. destruct (type_ a) as [[|]|]; try now intros [= <-].
  destruct (py_int w); [| discriminate]. now intros [= <-].
Qed.

Lemma take_action_positional st i w v :
  positional_store (action_at p i) ->
  pystr_eqb w (py "--") = false ->
  convert (type_ (action_at p i)) w = Some v ->
  take_action p call_sub st i [w]
  = (store_value (mkPstate (ns st) (i :: seen st) (positionals st) (extras st)
                           (sub_extras st) (helps st))
                 (action_at p i) v,
     Ok tt).
Proof.
  intros (Ho & Hk & Hc) Hw Hv. unfold take_action. rewrite Hk.
  cbn [remove_first_ddash]. rewrite Hw.
  rewrite (get_value_convert _ _ _ Hv). unfold check_value. now rewrite Hc.
Qed.

Lemma skipn_cons_inv {A} a (l : list A) x r d :
  skipn a l = x :: r -> nth a l d = x /\ skipn (S a) l = r.
Proof.
  revert l; induction a as [|a IH]; intros l H.
  - cbn in H. subst l. now split.
  - destruct l as [|y l]; [discriminate|]. cbn [skipn] in H.
    destruct (IH l H) as [H1 H2]. now split.
Qed.

Lemma skipn_suffix_nth {A} (l r : list A) d :
  forall a, skipn a l = r -> forall j, j < length r -> nth (a + j) l d = nth j r d.
Proof.
  induction r as [|x r IH]; intros a H j Hj; [cbn in Hj; lia|].
  destruct (skipn_cons_inv a l x r d H) as [H1 H2].
  destruct j as [|j]; [now rewrite Nat.add_0_r|].
  replace (a + S j) with (S a + j) by lia. apply IH; [exact H2 | cbn in Hj; lia].
Qed.

Lemma convert_all_length ts : forall ws vs,
  convert_all ts ws = Some vs -> length ws = length ts /\ length vs = length ts.
Proof.
  induction ts as [|t ts IH]; intros [|w ws] vs H; cbn in H; try discriminate.
  - injection H as <-. now split.
  - destruct (convert t w); [| discriminate].
    destruct (convert_all ts ws) as [vs'|] eqn:E; [| discriminate].
    injection H as <-. destruct (IH ws vs' E). cbn. split; congruence.
Qed.

(** The strings are stored one by one, each under the [dest] of its
    action and converted by its [type]. *)
Lemma take_actions_positionals acts :
  forall ws vs a st,
    skipn a (actions p) = acts ->
    Forall positional_store acts ->
    forallb operand ws = true ->
    convert_all (map type_ acts) ws = Some vs ->
    exists st',
      take_actions p call_sub st (combine (seq a (length ws)) (map (fun w => [w]) ws))
      = (st', Ok tt)
      /\ ns st'
         = fold_left (fun n av => bind_dest n (fst av) (snd av))
                     (combine acts vs) (ns st)
      /\ seen st' = rev (seq a (length ws)) ++ seen st
      /\ positionals st' = positionals st /\ extras st' = extras st
      /\ sub_extras st' = sub_extras st /\ helps st' = helps st.
Proof.
  induction acts as [|x acts IH]; intros ws vs a st Hs Hp Hw Hv.
  - destruct ws; [| discriminate]. cbn in Hv. injection Hv as <-.
    exists st. cbn. repeat split.
  - destruct ws as [|w ws]; [discriminate|]. cbn [map convert_all] in Hv.
    destruct (convert (type_ x) w) as [v|] eqn:Ev; [| discriminate].
    destruct (convert_all (map type_ acts) ws) as [vs'|] eqn:Evs; [| discriminate].
    injection Hv as <-.
    destruct (skipn_cons_inv a (actions p) x acts help_action Hs) as [Hx Hs'].
    apply Forall_cons_iff in Hp as [Hp1 Hp2].
    cbn [forallb] in Hw. apply andb_true_iff in Hw as [Hw1 Hw2].
    cbn [length seq combine map take_actions].
    assert (Ha : action_at p a = x) by exact Hx.
    rewrite (take_action_positional st a w v);
      [| now rewrite Ha | now apply operand_not_ddash | now rewrite Ha].
    rewrite Ha.
    destruct (IH ws vs' (S a)
                (store_value (mkPstate (ns st) (a :: seen st) (positionals st)
                                (extras st) (sub_extras st) (helps st))
                             x v) Hs' Hp2 Hw2 Evs)
      as (st' & E & Hns & Hseen & Hrest).
    exists st'. split; [exact E|].
    destruct (rest_store_value
                (mkPstate (ns st) (a :: seen st) (positionals st) (extras st)
                   (sub_extras st) (helps st)) x v)
      as (R1 & R2 & R3 & R4).
    rewrite R1, R2, R3, R4 in Hrest. cbn [positionals extras sub_extras helps] in Hrest.
    split; [| split; [| exact Hrest]].
    + rewrite Hns, ns_store_value. reflexivity.
    + rewrite Hseen, seen_store_value. cbn [seen rev]. now rewrite <- app_assoc.
Qed.

Lemma fold_add_ones m n : fold_left Nat.add (repeat 1 m) n = n + m.
Proof.
  revert n; induction m as [|m IH]; intros n; cbn [repeat fold_left]; [lia|].
  rewrite IH. lia.
Qed.

(** Actions that were seen are not asked for again. *)
Lemma finish_seen seen l :
  forall i n,
    (forall j, j < length l -> existsb (Nat.eqb (i + j)) seen = true) ->
    finish seen i l n [] = Ok n.
Proof.
  induction l as [|a l IH]; intros i n H; [reflexivity|].
  cbn [finish]. pose proof (H 0 ltac:(cbn; lia)) as H0.
  rewrite Nat.add_0_r in H0. rewrite H0. apply IH.
  intros j Hj. replace (S i + j) with (i + S j) by lia. apply H. cbn. lia.
Qed.

Lemma existsb_seen a m i s :
  a <= i < a + m -> existsb (Nat.eqb i) (rev (seq a m) ++ s) = true.
Proof.
  intros H. apply existsb_exists. exists i. split; [| apply Nat.eqb_refl].
  apply in_or_app. left. apply in_rev. rewrite rev_involutive. apply in_seq. lia.
Qed.

End Positionals.

Section StoreActions.

Context {formatter : Formatter}.

Variable p : Parser.
Variable call_sub : list pystr -> list pystr * result (namespace * list pystr).

(** A [store] action given one string converts it and stores it. *)
Lemma take_action_store st i w v :
  kind (action_at p i) = KStore -> choices (action_at p i) = None ->
  pystr_eqb w (py "--") = false ->
  convert (type_ (action_at p i)) w = Some v ->
  take_action p call_sub st i [w]
  = (store_value (mkPstate (ns st) (i :: seen st) (positionals st) (extras st)
                           (sub_extras st) (helps st))
                 (action_at p i) v,
     Ok tt).
Proof.
  intros Hk Hc Hw Hv. unfold take_action. rewrite Hk.
  cbn [remove_first_ddash]. rewrite Hw.
  rewrite (get_value_convert _ _ _ Hv). unfold check_value. now rewrite Hc.
Qed.

Variable args : list pystr.
Variable pattern : list sym.
Variable tuples : list (option option_tuple).

Lemma with_explicit_one start i os e acc :
  match_argument (action_at p i) [SA] = Ok 1 ->
  with_explicit p args pattern start i os e acc = Ok (acc ++ [(i, [e])], S start).
Proof. intros H. destruct e; cbn [with_explicit]; rewrite H; reflexivity. Qed.

(** [--name=value]: the value is converted and stored, and the next
    string is looked at. *)
Lemma consume_optional_explicit st start i os e v :
  nth start tuples None = Some (Some i, os, Some e) ->
  kind (action_at p i) = KStore -> option_strings (action_at p i) <> [] ->
  choices (action_at p i) = None ->
  pystr_eqb e (py "--") = false ->
  convert (type_ (action_at p i)) e = Some v ->
  consume_optional p call_sub args pattern tuples st start
  = (store_value (mkPstate (ns st) (i :: seen st) (positionals st) (extras st)
                           (sub_extras st) (helps st))
                 (action_at p i) v,
     Ok (S start)).
Proof.
  intros Ht Hk Ho Hc He Hv. unfold consume_optional. rewrite Ht.
  rewrite with_explicit_one.
  - cbn [app take_actions]. now rewrite (take_action_store st i e v Hk Hc He Hv).
  - unfold match_argument, nargs_match. rewrite Hk.
    destruct (option_strings (action_at p i)); [contradiction | reflexivity].
Qed.

End StoreActions.

Section OptionLoop.

Context {formatter : Formatter}.

Variable p : Parser.
Variable call_sub : list pystr -> list pystr * result (namespace * list pystr).
Variable args : list pystr.
Variable pattern : list sym.
Variable tuples : list (option option_tuple).

(** One turn of the loop at an option. *)
Lemma consume_at_option fuel st start :
  is_option_at tuples start = true -> start < length args ->
  consume p call_sub args pattern tuples (S fuel) st start
  = match consume_optional p call_sub args pattern tuples st start with
    | (st', Ok start') => consume p call_sub args pattern tuples fuel st' start'
    | (st', Raise e) => (st', Raise e)
    end.
Proof.
  intros H Hl. cbn [consume].
  destruct (length args - start) as [|n] eqn:E; [lia|].
  cbn [next_option]. rewrite H, Nat.eqb_refl.
  now destruct (consume_optional p call_sub args pattern tuples st start) as [st' [s'|e]].
Qed.

(** The loop ends where the arguments end. *)
Lemma consume_at_end fuel st :
  consume p call_sub args pattern tuples fuel st (length args)
  = (st, Ok (length args)).
Proof. destruct fuel; cbn [consume]; [reflexivity|]. now rewrite Nat.sub_diag. Qed.

End OptionLoop.

Section PositionalParser.

Context {formatter : Formatter}.

Variable p : Parser.
Variable call_sub : list pystr -> list pystr * result (namespace * list pystr).
Variable acts : list Action.
Hypothesis Hosa : option_string_actions p = help_options.
Hypothesis Hact : actions p = help_action :: acts.
Hypothesis Hpos : Forall positional_store acts.

Lemma filter_all {A} (f : A -> bool) l :
  (forall x, In x l -> f x = true) -> filter f l = l.
Proof.
  induction l as [|x l IH]; intros H; [reflexivity|]. cbn [filter].
  rewrite (H x (or_introl eq_refl)). f_equal. apply IH. intros y Hy. apply H. now right.
Qed.

Lemma action_at_positional i :
  1 <= i < 1 + length acts -> positional_store (action_at p i).
Proof.
  intros Hi. unfold action_at. rewrite Hact. destruct i as [|i]; [lia|]. cbn [nth].
  apply (proj1 (Forall_forall _ _) Hpos). apply nth_In. lia.
Qed.

Lemma positional_indices_all : positional_indices p = seq 1 (length acts).
Proof.
  unfold positional_indices. rewrite Hact. cbn [length seq].
  change (filter ?f (0 :: ?l)) with (filter f l).
  apply filter_all. intros i Hi. apply in_seq in Hi.
  destruct (action_at_positional i Hi) as (Ho & _).
  unfold action_at in Ho. rewrite Hact in Ho. cbn beta. now rewrite Ho.
Qed.

Lemma zero_not_seen k : existsb (Nat.eqb 0) (rev (seq 1 k) ++ []) = false.
Proof.
  destruct (existsb _ _) eqn:E; [| reflexivity].
  apply existsb_exists in E as (x & Hx & Ex). apply Nat.eqb_eq in Ex. subst x.
  rewrite app_nil_r in Hx. apply in_rev in Hx. apply in_seq in Hx. lia.
Qed.

(** A parser with the help option and positional arguments, given one
    operand for each: every operand is converted and stored under the
    [dest] of its argument, and nothing is left over. *)
Lemma parse_known_args_positionals ws vs :
  forallb operand ws = true ->
  convert_all (map type_ acts) ws = Some vs ->
  parse_known_args p call_sub ws
  = ([], Ok (fold_left (fun n av => bind_dest n (fst av) (snd av))
                       (combine acts vs) (initial_namespace p), [])).
Proof.
  intros Hw Hv.
  destruct (convert_all_length _ _ _ Hv) as [Hl _]. rewrite length_map in Hl.
  unfold parse_known_args. rewrite (classify_operands p ltac:(unfold no_number_option; now rewrite Hosa) ws Hw).
  rewrite consume_no_option. unfold conclude, consume_positionals.
  cbn [positionals skipn]. rewrite positional_indices_all, <- Hl.
  rewrite match_partial_positionals
    by (intros i Hi; apply action_at_positional; lia).
  rewrite (slices_ones ws ws 0 1 eq_refl).
  destruct (take_actions_positionals p call_sub acts ws vs 1
              (mkPstate (initial_namespace p) [] (seq 1 (length ws)) [] [] [])
              ltac:(now rewrite Hact) Hpos Hw Hv)
    as (st' & -> & Hns & Hseen & Hps & Hex & Hsx & Hh).
  cbn [ns seen positionals extras sub_extras helps] in *.
  rewrite Hns, Hseen, Hex, Hsx, Hh, Hact. cbn [finish].
  rewrite zero_not_seen. cbn [required help_action default].
  rewrite finish_seen.
  - rewrite fold_add_ones. cbn [Nat.add app].
    now rewrite skipn_all, app_nil_r.
  - intros j Hj. apply existsb_seen. lia.
Qed.

End PositionalParser.

Section CommandParser.

Context {formatter : Formatter}.

Lemma positional_spec_inv kv :
  positional_spec kv = true ->
  exists c k kw,
    kv = (c :: k, ([c :: k], kw)) /\ is_dash c = false
    /\ pystr_eqb (c :: k) (py "func") = false
    /\ kw_action kw <> Some store_true.
Proof.
  destruct kv as [k [names kw]]. unfold positional_spec. cbn [fst snd].
  intros H. repeat (apply andb_true_iff in H as [H ?]).
  destruct names as [|n [|n' names]]; try discriminate.
  apply pystr_eqb_eq in H. subst n.
  destruct k as [|c k]; [discriminate|].
  exists c, k, kw. repeat split.
  - cbn [plain] in *. now apply negb_true_iff.
  - now apply negb_true_iff.
  - intros E. rewrite E in *. discriminate.
Qed.

Lemma add_argument_positional p kv :
  positional_spec kv = true -> defaults p = [] ->
  ArgParse.add_argument p (fst (snd kv)) (snd (snd kv))
  = Ok (mkParser (prog p) (actions p ++ [positional_action kv])
          (option_string_actions p) []).
Proof.
  intros H Hd. destruct (positional_spec_inv kv H) as (c & k & kw & -> & Hc & _ & Ha).
  cbn [fst snd]. unfold ArgParse.add_argument. rewrite Hc. cbn [negb bind].
  rewrite Hd. cbn [dict_get]. unfold positional_action. cbn [fst snd].
  assert (G : forall t,
             add_action p
               (mkAction [] (Some (c :: k)) KStore t
                  (Some match match kw_default kw with
                              | Some v => Some v
                              | None => None
                              end with
                        | Some v => v
                        | None => VNone
                        end) true None (kw_help kw) [])
             = Ok (mkParser (prog p)
                     (actions p
                      ++ [mkAction [] (Some (c :: k)) KStore t
                            (Some match kw_default kw with
                                  | Some v => v
                                  | None => VNone
                                  end) true None (kw_help kw) []])
                     (option_string_actions p) [])).
  { intros t. unfold add_action, conflicts. cbn [option_strings filter fold_left].
    rewrite Hd. now destruct (kw_default kw). }
  destruct (kw_action kw) as [[|]|]; [apply G | congruence | apply G].
Qed.

Lemma add_arguments_positional specs :
  forall p, forallb positional_spec specs = true -> defaults p = [] ->
  add_arguments p (values specs)
  = (mkParser (prog p) (actions p ++ map positional_action specs)
       (option_string_actions p) [], Ok tt).
Proof.
  induction specs as [|kv specs IH]; intros p H Hd.
  - cbn. rewrite app_nil_r, <- Hd. now destruct p.
  - cbn [forallb] in H. apply andb_true_iff in H as [H1 H2].
    unfold values. cbn [map add_arguments].
    destruct (snd kv) as [names kw] eqn:Ekv.
    pose proof (add_argument_positional p kv H1 Hd) as E.
    rewrite Ekv in E. cbn [fst snd] in E. rewrite E.
    fold (values specs). rewrite IH by (exact H2 || reflexivity).
    cbn [prog actions option_string_actions map]. now rewrite <- app_assoc.
Qed.

Lemma positional_action_store kv : positional_store (positional_action kv).
Proof. repeat split. Qed.

(** The parser of a command with positional arguments: the help option,
    and one positional action for each argument, in the order of
    [cmd.arguments]. *)
Lemma command_parser_positional cmd r :
  forallb positional_spec (arguments cmd) = true ->
  command_parser cmd r
  = mkParser (name cmd) (help_action :: map positional_action (arguments cmd))
             help_options [(py "func", VFunc r)].
Proof.
  intros H. unfold command_parser.
  rewrite (add_arguments_positional (arguments cmd) (new_parser (name cmd)) H eq_refl).
  cbn [fst]. unfold set_defaults.
  cbn [prog actions option_string_actions defaults new_parser app map dest
       help_action dict_set].
  f_equal. f_equal. rewrite map_map. apply map_ext_in. intros kv Hkv.
  pose proof (proj1 (forallb_forall _ _) H kv Hkv) as Hs.
  destruct (positional_spec_inv kv Hs) as (c & k & kw & -> & _ & Hf & _).
  unfold positional_action. cbn [dest fst snd]. now rewrite Hf.
Qed.

End CommandParser.

Section Namespaces.

Context {formatter : Formatter}.

Lemma dict_get_absent {V} k (d : dict V) : ~ In k (keys d) -> dict_get k d = None.
Proof.
  intros H. destruct (dict_get k d) as [v|] eqn:E; [| reflexivity].
  exfalso. apply H. apply dict_get_mem in E. unfold mem in E.
  apply existsb_exists in E as (x & Hx & Ex). apply pystr_eqb_eq in Ex. now subst.
Qed.

Lemma dict_has_absent {V} k (d : dict V) : dict_has k d = false -> ~ In k (keys d).
Proof.
  rewrite dict_has_mem. unfold mem. intros H Hin.
  assert (E : existsb (pystr_eqb k) (keys d) = true).
  { apply existsb_exists. exists k. split; [exact Hin | apply pystr_eqb_refl]. }
  congruence.
Qed.

Lemma dict_set_nodup {V} k (v : V) d : NoDup (keys d) -> NoDup (keys (dict_set k v d)).
Proof.
  intros H. destruct (dict_has k d) eqn:E.
  - now rewrite keys_set_present.
  - rewrite keys_set_absent by exact E. apply NoDup_app; [exact H | repeat constructor; easy |].
    intros x Hx [<- | []]. now apply (dict_has_absent k d E).
Qed.

(** [setattr(namespace, key, value)] for every item of a namespace, into
    an other: a name is found in the result as in the first, or else as
    in the second. *)
Lemma dict_get_merge (l : namespace) :
  forall acc k, NoDup (keys l) ->
  dict_get k (fold_left (fun n kv => dict_set (fst kv) (snd kv) n) l acc)
  = match dict_get k l with Some v => Some v | None => dict_get k acc end.
Proof.
  induction l as [|[k0 v0] l IH]; intros acc k H; [reflexivity|].
  cbn [keys map fst] in H. apply NoDup_cons_iff in H as [Hk0 H].
  cbn [fold_left fst snd dict_get]. rewrite (IH _ k H).
  destruct (pystr_eqb k0 k) eqn:E.
  - apply pystr_eqb_eq in E. subst k0.
    now rewrite (dict_get_absent k l Hk0), dict_get_set_same.
  - apply pystr_eqb_neq in E.
    now rewrite (dict_get_set_other k0 k v0 acc) by congruence.
Qed.

Lemma bind_dest_nodup n a v : NoDup (keys n) -> NoDup (keys (bind_dest n a v)).
Proof. unfold bind_dest. destruct (dest a); [apply dict_set_nodup | easy]. Qed.

Lemma bind_all_nodup (l : list (Action * value)) :
  forall n, NoDup (keys n) ->
  NoDup (keys (fold_left (fun n av => bind_dest n (fst av) (snd av)) l n)).
Proof.
  induction l as [|[a v] l IH]; intros n H; [exact H|].
  cbn [fold_left]. apply IH. now apply bind_dest_nodup.
Qed.

Lemma initial_namespace_nodup p : NoDup (keys (initial_namespace p)).
Proof.
  unfold initial_namespace.
  assert (H1 : forall l n, NoDup (keys n) ->
            NoDup (keys (fold_left
                           (fun n (a : Action) =>
                              match dest a, default a with
                              | Some d, Some v => if dict_has d n then n else dict_set d v n
                              | _, _ => n
                              end) l n))).
  { induction l as [|a l IH]; intros n H; [exact H|]. cbn [fold_left]. apply IH.
    destruct (dest a); [| exact H]. destruct (default a); [| exact H].
    destruct (dict_has _ _); [exact H | now apply dict_set_nodup]. }
  assert (H2 : forall (l : dict value) n, NoDup (keys n) ->
            NoDup (keys (fold_left
                           (fun n kv => if dict_has (fst kv) n then n
                                        else dict_set (fst kv) (snd kv) n) l n))).
  { induction l as [|a l IH]; intros n H; [exact H|]. cbn [fold_left]. apply IH.
    destruct (dict_has _ _); [exact H | now apply dict_set_nodup]. }
  apply H2, H1. constructor.
Qed.

(** Storing under other names leaves a name as it was. *)
Lemma bind_all_other k (l : list (Action * value)) :
  forall n, (forall av, In av l -> dest (fst av) <> Some k) ->
  dict_get k (fold_left (fun n av => bind_dest n (fst av) (snd av)) l n)
  = dict_get k n.
Proof.
  induction l as [|[a v] l IH]; intros n H; [reflexivity|].
  cbn [fold_left fst snd]. rewrite IH by (intros av Hav; apply H; now right).
  pose proof (H (a, v) (or_introl eq_refl)) as Ha. cbn [fst] in Ha.
  unfold bind_dest. destruct (dest a) as [d|]; [| reflexivity].
  apply dict_get_set_other. congruence.
Qed.

Lemma in_combine_positional specs (vs : list value) av :
  In av (combine (map positional_action specs) vs) ->
  exists kv, In kv specs /\ dest (fst av) = Some (fst kv).
Proof.
  destruct av as [a v]. intros H. apply in_combine_l in H.
  apply in_map_iff in H as (kv & <- & Hkv). now exists kv.
Qed.

(** The values stored for positional arguments are found under the keys
    of [cmd.arguments], in their order. *)
Lemma bound_values_positional specs :
  forall vs n, NoDup (keys specs) -> length vs = length specs ->
  forall data,
    (forall k, In k (keys specs) ->
       dict_get k data
       = dict_get k (fold_left (fun n av => bind_dest n (fst av) (snd av))
                       (combine (map positional_action specs) vs) n)) ->
    bound_values data (keys specs) = Ok vs.
Proof.
  induction specs as [|[k spec] specs IH]; intros vs n Hnd Hl data Hdata.
  - destruct vs; [reflexivity | discriminate].
  - destruct vs as [|v vs]; [discriminate|].
    cbn [keys map fst] in Hnd. apply NoDup_cons_iff in Hnd as [Hk Hnd].
    cbn [keys map fst bound_values].
    rewrite (Hdata k (or_introl eq_refl)).
    cbn [map combine fold_left fst snd].
    rewrite bind_all_other.
    2:{ intros av Hav. apply in_combine_positional in Hav as (kv & Hkv & ->).
        intros [= E]. apply Hk. rewrite <- E. now apply in_map. }
    unfold bind_dest at 1. cbn [dest positional_action fst].
    rewrite dict_get_set_same. fold (@keys arg_spec specs).
    rewrite (IH vs (bind_dest n (positional_action (k, spec)) v) Hnd
               ltac:(cbn in Hl; lia) data).
    + reflexivity.
    + intros k' Hk'. rewrite (Hdata k' (or_intror Hk')). reflexivity.
Qed.

Lemma initial_namespace_func name acts r :
  (forall a, In a acts -> dest a <> Some (py "func")) ->
  dict_get (py "func")
    (initial_namespace (mkParser name acts help_options [(py "func", VFunc r)]))
  = Some (VFunc r).
Proof.
  intros H. unfold initial_namespace. cbn [actions defaults fold_left fst snd].
  assert (G : forall l n, (forall a, In a l -> dest a <> Some (py "func")) ->
            dict_get (py "func")
              (fold_left (fun n (a : Action) =>
                            match dest a, default a with
                            | Some d, Some v => if dict_has d n then n else dict_set d v n
                            | _, _ => n
                            end) l n)
            = dict_get (py "func") n).
  { induction l as [|a l IH]; intros n Hl; [reflexivity|]. cbn [fold_left].
    rewrite IH by (intros b Hb; apply Hl; now right).
    pose proof (Hl a (or_introl eq_refl)) as Ha.
    destruct (dest a) as [d|]; [| reflexivity]. destruct (default a); [| reflexivity].
    destruct (dict_has d n); [reflexivity|].
    apply dict_get_set_other. congruence. }
  specialize (G acts [] H). cbn [dict_get] in G.
  match goal with
  | |- context [fold_left ?f acts []] => set (n1 := fold_left f acts []) in *
  end.
  unfold dict_has. rewrite G. apply dict_get_set_same.
Qed.

End Namespaces.

Section Transparency.

Context {formatter : Formatter}.

Variable sp : SubParsers.
Variable name : pystr.
Variable p : Parser.
Variable ws : list pystr.
Hypothesis Hname : plain name = true.
Hypothesis Hp : dict_get name (name_parser_map sp) = Some p.

Lemma classify_length q args pattern (tuples : list (option option_tuple)) :
  classify q args = Ok (pattern, tuples) ->
  length pattern = length args /\ length tuples = length args.
Proof.
  revert pattern tuples; induction args as [|a args IH]; intros pattern tuples H;
    cbn [classify] in H.
  - injection H as <- <-. now split.
  - destruct (pystr_eqb a (py "--")).
    + injection H as <- <-. cbn [length]. now rewrite !length_map.
    + destruct (parse_optional q a) as [t|]; [| discriminate]. cbn [bind] in H.
      destruct (classify q args) as [[pt tt]|]; [| discriminate]. cbn [bind] in H.
      injection H as <- <-. destruct (IH pt tt eq_refl). cbn [length fst snd].
      split; congruence.
Qed.

Lemma top_classify_name :
  exists pt (tt : list (option option_tuple)),
    classify (top_parser sp) (name :: ws) = Ok (SA :: pt, None :: tt)
    /\ length pt = length ws.
Proof.
  destruct (top_classify_total sp ws) as (pt & tt & E).
  exists pt, tt. split; [| exact (proj1 (classify_length _ _ _ _ E))].
  cbn [classify]. rewrite (plain_not_ddash name Hname).
  rewrite (parse_optional_plain _ name Hname). cbn [bind]. now rewrite E.
Qed.

(** The sub-parsers action takes the name and all that follows it, and
    calls the parser of the name. *)
Lemma consume_positionals_command pt st :
  length pt = length ws -> positionals st = [1] ->
  consume_positionals (top_parser sp) (call_subparser sp) (name :: ws) (SA :: pt) st 0
  = let '(hs, r) := parse_known_args p no_sub ws in
    match r with
    | Raise e =>
        (mkPstate (ns st) (1 :: seen st) [1] (extras st) (sub_extras st)
                  (helps st ++ hs), Raise e)
    | Ok (subns, rest) =>
        (mkPstate (fold_left (fun n kv => dict_set (fst kv) (snd kv) n) subns (ns st))
                  (1 :: seen st) [] (extras st) (sub_extras st ++ rest)
                  (helps st ++ hs),
         Ok (S (length ws)))
    end.
Proof.
  intros Hl Hpos. unfold consume_positionals. rewrite Hpos.
  cbn [skipn match_partial action_at actions top_parser nth nargs_match kind
       subparsers_action option_strings count_dashes length slices firstn
       take_actions].
  rewrite Hl, firstn_all.
  unfold take_action at 1.
  cbn [action_at actions top_parser nth kind subparsers_action].
  unfold check_value. cbn [choices subparsers_action].
  rewrite (dict_get_mem _ _ _ Hp).
  unfold call_subparser at 1. rewrite Hp.
  destruct (parse_known_args p no_sub ws) as [hs [[subns rest]|e]];
    cbn [ns seen positionals extras sub_extras helps].
  - rewrite Hpos. cbn [skipn length fold_left Nat.add]. reflexivity.
  - rewrite Hpos. reflexivity.
Qed.

Lemma next_option_bound (tuples : list (option option_tuple)) n start next :
  next_option tuples n start = Some next -> start <= next.
Proof.
  revert start; induction n as [|n IH]; intros start H; cbn [next_option] in H;
    [discriminate|].
  destruct (is_option_at tuples start); [injection H as <-; lia|].
  apply IH in H. lia.
Qed.

(** A line that begins with a registered name is parsed by the parser of
    that name: the console adds nothing to what that parser prints,
    returns or raises, but that it refuses what the parser left over. *)
Lemma parse_args_into_command :
  parse_args sp (name :: ws) = command_result (parse_known_args p no_sub ws).
Proof.
  destruct top_classify_name as (pt & tt & Hc & Hl).
  unfold parse_args, parse_known_args at 1. rewrite Hc.
  set (st0 := mkPstate (initial_namespace (top_parser sp)) []
                (positional_indices (top_parser sp)) [] [] []).
  assert (Hst0 : positionals st0 = [1]) by reflexivity.
  pose proof (consume_positionals_command pt st0 Hl Hst0) as Hcp.
  cbn [consume length Nat.sub next_option].
  change (is_option_at (None :: tt) 0) with false. cbv iota.
  destruct (next_option (None :: tt) (length ws) 1) as [next|] eqn:En.
  - pose proof (next_option_bound _ _ _ _ En) as Hn.
    destruct next as [|next]; [lia|]. cbn [Nat.eqb].
    rewrite Hcp.
    destruct (parse_known_args p no_sub ws) as [hs [[subns rest]|e]].
    + replace (Nat.ltb 0 (S (length ws))) with true by reflexivity.
      cbn [consume length Nat.sub]. rewrite Nat.sub_diag. cbn [next_option].
      unfold conclude, consume_positionals.
      cbn [positionals skipn match_partial slices take_actions length fold_left
           ns seen extras sub_extras helps st0 initial_namespace actions top_parser
           dest help_action subparsers_action defaults finish existsb Nat.eqb orb
           required default app].
      rewrite Nat.add_0_r, skipn_all2 by (cbn; lia). cbn [app].
      unfold command_result. now destruct rest.
    + unfold conclude. reflexivity.
  - unfold conclude. rewrite Hcp.
    destruct (parse_known_args p no_sub ws) as [hs [[subns rest]|e]].
    + cbn [ns seen extras sub_extras helps st0 initial_namespace actions top_parser
           dest help_action subparsers_action defaults finish existsb Nat.eqb orb
           required default app fold_left].
      rewrite skipn_all2 by (cbn; lia). cbn [app].
      unfold command_result. now destruct rest.
    + reflexivity.
Qed.

End Transparency.

Section TopLevel.

Context {formatter : Formatter}.

(** A registered name followed by operands: the sub-parsers action hands
    the operands to the parser of the name, and what that parser returns
    is set in the namespace. *)
Lemma parse_args_command sp name p ws n :
  plain name = true ->
  dict_get name (name_parser_map sp) = Some p ->
  forallb operand ws = true ->
  parse_known_args p no_sub ws = ([], Ok (n, [])) ->
  parse_args sp (name :: ws)
  = ([], Ok (fold_left (fun n kv => dict_set (fst kv) (snd kv) n) n [])).
Proof.
  intros Hn Hp Hw Hsub.
  now rewrite (parse_args_into_command sp name p ws Hn Hp), Hsub.
Qed.

Lemma has_help_cons x l : has_help (x :: l) = has_help [x] || has_help l.
Proof.
  unfold has_help, mem. cbn [existsb]. rewrite !orb_false_r.
  destruct (pystr_eqb (py "-h") x), (pystr_eqb (py "--help") x),
    (existsb (pystr_eqb (py "-h")) l); reflexivity.
Qed.

Lemma operands_no_help ws : forallb operand ws = true -> has_help ws = false.
Proof.
  induction ws as [|w ws IH]; [reflexivity|]. cbn [forallb]. intros H.
  apply andb_true_iff in H as [H1 H2].
  now rewrite has_help_cons, (operand_not_help w H1), (IH H2).
Qed.

End TopLevel.

Section Dispatch.

Context {formatter : Formatter}.

Lemma try_block_command h (c : QRConsole) line name ws p n r cmd f vs :
  extract_args line = Ok (name :: ws) ->
  plain name = true -> has_help ws = false ->
  dict_get name (name_parser_map (subparsers c)) = Some p ->
  parse_known_args p no_sub ws = ([], Ok (n, [])) ->
  dict_get (py "func") (fold_left (fun m kv => dict_set (fst kv) (snd kv) m) n [])
  = Some (VFunc r) ->
  deref h r = Some cmd -> func cmd = Some f ->
  bound_values (fold_left (fun m kv => dict_set (fst kv) (snd kv) m) n [])
               (keys (arguments cmd)) = Ok vs ->
  try_block parse_args h c (Line line)
  = (Prompt (py "?>") :: Called r vs :: map Printed (fst (f vs)), Some false,
     match snd (f vs) with Some e => Raise e | None => Ok tt end).
Proof.
  intros Hl Hn Hh Hp Hparse Hfunc Hd Hf Hb. unfold try_block. rewrite Hl.
  rewrite (parse_args_into_command (subparsers c) name p ws Hn Hp), Hparse.
  unfold command_result.
  assert (Hh' : has_help (name :: ws) = false).
  { rewrite has_help_cons, Hh, orb_false_r.
    apply operand_not_help. unfold operand. now rewrite Hn. }
  rewrite Hh'. unfold dict_has. rewrite Hfunc. cbn [andb negb map].
  rewrite (call_func_eq h _ r cmd vs Hfunc Hd Hb), Hf. reflexivity.
Qed.

Lemma convert_all_types specs ws vs :
  convert_all (map (fun s : arg_spec => kw_type (snd s)) (values specs)) ws = Some vs ->
  convert_all (map type_ (map positional_action specs)) ws = Some vs.
Proof.
  intros H. rewrite map_map. unfold values in H. rewrite map_map in H. exact H.
Qed.

Lemma positional_command_parse (c : QRConsole) r cmd ws vs :
  forallb positional_spec (arguments cmd) = true ->
  NoDup (keys (arguments cmd)) ->
  plain (name cmd) = true ->
  dict_get (name cmd) (name_parser_map (subparsers c)) = Some (command_parser cmd r) ->
  forallb operand ws = true ->
  convert_all (map (fun s : arg_spec => kw_type (snd s)) (values (arguments cmd))) ws
  = Some vs ->
  exists n,
    parse_args (subparsers c) (name cmd :: ws) = ([], Ok n)
    /\ dict_get (py "func") n = Some (VFunc r)
    /\ bound_values n (keys (arguments cmd)) = Ok vs.
Proof.
  intros Hs Hnd Hn Hp Hw Hv. apply convert_all_types in Hv.
  rewrite (command_parser_positional cmd r Hs) in Hp.
  set (p := mkParser (name cmd) (help_action :: map positional_action (arguments cmd))
                     help_options [(py "func", VFunc r)]) in *.
  pose proof (parse_known_args_positionals p no_sub
                (map positional_action (arguments cmd)) eq_refl eq_refl
                ltac:(apply Forall_forall; intros a Ha;
                      apply in_map_iff in Ha as (kv & <- & _);
                      apply positional_action_store) ws vs Hw Hv) as Hsub.
  set (nsub := fold_left (fun n av => bind_dest n (fst av) (snd av))
                 (combine (map positional_action (arguments cmd)) vs)
                 (initial_namespace p)) in *.
  assert (Hwf : NoDup (keys nsub))
    by (apply bind_all_nodup, initial_namespace_nodup).
  eexists. split; [exact (parse_args_command _ _ p ws nsub Hn Hp Hw Hsub)|].
  assert (Hnf : forall kv, In kv (arguments cmd) -> fst kv <> py "func").
  { intros kv Hkv. pose proof (proj1 (forallb_forall _ _) Hs kv Hkv) as H.
    destruct (positional_spec_inv kv H) as (c0 & k & kw & -> & _ & Hf & _).
    cbn [fst]. now apply pystr_eqb_neq. }
  split.
  - rewrite (dict_get_merge nsub [] _ Hwf). subst nsub.
    rewrite bind_all_other.
    + subst p. rewrite initial_namespace_func; [reflexivity|].
      intros a [<- | Ha]; [discriminate|].
      apply in_map_iff in Ha as (kv & <- & Hkv). cbn [dest positional_action].
      intros [= E]. exact (Hnf kv Hkv E).
    + intros av Hav. apply in_combine_positional in Hav as (kv & Hkv & ->).
      intros [= E]. exact (Hnf kv Hkv E).
  - destruct (convert_all_length _ _ _ Hv) as [_ Hl]. rewrite !length_map in Hl.
    apply (bound_values_positional (arguments cmd) vs (initial_namespace p) Hnd Hl).
    intros k Hk. rewrite (dict_get_merge nsub [] k Hwf). fold nsub.
    destruct (dict_get k nsub) eqn:E; [reflexivity|].
    exfalso.
    assert (Hb : bound_values nsub (keys (arguments cmd)) = Ok vs).
    { apply (bound_values_positional (arguments cmd) vs (initial_namespace p) Hnd Hl).
      reflexivity. }
    destruct (bound_values_missing nsub _ k Hk E) as (k' & _ & _ & Hr).
    congruence.
Qed.

Lemma positional_command_try_block h (c : QRConsole) r cmd f line ws vs :
  deref h r = Some cmd -> func cmd = Some f ->
  forallb positional_spec (arguments cmd) = true ->
  NoDup (keys (arguments cmd)) ->
  plain (name cmd) = true ->
  dict_get (name cmd) (name_parser_map (subparsers c)) = Some (command_parser cmd r) ->
  extract_args line = Ok (name cmd :: ws) ->
  forallb operand ws = true ->
  convert_all (map (fun s : arg_spec => kw_type (snd s)) (values (arguments cmd))) ws
  = Some vs ->
  try_block parse_args h c (Line line)
  = (Prompt (py "?>") :: Called r vs :: map Printed (fst (f vs)), Some false,
     match snd (f vs) with Some e => Raise e | None => Ok tt end).
Proof.
  intros Hd Hf Hs Hnd Hn Hp Hl Hw Hv.
  destruct (positional_command_parse c r cmd ws vs Hs Hnd Hn Hp Hw Hv)
    as (n & Hparse & Hfunc & Hb).
  unfold try_block. rewrite Hl, Hparse.
  assert (Hh : has_help (name cmd :: ws) = false).
  { apply operands_no_help. cbn [forallb]. unfold operand at 1. now rewrite Hn, Hw. }
  rewrite Hh. unfold dict_has. rewrite Hfunc. cbn [andb negb map].
  rewrite (call_func_eq h n r cmd vs Hfunc Hd Hb), Hf. reflexivity.
Qed.

End Dispatch.

(* ================================================================== *)
(** ** Facts about the commands of the [__main__] block *)
(* ================================================================== *)

Section Numerals.

Local Open Scope Z_scope.

Lemma py_String c s : py (String c s) = N_of_ascii c :: py s.
Proof. reflexivity. Qed.

Lemma digits_value_uint d :
  forall acc b, (d <> Decimal.Nil \/ b = true) ->
  digits_value acc b (py (NilEmpty.string_of_uint d)) = Some (uint_value acc d).
Proof.
  induction d; intros acc b H;
    try (cbn [NilEmpty.string_of_uint uint_value]; rewrite py_String;
         cbn [digits_value]; apply IHd; now right).
  destruct H as [H | ->]; [easy | reflexivity].
Qed.

Lemma uint_value_acc d :
  forall acc, uint_value (Zpos acc) d = Zpos (Pos.of_uint_acc d acc).
Proof.
  induction d; intros acc; cbn [uint_value Pos.of_uint_acc]; try reflexivity;
    rewrite <- IHd; f_equal; lia.
Qed.

Lemma uint_value_zero d : uint_value 0 d = Z.of_N (Pos.of_uint d).
Proof.
  induction d; cbn [uint_value Pos.of_uint]; try reflexivity;
    try exact IHd; cbn [Z.mul Z.add]; rewrite uint_value_acc; reflexivity.
Qed.

Lemma all_digits_uint d : all_digits (py (NilEmpty.string_of_uint d)) = true.
Proof.
  unfold all_digits. induction d; try reflexivity;
    cbn [NilEmpty.string_of_uint]; rewrite py_String; cbn [forallb]; now rewrite IHd.
Qed.

Lemma nonempty_uint d :
  d <> Decimal.Nil -> nonempty (py (NilEmpty.string_of_uint d)) = true.
Proof. destruct d; easy. Qed.

(** The digits of a numeral are the ten of ASCII. *)
Lemma uint_ascii d :
  Forall (fun c => In c (py "0123456789")) (py (NilEmpty.string_of_uint d)).
Proof.
  induction d; try (constructor; fail);
    cbn [NilEmpty.string_of_uint]; rewrite py_String;
    (constructor; [cbn; tauto | exact IHd]).
Qed.

Lemma ascii_digit_facts c :
  In c (py "0123456789") ->
  is_space c = false /\ c <> dq /\ c <> 45%N /\ c <> 43%N /\ c <> 36%N
  /\ c <> 10%N.
Proof.
  intros H. cbn in H.
  repeat (destruct H as [<- | H]; [repeat split; discriminate|]).
  destruct H.
Qed.

(** The numeral of [z]: a run of ASCII digits, with a dash before it when
    [z] is negative. *)
Lemma str_of_Z_shape z :
  exists ds, nonempty ds = true /\ all_digits ds = true
             /\ Forall (fun c => In c (py "0123456789")) ds
             /\ digits_value 0 false ds = Some (Z.abs z)
             /\ str_of_Z z = (if z <? 0 then 45%N :: ds else ds)
             /\ digits_of z = length ds.
Proof.
  unfold digits_of, str_of_Z.
  destruct z as [|q|q]; cbn [Z.to_int Z.ltb Z.compare Z.abs].
  - exists (py "0"). repeat split. repeat constructor; cbn; tauto.
  - exists (py (NilEmpty.string_of_uint (Pos.to_uint q))).
    pose proof (DecimalPos.Unsigned.to_uint_nonnil q) as Hn.
    split; [now apply nonempty_uint|]. split; [apply all_digits_uint|].
    split; [apply uint_ascii|]. split; [| split].
    + rewrite digits_value_uint by now left.
      now rewrite uint_value_zero, DecimalPos.Unsigned.of_to.
    + cbn [NilZero.string_of_int]. unfold NilZero.string_of_uint.
      now destruct (Pos.to_uint q).
    + cbn [NilZero.string_of_int]. unfold NilZero.string_of_uint.
      now destruct (Pos.to_uint q).
  - exists (py (NilEmpty.string_of_uint (Pos.to_uint q))).
    pose proof (DecimalPos.Unsigned.to_uint_nonnil q) as Hn.
    split; [now apply nonempty_uint|]. split; [apply all_digits_uint|].
    split; [apply uint_ascii|]. split; [| split].
    + rewrite digits_value_uint by now left.
      now rewrite uint_value_zero, DecimalPos.Unsigned.of_to.
    + cbn [NilZero.string_of_int]. unfold NilZero.string_of_uint.
      rewrite py_String. now destruct (Pos.to_uint q).
    + cbn [NilZero.string_of_int]. unfold NilZero.string_of_uint.
      now destruct (Pos.to_uint q).
Qed.

Lemma ascii_no_space ds :
  Forall (fun c => In c (py "0123456789")) ds -> no_space ds = true.
Proof.
  unfold no_space. induction 1 as [|c ds Hc _ IH]; [reflexivity|].
  cbn [forallb]. destruct (ascii_digit_facts c Hc) as (-> & _). exact IH.
Qed.

Lemma lstrip_no_space c s : is_space c = false -> lstrip (c :: s) = c :: s.
Proof. intros H. cbn [lstrip]. unfold is_int_space. now rewrite H. Qed.

Lemma strip_no_space s : no_space s = true -> strip s = s.
Proof.
  intros H. unfold strip.
  assert (L : forall t, no_space t = true -> lstrip t = t).
  { intros [|c t] Ht; [reflexivity|]. cbn in Ht. apply andb_true_iff in Ht as [Hc _].
    apply negb_true_iff in Hc. now apply lstrip_no_space. }
  rewrite (L s H). rewrite L; [apply rev_involutive|].
  unfold no_space in *. apply forallb_forall. intros x Hx. apply in_rev in Hx.
  exact (proj1 (forallb_forall _ _) H x Hx).
Qed.

Lemma count_digits_all ds : all_digits ds = true -> count_digits ds = length ds.
Proof.
  unfold all_digits, count_digits. induction ds as [|c ds IH]; [reflexivity|].
  cbn [forallb filter]. intros H. apply andb_true_iff in H as [-> H].
  cbn [length]. now rewrite IH.
Qed.

Lemma chomp_ascii ds :
  Forall (fun c => In c (py "0123456789")) ds -> chomp ds = ds.
Proof.
  induction 1 as [|c ds Hc _ IH]; [reflexivity|].
  destruct ds as [|d ds]; cbn [chomp].
  - destruct (ascii_digit_facts c Hc) as (_ & _ & _ & _ & _ & Hlf).
    apply N.eqb_neq in Hlf. now rewrite Hlf.
  - now rewrite <- IH.
Qed.

(** [int(str(z))] is [z], for a [z] of no more than 4300 digits. *)
Lemma py_int_str z :
  (digits_of z <= int_max_str_digits)%nat -> py_int (str_of_Z z) = Some z.
Proof.
  destruct (str_of_Z_shape z) as (ds & Hne & Hd & Ha & Hv & -> & ->). intros Hlen.
  destruct ds as [|d ds]; [discriminate|].
  pose proof (Forall_inv Ha) as Ha1.
  destruct (ascii_digit_facts d Ha1) as (Hs & _ & Hm & Hp & _).
  pose proof (ascii_no_space (d :: ds) Ha) as Hns.
  assert (Hlim : Nat.ltb int_max_str_digits (count_digits (d :: ds)) = false).
  { rewrite (count_digits_all _ Hd). apply Nat.ltb_ge. exact Hlen. }
  unfold py_int. destruct (z <? 0) eqn:Ez.
  - rewrite strip_no_space
      by (change (no_space (45%N :: d :: ds))
            with (negb (is_space 45%N) && no_space (d :: ds));
          now rewrite Hns).
    rewrite N.eqb_refl. cbn [orb]. rewrite Hlim, Hv. cbn [option_map]. f_equal.
    apply Z.ltb_lt in Ez. lia.
  - rewrite strip_no_space by exact Hns.
    apply N.eqb_neq in Hm, Hp. rewrite Hm, Hp. cbn [orb]. rewrite Hlim, Hv.
    f_equal. apply Z.ltb_ge in Ez. lia.
Qed.

Lemma str_of_Z_operand z : operand (str_of_Z z) = true.
Proof.
  destruct (str_of_Z_shape z) as (ds & Hne & Hd & Ha & _ & -> & _).
  destruct ds as [|d ds]; [discriminate|].
  destruct (ascii_digit_facts d (Forall_inv Ha)) as (_ & _ & Hm & _).
  unfold operand. destruct (z <? 0).
  - unfold looks_negative.
    change (chomp (45%N :: d :: ds)) with (45%N :: chomp (d :: ds)).
    rewrite (chomp_ascii _ Ha). cbn [plain]. change (is_dash 45%N) with true.
    rewrite Hne, Hd. reflexivity.
  - cbn [plain]. unfold is_dash. apply N.eqb_neq in Hm. now rewrite Hm.
Qed.

Lemma str_of_Z_word z :
  plain_word (str_of_Z z) = true /\ pystr_eqb (str_of_Z z) fill = false.
Proof.
  destruct (str_of_Z_shape z) as (ds & Hne & Hd & Ha & _ & -> & _).
  assert (Hw : forallb (fun c => negb (is_space c) && negb (N.eqb c dq)) ds = true).
  { apply forallb_forall. intros c Hc.
    pose proof (proj1 (Forall_forall _ _) Ha c Hc) as H.
    destruct (ascii_digit_facts c H) as (-> & Hq & _). apply N.eqb_neq in Hq.
    now rewrite Hq. }
  destruct ds as [|d ds]; [discriminate|].
  destruct (ascii_digit_facts d (Forall_inv Ha)) as (_ & _ & _ & _ & Hf & _).
  unfold plain_word. destruct (z <? 0).
  - split; [| reflexivity]. cbn [nonempty andb].
    change (forallb (fun c => negb (is_space c) && negb (N.eqb c dq)) (45%N :: d :: ds))
      with (true && forallb (fun c => negb (is_space c) && negb (N.eqb c dq)) (d :: ds)).
    now rewrite Hw.
  - split; [cbn [nonempty andb]; exact Hw|].
    unfold fill. cbn [pystr_eqb]. apply N.eqb_neq in Hf. now rewrite Hf.
Qed.

(** What a handler that prints an integer leaves in the [try] block. *)
Lemma printed_int z :
  map Printed (fst (print_value (VInt z))) ++
  match snd (print_value (VInt z)) with
  | Some e => error_report e
  | None => []
  end = int_printed z
  /\ match snd (print_value (VInt z)) with
     | Some e => is_exception e = true
     | None => True
     end.
Proof.
  unfold print_value, int_printed, str_int.
  destruct (Nat.ltb int_max_str_digits (digits_of z)); split; reflexivity || exact I.
Qed.

End Numerals.

Section MainAdd.

Context {formatter : Formatter}.

Lemma add_line a b :
  extract_args (py "add " ++ str_of_Z a ++ py " " ++ str_of_Z b)
  = Ok [py "add"; str_of_Z a; str_of_Z b].
Proof.
  destruct (str_of_Z_word a) as [Ha Fa]. destruct (str_of_Z_word b) as [Hb Fb].
  pose proof (extract_args_render
                [([], Word (py "add")); (py " ", Word (str_of_Z a));
                 (py " ", Word (str_of_Z b))] []) as H.
  cbn [render item_text map snd item_token app] in H.
  rewrite app_nil_r in H. apply H.
  - unfold line_ok, head_ok, tail_ok, entry_ok. cbn [forallb fst snd item_ok].
    now rewrite Ha, Hb.
  - unfold fill_free. cbn [forallb snd]. now rewrite Fa, Fb.
Qed.

(** The command [add] of the module's own console is called with its two
    arguments, integers of no more than 4300 digits, and prints their
    sum. *)
Lemma add_prints_sum a b :
  digits_of a <= int_max_str_digits -> digits_of b <= int_max_str_digits ->
  read_line parse_args main_heap main_console
    (Line (py "add " ++ str_of_Z a ++ py " " ++ str_of_Z b))
  = (Prompt (py "?>") :: Called 0 [VInt a; VInt b] :: int_printed (a + b),
     Continue).
Proof.
  intros Da Db.
  assert (Hnd : NoDup (keys (arguments add_object))).
  { repeat constructor; cbn; intuition discriminate. }
  pose proof (positional_command_try_block main_heap main_console 0 add_object
                add_func _ [str_of_Z a; str_of_Z b] [VInt a; VInt b]
                eq_refl eq_refl eq_refl Hnd eq_refl eq_refl (add_line a b)) as H.
  unfold read_line. rewrite H.
  - change (add_func [VInt a; VInt b]) with (print_value (VInt (a + b))).
    unfold print_value, int_printed, str_int.
    destruct (Nat.ltb _ _); reflexivity.
  - cbn [forallb]. now rewrite !str_of_Z_operand.
  - unfold add_object, values, kw.
    cbn [arguments map snd kw_type convert_all convert].
    now rewrite !py_int_str.
Qed.

End MainAdd.

Section MainOne.

Context {formatter : Formatter}.

Lemma one_registered :
  dict_get (py "one") (name_parser_map (subparsers main_console)) = Some one_parser.
Proof. reflexivity. Qed.

Lemma one_parse_plain call w v :
  operand w = true -> py_int w = Some v ->
  parse_known_args one_parser call [w]
  = ([], Ok ([(py "v", VInt v); (py "i", VBool false); (py "func", VFunc 2)], [])).
Proof.
  intros Hw Hv. unfold parse_known_args.
  rewrite (classify_operands one_parser eq_refl [w]) by (cbn; now rewrite Hw).
  rewrite consume_no_option. unfold conclude, consume_positionals.
  cbn [positionals]. change (positional_indices one_parser) with [1].
  cbn [skipn repeat length match_partial slices firstn take_actions Nat.add].
  change (nargs_match (action_at one_parser 1) [SA]) with (Some 1).
  cbn [skipn repeat length match_partial slices firstn take_actions Nat.add].
  rewrite (take_action_store one_parser call _ 1 w (VInt v) eq_refl eq_refl
             (operand_not_ddash w Hw)) by (cbn; now rewrite Hv).
  vm_compute. reflexivity.
Qed.

Lemma one_parse_flag call w v :
  operand w = true -> py_int w = Some v ->
  parse_known_args one_parser call [py "-i"; w]
  = ([], Ok ([(py "v", VInt v); (py "i", VBool true); (py "func", VFunc 2)], [])).
Proof.
  intros Hw Hv. unfold parse_known_args.
  assert (Hc : classify one_parser [py "-i"; w]
               = Ok ([SO; SA], [Some (Some 2, py "-i", None); None])).
  { change (classify one_parser [py "-i"; w])
      with (r <- classify one_parser [w] ;;
            Ok (SO :: fst r, Some (Some 2, py "-i", None) :: snd r)).
    rewrite (classify_operands one_parser eq_refl [w]) by (cbn; now rewrite Hw).
    reflexivity. }
  rewrite Hc.
  assert (Hloop : consume one_parser call [py "-i"; w] [SO; SA]
            [Some (Some 2, py "-i", None); None] (S (length [py "-i"; w]))
            (mkPstate (initial_namespace one_parser) [] (positional_indices one_parser)
               [] [] []) 0
          = (mkPstate [(py "v", VNone); (py "i", VBool true); (py "func", VFunc 2)]
               [2] [1] [] [] [], @Ok nat 1))
    by (vm_compute; reflexivity).
  rewrite Hloop.
  unfold conclude, consume_positionals.
  cbn [positionals skipn repeat length match_partial slices firstn take_actions Nat.add].
  change (nargs_match (action_at one_parser 1) [SA]) with (Some 1).
  cbn [skipn repeat length match_partial slices firstn take_actions Nat.add].
  rewrite (take_action_store one_parser call _ 1 w (VInt v) eq_refl eq_refl
             (operand_not_ddash w Hw)) by (cbn; now rewrite Hv).
  vm_compute. reflexivity.
Qed.

Lemma one_lines v :
  extract_args (py "one " ++ str_of_Z v) = Ok [py "one"; str_of_Z v]
  /\ extract_args (py "one -i " ++ str_of_Z v) = Ok [py "one"; py "-i"; str_of_Z v].
Proof.
  destruct (str_of_Z_word v) as [Hv Fv]. split.
  - pose proof (extract_args_render
                  [([], Word (py "one")); (py " ", Word (str_of_Z v))] []) as H.
    cbn [render item_text map snd item_token app] in H.
    rewrite app_nil_r in H. apply H.
    + unfold line_ok, head_ok, tail_ok, entry_ok. cbn [forallb fst snd item_ok].
      now rewrite Hv.
    + unfold fill_free. cbn [forallb snd]. now rewrite Fv.
  - pose proof (extract_args_render
                  [([], Word (py "one")); (py " ", Word (py "-i"));
                   (py " ", Word (str_of_Z v))] []) as H.
    cbn [render item_text map snd item_token app] in H.
    rewrite app_nil_r in H. apply H.
    + unfold line_ok, head_ok, tail_ok, entry_ok. cbn [forallb fst snd item_ok].
      now rewrite Hv.
    + unfold fill_free. cbn [forallb snd]. now rewrite Fv.
Qed.

(** The command [one] of the module's own console: one less than its
    argument, an integer of no more than 4300 digits, and one more with
    [-i]. *)
Lemma one_prints v :
  digits_of v <= int_max_str_digits ->
  read_line parse_args main_heap main_console (Line (py "one " ++ str_of_Z v))
  = (Prompt (py "?>") :: Called 2 [VInt v; VBool false] :: int_printed (v - 1),
     Continue)
  /\ read_line parse_args main_heap main_console (Line (py "one -i " ++ str_of_Z v))
     = (Prompt (py "?>") :: Called 2 [VInt v; VBool true] :: int_printed (v + 1),
        Continue).
Proof.
  intros Dv. destruct (one_lines v) as [L1 L2].
  pose proof (str_of_Z_operand v) as Ho. pose proof (py_int_str v Dv) as Hi.
  pose proof (operand_not_help _ Ho) as Hh.
  assert (Hd : deref main_heap 2 = Some one_object) by reflexivity.
  split; unfold read_line.
  - rewrite (try_block_command main_heap main_console _ (py "one") [str_of_Z v]
               one_parser _ 2 _ one_func [VInt v; VBool false] L1 eq_refl Hh
               one_registered (one_parse_plain no_sub _ v Ho Hi) eq_refl Hd eq_refl
               eq_refl).
    change (one_func [VInt v; VBool false]) with (print_value (VInt (v - 1))).
    unfold print_value, int_printed, str_int.
    destruct (Nat.ltb _ _); reflexivity.
  - rewrite (try_block_command main_heap main_console _ (py "one")
               [py "-i"; str_of_Z v]
               one_parser _ 2 _ one_func [VInt v; VBool true] L2 eq_refl
               ltac:(now rewrite has_help_cons, Hh)
               one_registered (one_parse_flag no_sub _ v Ho Hi) eq_refl Hd eq_refl
               eq_refl).
    change (one_func [VInt v; VBool true]) with (print_value (VInt (v + 1))).
    unfold print_value, int_printed, str_int.
    destruct (Nat.ltb _ _); reflexivity.
Qed.

End MainOne.

Section MainSub.

Context {formatter : Formatter}.

Lemma sub_registered :
  dict_get (py "sub") (name_parser_map (subparsers main_console)) = Some sub_parser.
Proof. reflexivity. Qed.

Lemma sub_parse_both call wx wy x y :
  operand wx = true -> operand wy = true ->
  py_int wx = Some x -> py_int wy = Some y ->
  parse_known_args sub_parser call [py "-a=" ++ wx; py "-v=" ++ wy]
  = ([], Ok ([(py "a", VInt x); (py "value", VInt y); (py "func", VFunc 1)], [])).
Proof.
  intros Hx Hy Ix Iy. unfold parse_known_args.
  assert (Hc : classify sub_parser [py "-a=" ++ wx; py "-v=" ++ wy]
               = Ok ([SO; SO], [Some (Some 1, py "-a", Some wx);
                                Some (Some 2, py "-v", Some wy)]))
    by (vm_compute; reflexivity).
  rewrite Hc. cbn [length].
  rewrite consume_at_option by (reflexivity || (cbn; lia)).
  rewrite (consume_optional_explicit sub_parser call
             [py "-a=" ++ wx; py "-v=" ++ wy] [SO; SO]
             [Some (Some 1, py "-a", Some wx); Some (Some 2, py "-v", Some wy)]
             _ 0 1 (py "-a") wx (VInt x)
             eq_refl eq_refl ltac:(discriminate) eq_refl (operand_not_ddash wx Hx))
    by (cbn; now rewrite Ix).
  cbv beta iota.
  rewrite consume_at_option by (reflexivity || (cbn; lia)).
  rewrite (consume_optional_explicit sub_parser call
             [py "-a=" ++ wx; py "-v=" ++ wy] [SO; SO]
             [Some (Some 1, py "-a", Some wx); Some (Some 2, py "-v", Some wy)]
             _ 1 2 (py "-v") wy (VInt y)
             eq_refl eq_refl ltac:(discriminate) eq_refl (operand_not_ddash wy Hy))
    by (cbn; now rewrite Iy).
  cbv beta iota.
  rewrite (consume_at_end sub_parser call [py "-a=" ++ wx; py "-v=" ++ wy]).
  vm_compute. reflexivity.
Qed.

Lemma sub_parse_value call wy y :
  operand wy = true -> py_int wy = Some y ->
  parse_known_args sub_parser call [py "--value=" ++ wy]
  = ([], Ok ([(py "a", VInt 0); (py "value", VInt y); (py "func", VFunc 1)], [])).
Proof.
  intros Hy Iy. unfold parse_known_args.
  assert (Hc : classify sub_parser [py "--value=" ++ wy]
               = Ok ([SO], [Some (Some 2, py "--value", Some wy)]))
    by (vm_compute; reflexivity).
  rewrite Hc. cbn [length].
  rewrite consume_at_option by (reflexivity || (cbn; lia)).
  rewrite (consume_optional_explicit sub_parser call
             [py "--value=" ++ wy] [SO] [Some (Some 2, py "--value", Some wy)]
             _ 0 2 (py "--value") wy
             (VInt y) eq_refl eq_refl ltac:(discriminate) eq_refl
             (operand_not_ddash wy Hy))
    by (cbn; now rewrite Iy).
  cbv beta iota.
  rewrite (consume_at_end sub_parser call [py "--value=" ++ wy]).
  vm_compute. reflexivity.
Qed.

Lemma option_word pre z :
  plain_word pre = true ->
  plain_word (pre ++ str_of_Z z) = true
  /\ (pystr_eqb (hd 0%N pre :: []) [36%N] = false ->
      pystr_eqb (pre ++ str_of_Z z) fill = false).
Proof.
  intros Hp. destruct (str_of_Z_word z) as [Hz _]. split.
  - unfold plain_word in *. apply andb_true_iff in Hp as [Hp1 Hp2].
    apply andb_true_iff in Hz as [_ Hz2].
    rewrite forallb_app, Hp2, Hz2. destruct pre; [discriminate | reflexivity].
  - destruct pre as [|c pre]; [discriminate Hp|]. cbn [hd app pystr_eqb fill].
    unfold fill. cbn [pystr_eqb]. rewrite !andb_true_r.
    intros H. now rewrite H.
Qed.

Lemma sub_lines x y :
  extract_args (py "sub -a=" ++ str_of_Z x ++ py " -v=" ++ str_of_Z y)
  = Ok [py "sub"; py "-a=" ++ str_of_Z x; py "-v=" ++ str_of_Z y]
  /\ extract_args (py "sub --value=" ++ str_of_Z y)
     = Ok [py "sub"; py "--value=" ++ str_of_Z y].
Proof.
  destruct (option_word (py "-a=") x eq_refl) as [Ha Fa].
  destruct (option_word (py "-v=") y eq_refl) as [Hv Fv].
  destruct (option_word (py "--value=") y eq_refl) as [Hl Fl].
  specialize (Fa eq_refl). specialize (Fv eq_refl). specialize (Fl eq_refl).
  split.
  - pose proof (extract_args_render
                  [([], Word (py "sub")); (py " ", Word (py "-a=" ++ str_of_Z x));
                   (py " ", Word (py "-v=" ++ str_of_Z y))] []) as H.
    cbn [render item_text map snd item_token] in H.
    rewrite app_nil_r in H.
    replace (py "sub -a=" ++ str_of_Z x ++ py " -v=" ++ str_of_Z y)
      with ([] ++ py "sub" ++ py " " ++ (py "-a=" ++ str_of_Z x) ++ py " "
            ++ py "-v=" ++ str_of_Z y)
      by (cbn [app]; now rewrite <- !app_assoc).
    apply H.
    + unfold line_ok, head_ok, tail_ok, entry_ok. cbn [forallb fst snd item_ok].
      now rewrite Ha, Hv.
    + unfold fill_free. cbn [forallb snd]. now rewrite Fa, Fv.
  - pose proof (extract_args_render
                  [([], Word (py "sub")); (py " ", Word (py "--value=" ++ str_of_Z y))]
                  []) as H.
    cbn [render item_text map snd item_token] in H.
    rewrite app_nil_r in H.
    apply H.
    + unfold line_ok, head_ok, tail_ok, entry_ok. cbn [forallb fst snd item_ok].
      now rewrite Hl.
    + unfold fill_free. cbn [forallb snd]. now rewrite Fl.
Qed.

(** The command [sub] of the module's own console: the difference of
    [-a] and [-v], integers of no more than 4300 digits, where [-a] is 0
    when it is not given. *)
Lemma sub_prints x y :
  digits_of x <= int_max_str_digits -> digits_of y <= int_max_str_digits ->
  read_line parse_args main_heap main_console
    (Line (py "sub -a=" ++ str_of_Z x ++ py " -v=" ++ str_of_Z y))
  = (Prompt (py "?>") :: Called 1 [VInt x; VInt y] :: int_printed (x - y),
     Continue)
  /\ read_line parse_args main_heap main_console
       (Line (py "sub --value=" ++ str_of_Z y))
     = (Prompt (py "?>") :: Called 1 [VInt 0; VInt y] :: int_printed (0 - y),
        Continue).
Proof.
  intros Dx Dy. destruct (sub_lines x y) as [L1 L2].
  pose proof (str_of_Z_operand x) as Hx. pose proof (py_int_str x Dx) as Ix.
  pose proof (str_of_Z_operand y) as Hy. pose proof (py_int_str y Dy) as Iy.
  assert (Hd : deref main_heap 1 = Some sub_object) by reflexivity.
  split; unfold read_line.
  - rewrite (try_block_command main_heap main_console _ (py "sub")
               [py "-a=" ++ str_of_Z x; py "-v=" ++ str_of_Z y]
               sub_parser _ 1 _ sub_func [VInt x; VInt y] L1 eq_refl eq_refl
               sub_registered (sub_parse_both no_sub _ _ x y Hx Hy Ix Iy) eq_refl Hd
               eq_refl eq_refl).
    change (sub_func [VInt x; VInt y]) with (print_value (VInt (x - y))).
    unfold print_value, int_printed, str_int.
    destruct (Nat.ltb _ _); reflexivity.
  - rewrite (try_block_command main_heap main_console _ (py "sub")
               [py "--value=" ++ str_of_Z y]
               sub_parser _ 1 _ sub_func [VInt 0; VInt y] L2 eq_refl eq_refl
               sub_registered (sub_parse_value no_sub _ y Hy Iy) eq_refl Hd
               eq_refl eq_refl).
    change (sub_func [VInt 0; VInt y]) with (print_value (VInt (0 - y))).
    unfold print_value, int_printed, str_int.
    destruct (Nat.ltb _ _); reflexivity.
Qed.

End MainSub.



(* ================================================================== *)
(** ** Two more facts the properties below rest on *)
(* ================================================================== *)

Section MoreFacts.


Lemma add_command_binds cc h c r cmd :
  deref h r = Some cmd ->
  snd (add_command cc h c r) = Ok tt ->
  dict_get (name cmd) (name_parser_map (subparsers (fst (add_command cc h c r))))
  = Some (command_parser cmd r).
Proof.
  intros Hd. unfold add_command, command_parser. rewrite Hd.
  destruct (func cmd); [| discriminate].
  unfold add_parser.
  destruct (cc && dict_has (name cmd) (name_parser_map (subparsers c)));
    [discriminate|].
  destruct (add_arguments (new_parser (name cmd)) (values (arguments cmd)))
    as [p1 [u|e]]; [| discriminate].
  intros _.
  cbn [fst snd with_subparsers bind_parser subparsers name_parser_map].
  apply dict_get_set_same.
Qed.

End MoreFacts.

(* ================================================================== *)
(** ** Further properties of the tokenizer *)
(* ================================================================== *)

(** X1.  When no blank-separated word of the line is the text [fill],
    [extract_args] raises nothing, whatever quotes the line holds and
    however they are placed: every token [fill] the second loop meets
    stands for a match of the pattern.  It returns as many tokens as the
    line has words once the first loop has replaced the matches. *)
Theorem extract_args_total (s : pystr) :
  forallb (fun a => negb (pystr_eqb a fill)) (split s) = true ->
  exists toks,
    extract_args s = Ok toks
    /\ length toks
       = length (split (fold_left (fun s b => replace b fill s)
                                  (map quote (findall s)) s)).
Proof.
  intros H. destruct (extract_args_returns s H) as [toks E].
  exists toks. split; [exact E|].
  unfold extract_args in E. exact (resubstitute_length _ _ _ _ E).
Qed.

(** A line with a quote too many, a span glued to a word and a span that
    is one space. *)
Lemma extract_args_total_witness :
  let s := quote (py "a ") ++ py "b" ++ quote (py " ") ++ py "c" ++ [dq]
           ++ py " x" ++ quote (py "d e") in
  forallb (fun a => negb (pystr_eqb a fill)) (split s) = true
  /\ exists toks,
       extract_args s = Ok toks
       /\ length toks
          = length (split (fold_left (fun s b => replace b fill s)
                                     (map quote (findall s)) s)).
Proof.
  cbv zeta. split; [reflexivity|].
  exact (extract_args_total
           (quote (py "a ") ++ py "b" ++ quote (py " ") ++ py "c" ++ [dq]
            ++ py " x" ++ quote (py "d e")) eq_refl).
Defined.

(** X2.  [extract_args] raises nothing but [IndexError('list index out of
    range')], and only on a line one of whose blank-separated words is the
    text [fill]. *)
Theorem extract_args_raises (s : pystr) (e : exn) :
  extract_args s = Raise e ->
  e = mkExn IndexError (py "list index out of range") /\ In fill (split s).
Proof.
  intros H. split.
  - unfold extract_args in H. exact (resubstitute_raises _ _ _ _ H).
  - destruct (forallb (fun a => negb (pystr_eqb a fill)) (split s)) eqn:E.
    + destruct (extract_args_returns s E) as [toks Ht]. congruence.
    + assert (Hex : existsb (fun a => pystr_eqb a fill) (split s) = true).
      { clear H. induction (split s) as [|a l IH]; [discriminate|].
        cbn [forallb existsb] in *. destruct (pystr_eqb a fill); [reflexivity|].
        cbn [negb andb orb] in *. now apply IH. }
      apply existsb_exists in Hex as (w & Hw & Ew).
      apply pystr_eqb_eq in Ew. now subst w.
Qed.

(** The line [say $^$$^$]. *)
Lemma extract_args_raises_witness :
  extract_args (py "say " ++ fill)
  = Raise (mkExn IndexError (py "list index out of range"))
  /\ In fill (split (py "say " ++ fill)).
Proof.
  split; [vm_compute; reflexivity|].
  exact (proj2 (extract_args_raises (py "say " ++ fill)
                  (mkExn IndexError (py "list index out of range")) eq_refl)).
Defined.

(** X3.  No token [extract_args] returns is empty, and a token holds a
    blank only when it is the content of a match of the pattern: every
    token is free of blanks, or made of characters of the class. *)
Theorem extract_args_tokens (s : pystr) (toks : list pystr) :
  extract_args s = Ok toks ->
  Forall (fun t => t <> [] /\ (no_space t = true \/ forallb in_class t = true)) toks.
Proof.
  intros H. apply Forall_forall. intros t Ht.
  exact (extract_args_shape s toks t H Ht).
Qed.

(** The line [say "hello world" now]. *)
Lemma extract_args_tokens_witness :
  extract_args (py "say " ++ quote (py "hello world") ++ py " now")
  = Ok [py "say"; py "hello world"; py "now"]
  /\ Forall (fun t => t <> [] /\ (no_space t = true \/ forallb in_class t = true))
            [py "say"; py "hello world"; py "now"].
Proof.
  split; [reflexivity|].
  exact (extract_args_tokens (py "say " ++ quote (py "hello world") ++ py " now")
           [py "say"; py "hello world"; py "now"] eq_refl).
Defined.

(** X5.  An empty line, or a line of blanks, has no tokens; [argparse]
    accepts no tokens and returns a namespace without [func], so the
    line prints nothing after the prompt, calls nothing and reports
    nothing, whatever commands are registered. *)
Theorem blank_line_does_nothing
    {formatter : Formatter} (h : heap) (c : QRConsole) (s : pystr) :
  blank s = true ->
  extract_args s = Ok []
  /\ parse_args (subparsers c) [] = ([], Ok [])
  /\ read_line parse_args h c (Line s) = ([Prompt (py "?>")], Continue).
Proof.
  intros H. split; [now apply blank_extract_args|]. split; [reflexivity|].
  now apply blank_line.
Qed.

Lemma blank_line_does_nothing_witness :
  blank (py "   ") = true
  /\ extract_args (py "   ") = Ok []
  /\ parse_args (subparsers main_console) [] = ([], Ok [])
  /\ read_line parse_args main_heap main_console (Line (py "   "))
     = ([Prompt (py "?>")], Continue).
Proof.
  split; [reflexivity|].
  exact (blank_line_does_nothing main_heap main_console (py "   ") eq_refl).
Defined.

(* ================================================================== *)
(** ** Further properties of registration *)
(* ================================================================== *)

(** X6.  What [add_command] leaves alone, whether it returns or raises:
    [hello] and [throw_errors]; the commands registered before, to which
    the command is appended exactly when the call returns; every name
    registered before, which stays registered; and the parser of every
    name other than the command's.  When the call returns, the name of
    the command is bound to the parser made of its arguments. *)
Theorem add_command_keeps_the_rest
    (conflict_check : bool) (h : heap) (c : QRConsole) (r : ref) :
  let c' := fst (add_command conflict_check h c r) in
  hello c' = hello c
  /\ throw_errors c' = throw_errors c
  /\ commands c'
     = commands c ++ match snd (add_command conflict_check h c r) with
                     | Ok _ => [r]
                     | Raise _ => []
                     end
  /\ (forall n, dict_has n (name_parser_map (subparsers c)) = true ->
                dict_has n (name_parser_map (subparsers c')) = true)
  /\ (forall cmd n, deref h r = Some cmd -> n <> name cmd ->
        dict_get n (name_parser_map (subparsers c'))
        = dict_get n (name_parser_map (subparsers c)))
  /\ (forall cmd, deref h r = Some cmd ->
        snd (add_command conflict_check h c r) = Ok tt ->
        dict_get (name cmd) (name_parser_map (subparsers c'))
        = Some (command_parser cmd r)).
Proof.
  cbv zeta.
  destruct (add_command_frame conflict_check h c r) as (H1 & H2 & H3 & H4 & H5).
  repeat (split; [assumption|]).
  apply add_command_binds.
Qed.

(** X7.  A registration that fails while the arguments are registered is
    not undone: [add_command] raises what [parser.add_argument] raised and
    does not append the command, but the name stays bound to the parser
    as far as it was built.  That parser has the help option and no
    [func]. *)
Theorem failed_registration_is_not_undone
    (conflict_check : bool) (h : heap) (c : QRConsole) (r : ref)
    (cmd : QRCommand) (f : handler) (p1 : Parser) (e : exn) :
  deref h r = Some cmd -> func cmd = Some f ->
  conflict_check && dict_has (name cmd) (name_parser_map (subparsers c)) = false ->
  add_arguments (new_parser (name cmd)) (values (arguments cmd)) = (p1, Raise e) ->
  snd (add_command conflict_check h c r) = Raise e
  /\ commands (fst (add_command conflict_check h c r)) = commands c
  /\ dict_get (name cmd)
       (name_parser_map (subparsers (fst (add_command conflict_check h c r))))
     = Some p1
  /\ defaults p1 = []
  /\ helpful (name cmd) p1.
Proof. apply failed_registration. Qed.

(** The command [shadow], whose argument [-h] clashes with the help
    option, on the module's own console. *)
Lemma failed_registration_is_not_undone_witness :
  let h := fst (shadow_cmd main_heap) in
  let e := mkExn ArgumentError
             (py "argument -h/-h/--h: conflicting option strings: -h, -h") in
  deref h 3
  = Some (mkCommand (py "shadow") None
            [(py "h", ([py "-h"; py "-h"; py "--h"], kw None None (Some store_true) None))]
            (Some add_func))
  /\ add_arguments (new_parser (py "shadow"))
       [([py "-h"; py "-h"; py "--h"], kw None None (Some store_true) None)]
     = (new_parser (py "shadow"), Raise e)
  /\ snd (add_command false h main_console 3) = Raise e
  /\ commands (fst (add_command false h main_console 3)) = commands main_console
  /\ dict_get (py "shadow")
       (name_parser_map (subparsers (fst (add_command false h main_console 3))))
     = Some (new_parser (py "shadow")).
Proof.
  cbv zeta. split; [reflexivity|]. split; [reflexivity|].
  pose proof (failed_registration_is_not_undone false (fst (shadow_cmd main_heap))
                main_console 3
                (mkCommand (py "shadow") None
                   [(py "h", ([py "-h"; py "-h"; py "--h"],
                              kw None None (Some store_true) None))]
                   (Some add_func))
                add_func (new_parser (py "shadow"))
                (mkExn ArgumentError
                   (py "argument -h/-h/--h: conflicting option strings: -h, -h"))
                eq_refl eq_refl eq_refl eq_refl) as (H1 & H2 & H3 & _).
  split; [exact H1|]. split; [exact H2 | exact H3].
Defined.

(** X8.  For an optional argument whose bare name is not empty and does
    not begin with a dash, [argparse] takes the [dest] from the long form
    [add_argument] put among the names, whatever further names were
    given: the value is stored under the bare name with every hyphen
    turned into an underscore.  That is the key the handler's argument is
    looked up under exactly when the bare name has no hyphen; with a
    hyphen in it, the lookup of the bare name raises [KeyError]. *)
Theorem optional_argument_dest (name bare : pystr) (args : list pystr) :
  is_optional_name name = true -> bare_name name = Ok bare ->
  nonempty bare = true -> plain bare = true ->
  optional_dest (stored_names name bare args) = Ok (underscored bare)
  /\ (forall p kw p',
        ArgParse.add_argument p (stored_names name bare args) kw = Ok p' ->
        dest (nth (length (actions p)) (actions p') help_action)
        = Some (underscored bare))
  /\ (underscored bare = bare <-> forallb (fun c => negb (is_dash c)) bare = true)
  /\ (forall data names,
        In bare names -> dict_get bare data = None ->
        exists k, In k names /\ dict_get k data = None
                  /\ bound_values data names = Raise (mkExn KeyError (repr_str k))).
Proof.
  intros Ho Hb Hne Hp.
  pose proof (optional_dest_stored name bare args Ho Hb Hne Hp) as Hd.
  split; [exact Hd|]. split; [| split; [apply underscored_same|]].
  - intros p kw p' H. unfold stored_names in *. rewrite Ho in *.
    exact (add_argument_dest p _ _ _ kw p' _ Hd H).
  - intros data names Hin Hk.
    exact (bound_values_missing data names bare Hin Hk).
Qed.

(** [.add_argument('--my-opt')]: the value is stored under [my_opt], and
    the lookup of [my-opt] raises. *)
Lemma optional_argument_dest_witness :
  is_optional_name (py "--my-opt") = true
  /\ bare_name (py "--my-opt") = Ok (py "my-opt")
  /\ optional_dest (stored_names (py "--my-opt") (py "my-opt") [])
     = Ok (py "my_opt")
  /\ bound_values [(py "my_opt", VStr (py "x")); (py "func", VFunc 3)] [py "my-opt"]
     = Raise (mkExn KeyError (py "'my-opt'")).
Proof.
  split; [reflexivity|]. split; [reflexivity|].
  split; [| reflexivity].
  exact (proj1 (optional_argument_dest (py "--my-opt") (py "my-opt") []
                  eq_refl eq_refl eq_refl eq_refl)).
Defined.

(* ================================================================== *)
(** ** Further properties of dispatch *)
(* ================================================================== *)

(** X9.  The function [add_command] binds to a parser reads [cmd.func]
    when it is called, not when the command is registered: after
    [cmd.set_func(g)] a line that is dispatched to the command calls [g],
    and after [cmd.set_func(None)] it raises [TypeError]. *)
Theorem handler_is_read_at_dispatch
    (h : heap) (args : namespace) (r : ref) (cmd : QRCommand)
    (vs : list value) (g : option handler) :
  dict_get (py "func") args = Some (VFunc r) ->
  deref h r = Some cmd ->
  bound_values args (keys (arguments cmd)) = Ok vs ->
  call_func (fst (set_func h r g)) args
  = match g with
    | None => ([], Raise (not_callable (py "NoneType")))
    | Some f =>
        (Called r vs :: map Printed (fst (f vs)),
         match snd (f vs) with Some e => Raise e | None => Ok tt end)
    end.
Proof. apply call_func_after_set_func. Qed.

(** The command [add] of the module's own console, given the function of
    [sub] after it was registered. *)
Lemma handler_is_read_at_dispatch_witness :
  let args := [(py "a", VInt 5); (py "b", VInt 3); (py "func", VFunc 0)] in
  deref main_heap 0 = Some add_object
  /\ call_func main_heap args
     = ([Called 0 [VInt 5; VInt 3]; Printed (py "8")], Ok tt)
  /\ call_func (fst (set_func main_heap 0 (Some sub_func))) args
     = ([Called 0 [VInt 5; VInt 3]; Printed (py "2")], Ok tt).
Proof.
  cbv zeta. split; [reflexivity|]. split; [vm_compute; reflexivity|].
  exact (handler_is_read_at_dispatch main_heap
           [(py "a", VInt 5); (py "b", VInt 3); (py "func", VFunc 0)] 0
           add_object [VInt 5; VInt 3] (Some sub_func) eq_refl eq_refl eq_refl).
Defined.



(** X11.  A line that begins with a registered name (one that does not
    begin with a dash) is parsed by the parser of that name, whatever
    follows the name: [parse_args] prints the help that parser prints,
    raises what it raises, returns the items of its namespace, and
    refuses what it left over as unrecognized arguments. *)
Theorem line_goes_to_its_command
    {formatter : Formatter} (sp : SubParsers) (name : pystr) (p : Parser) (ws : list pystr) :
  plain name = true ->
  dict_get name (name_parser_map sp) = Some p ->
  parse_args sp (name :: ws) = command_result (parse_known_args p no_sub ws).
Proof. intros Hn Hp. now apply parse_args_into_command. Qed.

(** The lines [sub -v 2 -a 5] and [sub 7] on the module's own console. *)
Lemma line_goes_to_its_command_witness :
  plain (py "sub") = true
  /\ dict_get (py "sub") (name_parser_map (subparsers main_console)) = Some sub_parser
  /\ parse_args (subparsers main_console) [py "sub"; py "-v"; py "2"; py "-a"; py "5"]
     = command_result (parse_known_args sub_parser no_sub
                         [py "-v"; py "2"; py "-a"; py "5"])
  /\ parse_known_args sub_parser no_sub [py "-v"; py "2"; py "-a"; py "5"]
     = ([], Ok ([(py "a", VInt 5); (py "value", VInt 2); (py "func", VFunc 1)], []))
  /\ parse_args (subparsers main_console) [py "sub"; py "7"]
     = ([], Raise (mkExn ArgumentParserError (py "unrecognized arguments: 7"))).
Proof.
  split; [reflexivity|]. split; [vm_compute; reflexivity|].
  split; [| split; vm_compute; reflexivity].
  exact (line_goes_to_its_command (subparsers main_console) (py "sub") sub_parser
           [py "-v"; py "2"; py "-a"; py "5"] eq_refl sub_registered).
Defined.



(** X13.  The loop of [run] reads on where it stands: the inputs read
    one after the other give what the first part gives, followed by what
    the rest gives unless the first part ended the loop, in [sys.exit] or
    by an exception that went through.  The prompt is written once for
    every line read, and every input is read as long as the loop is not
    left. *)
Theorem run_reads_on
    (parse : evaluator) (h : heap) (c : QRConsole) (l1 l2 : list input_result) :
  run parse h c (l1 ++ l2)
  = match run parse h c l1 with
    | (evs, Running) =>
        (evs ++ fst (run parse h c l2), snd (run parse h c l2))
    | (evs, Exited code) => (evs, Exited code)
    | (evs, Escaped ex) => (evs, Escaped ex)
    end
  /\ prompts (fst (run parse h c l1)) = lines_read parse h c l1
  /\ lines_read parse h c l1 <= length l1
  /\ (snd (run parse h c l1) = Running -> lines_read parse h c l1 = length l1).
Proof. split; [apply run_app | apply run_prompts]. Qed.

(* ================================================================== *)
(** ** The commands of the [__main__] block on all integers *)
(* ================================================================== *)

(** X14.  On the console the [__main__] block builds, for integers [a]
    and [b] of no more than 4300 digits, written as [str] writes them:
    [add a b] calls the handler with [a] and [b], and the handler prints
    their sum; [sub -a=a -v=b] their difference, [sub --value=b] the
    difference of 0 and [b], [one a] one less than [a] and [one -i a] one
    more.  The handler is called once, and the loop goes on.  A result of
    more than 4300 digits is not printed: [str] raises [ValueError], and
    the line is reported with it. *)
Theorem main_commands_compute {formatter : Formatter} (a b : Z) :
  digits_of a <= int_max_str_digits -> digits_of b <= int_max_str_digits ->
  read_line parse_args main_heap main_console
    (Line (py "add " ++ str_of_Z a ++ py " " ++ str_of_Z b))
  = (Prompt (py "?>") :: Called 0 [VInt a; VInt b] :: int_printed (a + b), Continue)
  /\ read_line parse_args main_heap main_console
       (Line (py "sub -a=" ++ str_of_Z a ++ py " -v=" ++ str_of_Z b))
     = (Prompt (py "?>") :: Called 1 [VInt a; VInt b] :: int_printed (a - b),
        Continue)
  /\ read_line parse_args main_heap main_console
       (Line (py "sub --value=" ++ str_of_Z b))
     = (Prompt (py "?>") :: Called 1 [VInt 0; VInt b] :: int_printed (0 - b),
        Continue)
  /\ read_line parse_args main_heap main_console (Line (py "one " ++ str_of_Z a))
     = (Prompt (py "?>") :: Called 2 [VInt a; VBool false] :: int_printed (a - 1),
        Continue)
  /\ read_line parse_args main_heap main_console (Line (py "one -i " ++ str_of_Z a))
     = (Prompt (py "?>") :: Called 2 [VInt a; VBool true] :: int_printed (a + 1),
        Continue)
  /\ (forall z,
        int_printed z
        = if Nat.leb (digits_of z) int_max_str_digits
          then [Printed (str_of_Z z)]
          else error_report too_many_digits).
Proof.
  intros Da Db. split; [now apply add_prints_sum|].
  destruct (sub_prints a b Da Db) as [H1 H2]. destruct (one_prints a Da) as [H3 H4].
  repeat (split; [assumption|]).
  intros z. unfold int_printed, str_int. rewrite Nat.ltb_antisym.
  now destruct (Nat.leb (digits_of z) int_max_str_digits).
Qed.

(** The integers 7 and -3. *)
Lemma main_commands_compute_witness :
  digits_of 7 <= int_max_str_digits /\ digits_of (-3) <= int_max_str_digits
  /\ read_line parse_args main_heap main_console (Line (py "add 7 -3"))
     = ([Prompt (py "?>"); Called 0 [VInt 7; VInt (-3)]; Printed (py "4")], Continue)
  /\ read_line parse_args main_heap main_console (Line (py "sub -a=7 -v=-3"))
     = ([Prompt (py "?>"); Called 1 [VInt 7; VInt (-3)]; Printed (py "10")],
        Continue)
  /\ read_line parse_args main_heap main_console (Line (py "one -i 7"))
     = ([Prompt (py "?>"); Called 2 [VInt 7; VBool true]; Printed (py "8")],
        Continue).
Proof.
  assert (D7 : digits_of 7 <= int_max_str_digits) by (vm_compute; lia).
  assert (D3 : digits_of (-3) <= int_max_str_digits) by (vm_compute; lia).
  split; [exact D7|]. split; [exact D3|].
  destruct (main_commands_compute 7 (-3) D7 D3) as (H1 & H2 & _ & _ & H5 & _).
  split; [exact H1|]. split; [exact H2 | exact H5].
Defined.

(* ================================================================== *)
(** ** The module's own console at work *)
(* ================================================================== *)

(** The session of the README on the console of the [__main__]
    block: the three help requests print the help of the shell, of [add]
    and of [one]; [add 1 2] prints 3, [sub -a=5 -v=2] prints 3,
    [sub --value=5] prints -5, [one 5] prints 4, [one -i 5] prints 6; the
    last three lines are reported in red, and the loop is about to read
    again. *)
Example readme_session :
  run parse_args main_heap main_console
    [Line (py "-h"); Line (py "add -h"); Line (py "one --help");
     Line (py "add 1 2"); Line (py "sub -a=5 -v=2"); Line (py "sub --value=5");
     Line (py "one 5"); Line (py "one -i 5");
     Line (py "add"); Line (py "sub -b=5"); Line (py "add 1 a")]
  = ([Prompt (py "?>"); HelpPrinted (py "PROG");
      Prompt (py "?>"); HelpPrinted (py "add");
      Prompt (py "?>"); HelpPrinted (py "one");
      Prompt (py "?>"); Called 0 [VInt 1; VInt 2]; Printed (py "3");
      Prompt (py "?>"); Called 1 [VInt 5; VInt 2]; Printed (py "3");
      Prompt (py "?>"); Called 1 [VInt 0; VInt 5]; Printed (py "-5");
      Prompt (py "?>"); Called 2 [VInt 5; VBool false]; Printed (py "4");
      Prompt (py "?>"); Called 2 [VInt 5; VBool true]; Printed (py "6");
      Prompt (py "?>");
      Printed (RED ++ py "the following arguments are required: a, b");
      Written RESET_ALL;
      Prompt (py "?>");
      Printed (RED ++ py "unrecognized arguments: -b=5");
      Written RESET_ALL;
      Prompt (py "?>");
      Printed (RED ++ py "argument b: invalid int value: 'a'");
      Written RESET_ALL],
     Running).
Proof. vm_compute; reflexivity. Qed.

(** A registration that fails after [add_parser] is not undone: the
    command [shadow], whose argument [-h] clashes with the help option,
    makes [add_command] raise and is not appended to [commands], but its
    name stays registered with a parser that has no [func]; the line
    [shadow] then parses and does nothing. *)
Example failed_registration_keeps_the_name :
  snd (add_command false (fst (shadow_cmd main_heap)) main_console 3)
  = Raise (mkExn ArgumentError
             (py "argument -h/-h/--h: conflicting option strings: -h, -h"))
  /\ commands (fst (add_command false (fst (shadow_cmd main_heap)) main_console 3))
     = commands main_console
  /\ keys (name_parser_map
             (subparsers (fst (add_command false (fst (shadow_cmd main_heap))
                                 main_console 3))))
     = [py "add"; py "sub"; py "one"; py "shadow"]
  /\ read_line parse_args (fst (shadow_cmd main_heap))
       (fst (add_command false (fst (shadow_cmd main_heap)) main_console 3))
       (Line (py "shadow"))
     = ([Prompt (py "?>")], Continue).
Proof. repeat split; vm_compute; reflexivity. Qed.

(** The handler is called with [data.__dict__[arg]] for the keys of
    [cmd.arguments], which are bare names, while [argparse] stores a value
    under the name with every hyphen turned into an underscore: for the
    argument [--my-opt] the key [my-opt] is not in the namespace, and the
    line is reported with the [KeyError]. *)
Example hyphen_in_argument_name :
  snd (add_command false (fst (greet_cmd main_heap)) main_console 3) = Ok tt
  /\ parse_args
       (subparsers (fst (add_command false (fst (greet_cmd main_heap)) main_console 3)))
       [py "greet"; py "--my-opt"; py "x"]
     = ([], Ok [(py "my_opt", VStr (py "x")); (py "func", VFunc 3)])
  /\ read_line parse_args (fst (greet_cmd main_heap))
       (fst (add_command false (fst (greet_cmd main_heap)) main_console 3))
       (Line (py "greet --my-opt x"))
     = ([Prompt (py "?>"); Printed (RED ++ py "'my-opt'"); Written RESET_ALL],
        Continue).
Proof. repeat split; vm_compute; reflexivity. Qed.
